(** * AutoTranscribe: the ingestion-and-orchestration engine

    A shallow embedding of the parts of [scripts/] that the specification
    talks about: the progress state machine ([progress.py]), the stability
    wait of the watcher ([watcher.py]), the naming and index routine
    ([file_manager.py]), the normalisation of the recogniser's output
    ([transcriber.py]), the confirmation dialog ([notifier.py]) and the
    per-task pipeline ([main.py]); and, around them, the handler of file
    events ([watcher.py]), the detection of the language
    ([transcriber.py]), the texts put into the dialogs ([notifier.py]) and
    the Markdown transcript ([file_manager.py]).

    Conventions.
    - A Python [str] is a list of Unicode code points ([pystr]); literals
      are written with [py "..."], which decodes the UTF-8 bytes of the
      literal.
    - A Python [int] is a [Z].  A Python [float] is a rational ([Q]); the
      few places where binary rounding could matter are pointed out where
      they occur.
    - Readings of the wall clock are inputs, and so is the way a call of
      a collaborator or of the file system ends: with a value, or with an
      exception ([res]), and, for a writing or a move that fails, with
      what it leaves behind. *)

From Stdlib Require Import ZArith QArith Qround String Ascii List Sorted Lia DecimalZ.
From Stdlib Require Import DecimalPos.
From stdpp Require Import base list gmap.

Local Open Scope Z_scope.

(* ================================================================== *)
(** * Python strings *)
(* ================================================================== *)

Abbreviation pystr := (list N).

Module PyStr.

(** UTF-8 decoding of a literal (well-formed input only). *)
Fixpoint utf8_decode (bs : list N) : pystr :=
  match bs with
  | [] => []
  | b :: r1 =>
    if (b <? 128)%N then b :: utf8_decode r1
    else if (b <? 224)%N then
      match r1 with
      | c1 :: r2 => ((b mod 32) * 64 + c1 mod 64)%N :: utf8_decode r2
      | _ => []
      end
    else if (b <? 240)%N then
      match r1 with
      | c1 :: c2 :: r3 =>
          ((b mod 16) * 4096 + (c1 mod 64) * 64 + c2 mod 64)%N :: utf8_decode r3
      | _ => []
      end
    else
      match r1 with
      | c1 :: c2 :: c3 :: r4 =>
          ((b mod 8) * 262144 + (c1 mod 64) * 4096 + (c2 mod 64) * 64 + c3 mod 64)%N
            :: utf8_decode r4
      | _ => []
      end
  end.

Definition py (s : string) : pystr :=
  utf8_decode (List.map N_of_ascii (list_ascii_of_string s)).

(** The characters of a decimal numeral. *)
Fixpoint uint_chars (u : Decimal.uint) : pystr :=
  match u with
  | Decimal.Nil => []
  | Decimal.D0 u => 48%N :: uint_chars u
  | Decimal.D1 u => 49%N :: uint_chars u
  | Decimal.D2 u => 50%N :: uint_chars u
  | Decimal.D3 u => 51%N :: uint_chars u
  | Decimal.D4 u => 52%N :: uint_chars u
  | Decimal.D5 u => 53%N :: uint_chars u
  | Decimal.D6 u => 54%N :: uint_chars u
  | Decimal.D7 u => 55%N :: uint_chars u
  | Decimal.D8 u => 56%N :: uint_chars u
  | Decimal.D9 u => 57%N :: uint_chars u
  end.

(** [str(n)] and [f"{n}"] for an [int]. *)
Definition str_of_int (n : Z) : pystr :=
  match Z.to_int n with
  | Decimal.Pos u => uint_chars u
  | Decimal.Neg u => 45%N :: uint_chars u
  end.

(** [s.startswith(p)]. *)
Fixpoint startswith (s p : pystr) : bool :=
  match p, s with
  | [], _ => true
  | c :: p', d :: s' => if (c =? d)%N then startswith s' p' else false
  | _ :: _, [] => false
  end.

(** [str.isspace] on one character: the code points Python treats as
    whitespace (bidirectional type WS, B or S, or category Zs). *)
Definition isspace (c : N) : bool :=
  ((9 <=? c) && (c <=? 13) || (28 <=? c) && (c <=? 32)
   || (c =? 133) || (c =? 160) || (c =? 5760)
   || (8192 <=? c) && (c <=? 8202)
   || (c =? 8232) || (c =? 8233) || (c =? 8239) || (c =? 8287)
   || (c =? 12288))%N.

Fixpoint lstrip (s : pystr) : pystr :=
  match s with
  | c :: s' => if isspace c then lstrip s' else s
  | [] => []
  end.

Definition rstrip (s : pystr) : pystr := rev (lstrip (rev s)).

(** [s.strip()]. *)
Definition strip (s : pystr) : pystr := rstrip (lstrip s).

End PyStr.
Import PyStr.

(* ================================================================== *)
(** * Python floats *)
(* ================================================================== *)

Module PyFloat.

(** [int(x)] for a float: truncation toward zero. *)
Definition int_of_float (x : Q) : Z :=
  if Qle_bool 0 x then Qfloor x else Qceiling x.

(** [round(x, 1)]: the nearest multiple of one tenth, ties to the even
    one.  (CPython rounds the binary value; on rationals the tie rule is
    the only choice to make.) *)
Definition round1 (x : Q) : Q :=
  let y := (x * 10)%Q in
  let n := Qfloor y in
  let r := (y - inject_Z n)%Q in
  let n' :=
    match Qcompare r (1 # 2) with
    | Lt => n
    | Gt => n + 1
    | Eq => if Z.even n then n else n + 1
    end in
  (n' # 10)%Q.

End PyFloat.
Import PyFloat.

(* ================================================================== *)
(** * Exceptions *)
(* ================================================================== *)

Module Outcome.

(** How a call ends: with a value, or with an exception whose [str] is
    [e]. *)
Inductive res (A : Type) :=
| Ret (a : A)
| Raise (e : pystr).
Arguments Ret {A} a.
Arguments Raise {A} e.

End Outcome.
Import Outcome.

(* ================================================================== *)
(** * progress.py *)
(* ================================================================== *)

Module Progress.

Record StageInfo := { order : Z; label : pystr; progress : Z }.

Definition STAGES : gmap pystr StageInfo :=
  list_to_map
    [ (py "idle",       {| order := 0; label := py "⏸  空闲待机";       progress := 0 |});
      (py "waiting",    {| order := 1; label := py "🚀 准备开始";       progress := 5 |});
      (py "extract",    {| order := 2; label := py "🎵 提取音频 (1/4)"; progress := 15 |});
      (py "detect",     {| order := 3; label := py "🌐 检测语言 (2/4)"; progress := 25 |});
      (py "transcribe", {| order := 4; label := py "📝 转录中 (3/4)";   progress := 40 |});
      (py "save",       {| order := 5; label := py "💾 保存文件 (4/4)"; progress := 90 |});
      (py "done",       {| order := 6; label := py "✅ 转录完成";       progress := 100 |});
      (py "failed",     {| order := 6; label := py "❌ 转录失败";       progress := 100 |}) ].

(** [STAGES[key]] for a key of the table. *)
Definition STAGES_item (key : pystr) : StageInfo :=
  default {| order := 0; label := []; progress := 0 |} (STAGES !! key).

(** [STAGES.get(stage, STAGES["idle"])]. *)
Definition stage_info (stage : pystr) : StageInfo :=
  default (STAGES_item (py "idle")) (STAGES !! stage).

(** One reading of the wall clock: [time.time()] and the two renderings
    of [datetime.now()] the module uses. *)
Record Clock := {
  time : Q;
  strftime_HMS : pystr;        (* "%H:%M:%S" *)
  strftime_full : pystr        (* "%Y-%m-%d %H:%M:%S" *)
}.

Record QueueItem := {
  q_filename : pystr;
  q_filesize_mb : Q;
  q_queued_at : pystr
}.

(** An element of [_history]; [h_lang] is present in the entries of
    successes, [h_error] in those of failures. *)
Record HistoryEntry := {
  h_time : pystr;
  h_file : pystr;
  h_result : pystr;
  h_lang : option pystr;
  h_error : option pystr;
  h_elapsed : pystr
}.

Record ProgressManager := {
  _start_time : option Q;
  _filename : pystr;
  _filesize_mb : Q;
  _duration_sec : Q;
  _current_stage : pystr;
  _detail : pystr;
  _transcribe_percent : Z;
  _error : pystr;
  _history : list HistoryEntry;
  _total_completed : Z;
  _total_failed : Z;
  _queue : list QueueItem
}.

(** The document written to [status.json]. *)
Record Status := {
  s_timestamp : pystr;
  s_state : pystr;
  s_state_label : pystr;
  s_progress : Z;
  s_filename : pystr;
  s_filesize_mb : Q;
  s_duration_sec : Q;
  s_elapsed : pystr;
  s_elapsed_sec : Q;
  s_detail : pystr;
  s_transcribe_percent : Z;
  s_error : pystr;
  s_total_completed : Z;
  s_total_failed : Z;
  s_queue : list QueueItem;
  s_queue_position : Z;
  s_history : list HistoryEntry
}.

(** The singleton [progress] together with the file it writes:
    [status_writes] lists every document handed to
    [STATUS_FILE.write_text], oldest first. *)
Record PState := {
  pm : ProgressManager;
  status_writes : list Status
}.

Definition __init__fields : ProgressManager :=
  {| _start_time := None; _filename := []; _filesize_mb := 0; _duration_sec := 0;
     _current_stage := py "idle"; _detail := []; _transcribe_percent := 0;
     _error := []; _history := []; _total_completed := 0; _total_failed := 0;
     _queue := [] |}.

Definition _elapsed (now : Clock) (self : ProgressManager) : Q :=
  match _start_time self with
  | None => 0
  | Some t0 => (time now - t0)%Q
  end.

Definition _elapsed_str (now : Clock) (self : ProgressManager) : pystr :=
  let s := int_of_float (_elapsed now self) in
  if s <? 60 then str_of_int s ++ py "s"
  else
    let m := s / 60 in
    let s := s mod 60 in
    str_of_int m ++ py "m" ++ str_of_int s ++ py "s".

(** [int(self._transcribe_percent * 0.5)]: the product is a float, exact
    below 2^53, and [int] truncates toward zero.  Above that the float is
    a rounding of the sub-percent, and the result is the 90 of the cap
    either way.  For a sub-percent beyond the range of floats, 2^1024 or
    more, the product raises [OverflowError], which this definition does
    not show; no caller passes one. *)
Definition _compute_progress (self : ProgressManager) : Z :=
  let stage_info := stage_info (_current_stage self) in
  let base := progress stage_info in
  if bool_decide (_current_stage self = py "transcribe")
     && (0 <? _transcribe_percent self) then
    let extra := Z.quot (_transcribe_percent self) 2 in
    Z.min (base + extra) 90
  else base.

(** [l[-5:]]. *)
Definition last5 {A} (l : list A) : list A := drop (length l - 5)%nat l.

Definition status_doc (now : Clock) (self : ProgressManager) : Status :=
  let stage_info := stage_info (_current_stage self) in
  {| s_timestamp := strftime_full now;
     s_state := _current_stage self;
     s_state_label := label stage_info;
     s_progress := _compute_progress self;
     s_filename := _filename self;
     s_filesize_mb := round1 (_filesize_mb self);
     s_duration_sec := round1 (_duration_sec self);
     s_elapsed := _elapsed_str now self;
     s_elapsed_sec := round1 (_elapsed now self);
     s_detail := _detail self;
     s_transcribe_percent := _transcribe_percent self;
     s_error := _error self;
     s_total_completed := _total_completed self;
     s_total_failed := _total_failed self;
     s_queue := _queue self;
     s_queue_position := 0;
     s_history := last5 (_history self) |}.

Definition _write_status (now : Clock) (st : PState) : PState :=
  {| pm := pm st; status_writes := status_writes st ++ [status_doc now (pm st)] |}.

(** Assignment to the attributes of [self]. *)
Definition assign (f : ProgressManager -> ProgressManager) (st : PState) : PState :=
  {| pm := f (pm st); status_writes := status_writes st |}.

Definition __init__ (now : Clock) (writes : list Status) : PState :=
  _write_status now {| pm := __init__fields; status_writes := writes |}.

Definition start (now : Clock) (filename : pystr) (filesize_mb : Q) (duration_sec : Q)
    (st : PState) : PState :=
  _write_status now (assign (fun self =>
    {| _start_time := Some (time now);
       _filename := filename;
       _filesize_mb := filesize_mb;
       _duration_sec := duration_sec;
       _current_stage := py "waiting";
       _detail := [];
       _transcribe_percent := 0;
       _error := [];
       _history := _history self;
       _total_completed := _total_completed self;
       _total_failed := _total_failed self;
       _queue := _queue self |}) st).

Definition update (now : Clock) (stage : pystr) (detail : pystr)
    (transcribe_percent : Z) (duration_sec : Q) (st : PState) : PState :=
  _write_status now (assign (fun self =>
    {| _start_time := _start_time self;
       _filename := _filename self;
       _filesize_mb := _filesize_mb self;
       _duration_sec := if Qlt_le_dec 0 duration_sec then duration_sec else _duration_sec self;
       _current_stage := stage;
       _detail := match detail with [] => _detail self | _ => detail end;
       _transcribe_percent :=
         if 0 <? transcribe_percent then transcribe_percent else _transcribe_percent self;
       _error := _error self;
       _history := _history self;
       _total_completed := _total_completed self;
       _total_failed := _total_failed self;
       _queue := _queue self |}) st).

Definition update_transcribe_progress (now : Clock) (percent : Z) (detail : pystr)
    (st : PState) : PState :=
  _write_status now (assign (fun self =>
    {| _start_time := _start_time self;
       _filename := _filename self;
       _filesize_mb := _filesize_mb self;
       _duration_sec := _duration_sec self;
       _current_stage := _current_stage self;
       _detail := match detail with [] => _detail self | _ => detail end;
       _transcribe_percent := Z.min percent 100;
       _error := _error self;
       _history := _history self;
       _total_completed := _total_completed self;
       _total_failed := _total_failed self;
       _queue := _queue self |}) st).

Definition finish (now : Clock) (success : bool) (lang : pystr) (segments speakers : Z)
    (output_file : pystr) (st : PState) : PState :=
  let elapsed := _elapsed_str now (pm st) in
  _write_status now (assign (fun self =>
    if success then
      {| _start_time := _start_time self;
         _filename := _filename self;
         _filesize_mb := _filesize_mb self;
         _duration_sec := _duration_sec self;
         _current_stage := py "done";
         _detail := py "语言: " ++ lang ++ py " | 片段: " ++ str_of_int segments
                      ++ py " | 说话人: " ++ str_of_int speakers;
         _transcribe_percent := 100;
         _error := _error self;
         _history := _history self ++
           [ {| h_time := strftime_HMS now; h_file := _filename self;
                h_result := py "✅"; h_lang := Some lang; h_error := None;
                h_elapsed := elapsed |} ];
         _total_completed := _total_completed self + 1;
         _total_failed := _total_failed self;
         _queue := _queue self |}
    else
      {| _start_time := _start_time self;
         _filename := _filename self;
         _filesize_mb := _filesize_mb self;
         _duration_sec := _duration_sec self;
         _current_stage := py "failed";
         _detail := _detail self;
         _transcribe_percent := _transcribe_percent self;
         _error := _error self;
         _history := _history self ++
           [ {| h_time := strftime_HMS now; h_file := _filename self;
                h_result := py "❌"; h_lang := None;
                h_error := Some (take 50 (_error self));
                h_elapsed := elapsed |} ];
         _total_completed := _total_completed self;
         _total_failed := _total_failed self + 1;
         _queue := _queue self |}) st).

Definition set_error (now : Clock) (error : pystr) (st : PState) : PState :=
  _write_status now (assign (fun self =>
    {| _start_time := _start_time self;
       _filename := _filename self;
       _filesize_mb := _filesize_mb self;
       _duration_sec := _duration_sec self;
       _current_stage := _current_stage self;
       _detail := _detail self;
       _transcribe_percent := _transcribe_percent self;
       _error := error;
       _history := _history self;
       _total_completed := _total_completed self;
       _total_failed := _total_failed self;
       _queue := _queue self |}) st).

Definition reset_to_idle (now : Clock) (st : PState) : PState :=
  _write_status now (assign (fun self =>
    {| _start_time := None;
       _filename := [];
       _filesize_mb := 0;
       _duration_sec := 0;
       _current_stage := py "idle";
       _detail := [];
       _transcribe_percent := 0;
       _error := [];
       _history := _history self;
       _total_completed := _total_completed self;
       _total_failed := _total_failed self;
       _queue := _queue self |}) st).

Definition with_queue (q : list QueueItem) (self : ProgressManager) : ProgressManager :=
  {| _start_time := _start_time self;
     _filename := _filename self;
     _filesize_mb := _filesize_mb self;
     _duration_sec := _duration_sec self;
     _current_stage := _current_stage self;
     _detail := _detail self;
     _transcribe_percent := _transcribe_percent self;
     _error := _error self;
     _history := _history self;
     _total_completed := _total_completed self;
     _total_failed := _total_failed self;
     _queue := q |}.

Definition add_to_queue (now : Clock) (filename : pystr) (filesize_mb : Q)
    (st : PState) : PState :=
  _write_status now (assign (fun self =>
    with_queue (_queue self ++
      [ {| q_filename := filename;
           q_filesize_mb := round1 filesize_mb;
           q_queued_at := strftime_HMS now |} ]) self) st).

Definition remove_from_queue (now : Clock) (filename : pystr) (st : PState) : PState :=
  _write_status now (assign (fun self =>
    with_queue (filter (fun item => q_filename item <> filename) (_queue self)) self) st).

End Progress.

(* ================================================================== *)
(** * config.py *)
(* ================================================================== *)

Module Config.

Definition FILE_STABLE_CHECK_INTERVAL : Z := 2.
Definition FILE_STABLE_MAX_WAIT : Z := 300.

End Config.

(* ================================================================== *)
(** * watcher.py *)
(* ================================================================== *)

Module Watcher.
Import Config.

(** What one turn of the loop of [_wait_for_stable] sees of the file.
    [path.exists()] is outside the [try]: it answers false for a path that
    is not there and raises the [OSError] of its own [stat] when that is of
    another kind (a directory that may not be searched, say).  Then
    [path.stat()] raises [OSError], which is caught, or gives the size. *)
Inductive Poll :=
| ExistsRaises (e : pystr)
| Missing
| StatError
| Size (st_size : Z).

(** The loop of [_wait_for_stable], started at its [k]-th turn.  [polls]
    gives what each turn sees.  The result is the returned boolean, or the
    exception of [path.exists()], and the value of [waited] at that point;
    [None] when [fuel] turns did not reach the end. *)
Fixpoint wait_loop (fuel : nat) (polls : nat -> Poll) (k : nat)
    (waited prev_size : Z) : option (res bool * Z) :=
  match fuel with
  | O => None
  | S fuel' =>
    if waited <? FILE_STABLE_MAX_WAIT then
      match polls k with
      | ExistsRaises e => Some (Raise e, waited)
      | Missing => Some (Ret false, waited)
      | StatError => Some (Ret false, waited)
      | Size curr_size =>
        if (0 <? curr_size) && (curr_size =? prev_size) then Some (Ret true, waited)
        else wait_loop fuel' polls (S k) (waited + FILE_STABLE_CHECK_INTERVAL) curr_size
      end
    else Some (Ret false, waited)
  end.

(** 151 turns are enough: the 151st finds [waited = 300]. *)
Definition _wait_for_stable_run (polls : nat -> Poll) : option (res bool * Z) :=
  wait_loop 151 polls 0 0 (-1).

Definition _wait_for_stable (polls : nat -> Poll) : option (res bool) :=
  fst <$> _wait_for_stable_run polls.

(** The turn [k] gets a size. *)
Definition sized (polls : nat -> Poll) (k : nat) : Prop :=
  exists s, polls k = Size s.

(** The turn [k] gets a size that is positive and is the size the turn
    before it got: two consecutive samples are equal and above 0. *)
Definition stable_at (polls : nat -> Poll) (k : nat) : Prop :=
  exists k' s, k = S k' /\ 0 < s /\ polls k' = Size s /\ polls k = Size s.

(** The value of [prev_size] at the start of turn [k]. *)
Definition prev_size_at (polls : nat -> Poll) (k : nat) : Z :=
  match k with
  | O => -1
  | S k' => match polls k' with Size s => s | _ => -1 end
  end.

End Watcher.

(* ================================================================== *)
(** * file_manager.py *)
(* ================================================================== *)

Module FileManager.

(** A [pathlib.Path] of a POSIX system: [str(path.parent)] and
    [path.name]. *)
Record Path := { parent : pystr; name : pystr }.

(** [str(path)].  A path without a final component (a root, or [.]) is
    its own parent.  The parent of a path of one component is [.] when the
    path is relative, and then the text is the name alone; it is the root,
    [/] or [//], when the path is absolute, and then no separator is put
    after it.  In every other case the text is the parent, a separator and
    the name. *)
Definition str_of_path (p : Path) : pystr :=
  match name p with
  | [] => parent p
  | _ :: _ =>
    if bool_decide (parent p = py ".") then name p
    else if bool_decide (parent p = py "/") || bool_decide (parent p = py "//")
    then parent p ++ name p
    else parent p ++ py "/" ++ name p
  end.

(** [name.rfind('.')]: the index of the last dot. *)
Fixpoint rfind_dot (name : pystr) : option nat :=
  match name with
  | [] => None
  | c :: rest =>
    match rfind_dot rest with
    | Some i => Some (S i)
    | None => if (c =? 46)%N then Some O else None
    end
  end.

(** [PurePath.stem] and [PurePath.suffix] of a final component: the name
    is cut at its last dot when that dot is neither its first nor its
    last character. *)
Definition stem (name : pystr) : pystr :=
  match rfind_dot name with
  | Some i => if (0 <? i)%nat && (i <? length name - 1)%nat then take i name else name
  | None => name
  end.

Definition suffix (name : pystr) : pystr :=
  match rfind_dot name with
  | Some i => if (0 <? i)%nat && (i <? length name - 1)%nat then drop i name else []
  | None => []
  end.

(** ** The record of processed paths

    [logs/processed.json] holds a JSON array of paths; [load_processed]
    reads it as a set (the empty set when the file is absent or
    unreadable), [save_processed] writes the set back.  The file is given
    by the set [load_processed] reads from it. *)
Definition load_processed (PROCESSED_FILE : gset pystr) : gset pystr := PROCESSED_FILE.

(** How the writing of [save_processed] ends.  Nothing there is caught.
    [write_text] opens the file, which empties it, then writes: when an
    exception is raised before the file is open ([mkdir], [json.dumps],
    [open]) the file is as it was ([opened] false); when it is raised
    after, the file holds no text or the beginning of one, which
    [load_processed] reads as the empty set ([opened] true). *)
Inductive SaveOutcome :=
| Saved
| SaveRaises (e : pystr) (opened : bool).

(** The result is how the call ends and the file after it. *)
Definition save_processed (outcome : SaveOutcome) (processed : gset pystr)
    (PROCESSED_FILE : gset pystr) : res unit * gset pystr :=
  match outcome with
  | Saved => (Ret tt, processed)
  | SaveRaises e opened => (Raise e, if opened then ∅ else PROCESSED_FILE)
  end.

Definition mark_processed (outcome : SaveOutcome) (filepath : pystr)
    (PROCESSED_FILE : gset pystr) : res unit * gset pystr :=
  let processed := load_processed PROCESSED_FILE in
  let processed := {[ filepath ]} ∪ processed in
  save_processed outcome processed PROCESSED_FILE.

Definition is_processed (filepath : pystr) (PROCESSED_FILE : gset pystr) : bool :=
  bool_decide (filepath ∈ load_processed PROCESSED_FILE).

(** ** [int(s)] *)

(** The decimal value of an ASCII digit. *)
Definition ascii_digit (c : N) : option Z :=
  if ((48 <=? c) && (c <=? 57))%N then Some (Z.of_N c - 48) else None.

Section Int.

(** The decimal value of a character of category Nd beyond ASCII, as the
    Unicode database of the interpreter gives it. *)
Variable unicode_decimal : N -> option Z.

(** The first pass of [int]: ASCII is kept, other whitespace becomes a
    space, other decimal digits become ASCII digits; anything else is a
    [ValueError]. *)
Fixpoint to_ascii (s : pystr) : option pystr :=
  match s with
  | [] => Some []
  | c :: s' =>
    let oc :=
      if (c <? 127)%N then Some c
      else if isspace c then Some 32%N
      else match unicode_decimal c with
           | Some d => Some (Z.to_N (48 + d))
           | None => None
           end in
    match oc, to_ascii s' with
    | Some c', Some r => Some (c' :: r)
    | _, _ => None
    end
  end.

(** Whitespace for the second pass: tab to carriage return, and space. *)
Definition ascii_space (c : N) : bool := ((9 <=? c) && (c <=? 13) || (c =? 32))%N.

Fixpoint skip_spaces (s : pystr) : pystr :=
  match s with
  | c :: s' => if ascii_space c then skip_spaces s' else s
  | [] => []
  end.

(** Digits with single underscores between them, then optional
    whitespace up to the end.  [acc] is the value read so far;
    [after_digit] tells whether the previous character was a digit. *)
Fixpoint digits (s : pystr) (acc : Z) (after_digit : bool) : option Z :=
  match s with
  | [] => if after_digit then Some acc else None
  | c :: s' =>
    match ascii_digit c with
    | Some d => digits s' (10 * acc + d) true
    | None =>
      if (c =? 95)%N then
        if after_digit then
          match s' with
          | c' :: _ =>
            match ascii_digit c' with
            | Some _ => digits s' acc false
            | None => None
            end
          | [] => None
          end
        else None
      else if after_digit then
        match skip_spaces s with
        | [] => Some acc
        | _ => None
        end
      else None
    end
  end.

(** [int(s)] for a string, [None] for [ValueError]. *)
Definition py_int (s : pystr) : option Z :=
  match to_ascii s with
  | None => None
  | Some a =>
    match skip_spaces a with
    | c :: rest =>
      if (c =? 45)%N then Z.opp <$> digits rest 0 false
      else if (c =? 43)%N then digits rest 0 false
      else digits (c :: rest) 0 false
    | [] => None
    end
  end.

(** ** Numbering and naming *)

Record Date := { year : Z; month : Z; day : Z }.

(** [f"{date.year}_{date.month}_{date.day}_{lang}_"]. *)
Definition name_prefix (date : Date) (lang : pystr) : pystr :=
  str_of_int (year date) ++ py "_" ++ str_of_int (month date) ++ py "_"
    ++ str_of_int (day date) ++ py "_" ++ lang ++ py "_".

(** The statements that drop a leading [fail_]. *)
Definition strip_fail (name : pystr) : pystr :=
  if startswith name (py "fail_") then drop 5 name else name.

(** One turn of the loop over [VIDEO_DIR.iterdir()]. *)
Definition scan_entry (prefix : pystr) (existing : list Z) (f : pystr) : list Z :=
  let name := stem f in
  let name := strip_fail name in
  if startswith name prefix then
    match py_int (drop (length prefix) name) with
    | Some idx => existing ++ [idx]
    | None => existing
    end
  else existing.

(** The entry [f] of the directory carries the index [idx]: its stem,
    without a leading [fail_], is the prefix followed by a text that
    [int] reads as [idx]. *)
Definition indexed (prefix : pystr) (f : pystr) (idx : Z) : Prop :=
  exists rest, strip_fail (stem f) = prefix ++ rest /\ py_int rest = Some idx.

(** [max(l, default=d)]. *)
Definition max_default (l : list Z) (d : Z) : Z :=
  match l with
  | [] => d
  | x :: l' => fold_left Z.max l' x
  end.

(** [VIDEO_DIR] is the list of the names of its entries. *)
Definition get_next_index (date : Date) (lang : pystr) (VIDEO_DIR : list pystr) : Z :=
  let prefix := name_prefix date lang in
  let existing := fold_left (scan_entry prefix) VIDEO_DIR [] in
  max_default existing 0 + 1.

(** [date] is the given date, or today's. *)
Definition generate_standard_name (lang : pystr) (date : Date) (VIDEO_DIR : list pystr)
    : pystr :=
  let idx := get_next_index date lang VIDEO_DIR in
  str_of_int (year date) ++ py "_" ++ str_of_int (month date) ++ py "_"
    ++ str_of_int (day date) ++ py "_" ++ lang ++ py "_" ++ str_of_int idx.

End Int.

(** ** Moving the source *)

(** The name tried at the suffix [counter]. *)
Definition candidate (stemname ext : pystr) (counter : Z) : pystr :=
  stemname ++ py "_" ++ str_of_int counter ++ ext.

(** [(VIDEO_DIR / dest).exists()].  [iterdir] lists every entry of the
    directory; [exists] follows symbolic links, so it is false of an entry
    that is a link to nothing.  [dangling] holds the names of such
    entries. *)
Definition exists_ (VIDEO_DIR : list pystr) (dangling : gset pystr) (dest : pystr) : bool :=
  bool_decide (dest ∈ VIDEO_DIR) && negb (bool_decide (dest ∈ dangling)).

(** The loop [while dest.exists()] of [move_video]: [dest] is the current
    candidate, [counter] the next suffix to try.  Every turn that goes on
    has met a different entry of the directory, so one more turn than the
    directory has entries is never needed. *)
Fixpoint free_dest (fuel : nat) (VIDEO_DIR : list pystr) (dangling : gset pystr)
    (stemname ext : pystr) (dest : pystr) (counter : Z) : pystr :=
  match fuel with
  | O => dest
  | S fuel' =>
    if exists_ VIDEO_DIR dangling dest then
      free_dest fuel' VIDEO_DIR dangling stemname ext (candidate stemname ext counter)
        (counter + 1)
    else dest
  end.

(** The name under which [move_video] puts [src] in [VIDEO_DIR]. *)
Definition move_video_dest (src : Path) (standard_name : pystr) (success : bool)
    (VIDEO_DIR : list pystr) (dangling : gset pystr) : pystr :=
  let ext := suffix (name src) in
  let stemname := if success then standard_name else py "fail_" ++ standard_name in
  free_dest (S (length VIDEO_DIR)) VIDEO_DIR dangling stemname ext (stemname ++ ext) 1.

(** How [shutil.move(src, dest)] ends.  It renames, and when that is not
    possible it copies the file and then removes the source; so when it
    raises, the destination is not there, or it is, whole or in part
    ([dest_left]). *)
Inductive MoveOutcome :=
| Moved
| MoveRaises (e : pystr) (dest_left : bool).

(** The names of the directory once there is a file at [dest]: a link to
    nothing of that name is replaced, or gets what it points to. *)
Definition put (dest : pystr) (VIDEO_DIR : list pystr) : list pystr :=
  if bool_decide (dest ∈ VIDEO_DIR) then VIDEO_DIR else VIDEO_DIR ++ [dest].

End FileManager.

(* ================================================================== *)
(** * notifier.py *)
(* ================================================================== *)

Module Notifier.

(** How [subprocess.run(["osascript", ...], timeout=...)] ends: with the
    text of the standard output, with [TimeoutExpired], or with another
    exception. *)
Inductive Subprocess :=
| Completed (stdout : pystr)
| TimeoutExpired
| OtherError.

Definition _run_osascript (run : Subprocess) : pystr :=
  match run with
  | Completed stdout => strip stdout
  | TimeoutExpired => []
  | OtherError => []
  end.

(** [run] is the outcome of the dialog script, which shows [filename] and
    [filesize_mb]. *)
Definition ask_confirm (filename : pystr) (filesize_mb : Q) (run : Subprocess) : bool :=
  let result := _run_osascript run in
  if bool_decide (result = py "转录") then true else false.

End Notifier.

(* ================================================================== *)
(** * transcriber.py *)
(* ================================================================== *)

Module Transcriber.

(** The values the recogniser's result is made of.  [PObject] stands for
    any object of another type (a float, an array); of such an object only
    its truth value is known. *)
#[local] Unset Elimination Schemes.
Inductive pyval :=
| PNone
| PBool (b : bool)
| PInt (n : Z)
| PStr (s : pystr)
| PList (l : list pyval)
| PTuple (l : list pyval)
| PDict (d : list (pystr * pyval))
| PObject (truthy : bool) (id : N).
#[local] Set Elimination Schemes.

(** A segment: the dict with the keys [start], [end], [text], [speaker]. *)
Record Segment := {
  seg_start : pyval;
  seg_end : pyval;
  seg_text : pyval;
  seg_speaker : pyval
}.

(** [bool(v)]. *)
Definition truth (v : pyval) : bool :=
  match v with
  | PNone => false
  | PBool b => b
  | PInt n => negb (n =? 0)
  | PStr s => negb (bool_decide (s = []))
  | PList l | PTuple l => negb (bool_decide (l = []))
  | PDict d => negb (bool_decide (d = []))
  | PObject t _ => t
  end.

(** [d.get(key, default)]. *)
Fixpoint dict_get (d : list (pystr * pyval)) (key : pystr) (default : pyval) : pyval :=
  match d with
  | [] => default
  | (k, v) :: d' => if bool_decide (k = key) then v else dict_get d' key default
  end.

(** The elements a [for] loop draws from [v]; [None] when [v] is not
    iterable or is an object the model knows nothing about. *)
Definition iterate (v : pyval) : option (list pyval) :=
  match v with
  | PList l | PTuple l => Some l
  | PStr s => Some (List.map (fun c => PStr [c]) s)
  | PDict d => Some (List.map (fun kv => PStr (fst kv)) d)
  | _ => None
  end.

(** [for x in l: body], where [body] may raise. *)
Fixpoint for_each {A S : Type} (body : S -> A -> option S) (l : list A) (s : S)
    : option S :=
  match l with
  | [] => Some s
  | x :: l' =>
    match body s x with
    | Some s' => for_each body l' s'
    | None => None
    end
  end.

Section Parse.

(** [str(v)] for the values whose rendering is not modelled (containers
    and other objects). *)
Variable repr : pyval -> pystr.

(** [str(v)], which is also what an f-string puts for [{v}]. *)
Definition py_str (v : pyval) : pystr :=
  match v with
  | PStr s => s
  | PInt n => str_of_int n
  | PBool true => py "True"
  | PBool false => py "False"
  | PNone => py "None"
  | _ => repr v
  end.

(** The body of [for sent in sentence_info]. *)
Definition parse_sentence (segments : list Segment) (sent : pyval)
    : option (list Segment) :=
  match sent with
  | PDict sent =>
    let spk := dict_get sent (py "spk") (PStr []) in
    let spk :=
      match spk with
      | PInt _ | PBool _ => PStr (py "spk" ++ py_str spk)    (* isinstance(_, int) *)
      | _ => if truth spk then PStr (py_str spk) else spk
      end in
    Some (segments ++
      [ {| seg_start := dict_get sent (py "start") (PInt 0);
           seg_end := dict_get sent (py "end") (PInt 0);
           seg_text := dict_get sent (py "text") (PStr []);
           seg_speaker := spk |} ])
  | _ => None                                                (* no method [get] *)
  end.

(** The body of [for i, ts in enumerate(timestamp)]. *)
Definition parse_span (text : pyval) (segments : list Segment) (its : nat * pyval)
    : option (list Segment) :=
  let '(i, ts) := its in
  match ts with
  | PList (ts0 :: ts1 :: _) | PTuple (ts0 :: ts1 :: _) =>
    Some (segments ++
      [ {| seg_start := ts0; seg_end := ts1;
           seg_text := if (i =? 0)%nat then text else PStr [];
           seg_speaker := PStr [] |} ])
  | _ => Some segments
  end.

(** [enumerate(l)]. *)
Definition enumerate {A} (l : list A) : list (nat * A) := imap (fun i x => (i, x)) l.

(** The body of [for item in result]. *)
Definition parse_item (segments : list Segment) (item : pyval) : option (list Segment) :=
  match item with
  | PDict item =>
    let text := dict_get item (py "text") (PStr []) in
    let sentence_info := dict_get item (py "sentence_info") (PList []) in
    if truth sentence_info then
      match iterate sentence_info with
      | Some sents => for_each parse_sentence sents segments
      | None => None
      end
    else if truth text then
      let timestamp := dict_get item (py "timestamp") (PList []) in
      if truth timestamp then
        (* [len(timestamp) > 0] holds of every true value that has a length *)
        match iterate timestamp with
        | Some spans => for_each (parse_span text) (enumerate spans) segments
        | None => None
        end
      else
        Some (segments ++
          [ {| seg_start := PInt 0; seg_end := PInt 0; seg_text := text;
               seg_speaker := PStr [] |} ])
    else Some segments
  | _ =>
    Some (segments ++
      [ {| seg_start := PInt 0; seg_end := PInt 0; seg_text := PStr (py_str item);
           seg_speaker := PStr [] |} ])
  end.

(** [None] stands for an exception (or for a result the model does not
    follow). *)
Definition _parse_funasr_result (result : pyval) : option (list Segment) :=
  let segments := [] in
  if negb (truth result) then Some segments
  else
    match iterate result with
    | Some items => for_each parse_item items segments
    | None => None
    end.

End Parse.

(** ** The three shapes of the specification

    The result as a tagged union, the uniform segment it is resolved to,
    and the way the recogniser writes each shape down. *)

Inductive SpeakerId := SpkInt (n : Z) | SpkName (s : pystr).

(** The per-sentence entry: every key may be missing. *)
Record Sentence := {
  sent_start : option Z;
  sent_end : option Z;
  sent_text : option pystr;
  sent_spk : option SpeakerId
}.

Inductive Shape :=
| RichSentence (text : option pystr) (sentence_info : list Sentence)
| TimedFlat (text : pystr) (timestamp : list (Z * Z))
| BareText (text : pystr).

Definition well_shaped (sh : Shape) : Prop :=
  match sh with
  | RichSentence _ sentence_info => sentence_info <> []
  | TimedFlat text timestamp => text <> [] /\ timestamp <> []
  | BareText text => text <> []
  end.

Record UniformSegment := {
  startMs : Z;
  endMs : Z;
  words : pystr;
  speakerId : pystr
}.

Definition normalize_sentence (s : Sentence) : UniformSegment :=
  {| startMs := default 0 (sent_start s);
     endMs := default 0 (sent_end s);
     words := default [] (sent_text s);
     speakerId :=
       match sent_spk s with
       | None => []
       | Some (SpkInt n) => py "spk" ++ str_of_int n
       | Some (SpkName s) => s
       end |}.

Definition normalize (sh : Shape) : list UniformSegment :=
  match sh with
  | RichSentence _ sentence_info => List.map normalize_sentence sentence_info
  | TimedFlat text timestamp =>
    match timestamp with
    | [] => []
    | (a, b) :: rest =>
      {| startMs := a; endMs := b; words := text; speakerId := [] |}
        :: List.map (fun ab => {| startMs := fst ab; endMs := snd ab; words := [];
                                  speakerId := [] |}) rest
    end
  | BareText text => [ {| startMs := 0; endMs := 0; words := text; speakerId := [] |} ]
  end.

Definition optional_key (key : pystr) (v : option pyval) : list (pystr * pyval) :=
  match v with
  | Some v => [(key, v)]
  | None => []
  end.

Definition encode_sentence (s : Sentence) : pyval :=
  PDict (optional_key (py "text") (PStr <$> sent_text s)
         ++ optional_key (py "start") (PInt <$> sent_start s)
         ++ optional_key (py "end") (PInt <$> sent_end s)
         ++ optional_key (py "spk")
              ((fun id => match id with SpkInt n => PInt n | SpkName s => PStr s end)
                 <$> sent_spk s)).

Definition encode_span (ab : Z * Z) : pyval := PList [PInt (fst ab); PInt (snd ab)].

Definition encode (sh : Shape) : pyval :=
  match sh with
  | RichSentence text sentence_info =>
    PDict (optional_key (py "text") (PStr <$> text)
           ++ [(py "sentence_info", PList (List.map encode_sentence sentence_info))])
  | TimedFlat text timestamp =>
    PDict [(py "text", PStr text);
           (py "timestamp", PList (List.map encode_span timestamp))]
  | BareText text => PDict [(py "text", PStr text)]
  end.

(** A uniform segment as the dict the code builds. *)
Definition segment_of (u : UniformSegment) : Segment :=
  {| seg_start := PInt (startMs u); seg_end := PInt (endMs u); seg_text := PStr (words u);
     seg_speaker := PStr (speakerId u) |}.

End Transcriber.

(* ================================================================== *)
(** * main.py *)
(* ================================================================== *)

Module Main.
Import Progress FileManager Transcriber.

(** What the program does to the outside, apart from [status.json] and
    [processed.json]. *)
Inductive Event :=
| NotifyStart (filename : pystr) (filesize_mb : Q)
| NotifyStage (filename stage detail : pystr)
| ShowResultDialog (filename : pystr) (success : bool) (error : pystr)
| TranscriptSaved (standard_name lang : pystr) (segments : list Segment)
| VideoMoved (src : Path) (dest : pystr).

Record World := {
  w_progress : PState;              (* the singleton [progress] and status.json *)
  w_processed : gset pystr;         (* logs/processed.json *)
  w_video_dir : list pystr;         (* the names of the entries of VIDEO_DIR *)
  w_dangling : gset pystr;          (* those of them that are links to nothing *)
  w_q : list Path;                  (* [task_queue.q], oldest first *)
  w_events : list Event             (* oldest first *)
}.

Definition M (A : Type) : Type := World -> res A * World.

Definition ret {A} (a : A) : M A := fun w => (Ret a, w).

Definition bind {A B} (m : M A) (k : A -> M B) : M B :=
  fun w =>
    match m w with
    | (Ret a, w') => k a w'
    | (Raise e, w') => (Raise e, w')
    end.

(** The outcome of a call of a collaborator. *)
Definition call {A} (r : res A) : M A := fun w => (r, w).

(** [try: m], with the exception, if any, handed over as a value. *)
Definition attempt {A} (m : M A) : M (res A) :=
  fun w => let '(r, w') := m w in (Ret r, w').

Declare Scope m_scope.
Delimit Scope m_scope with m.
Notation "x <- m ;; k" := (bind m (fun x => k))
  (at level 100, m at next level, right associativity) : m_scope.
Notation "m ;; k" := (bind m (fun _ => k))
  (at level 100, right associativity) : m_scope.
Local Open Scope m_scope.

(** Assignments to the parts of the world. *)
Definition upd_progress (f : PState -> PState) (w : World) : World :=
  {| w_progress := f (w_progress w); w_processed := w_processed w;
     w_video_dir := w_video_dir w; w_dangling := w_dangling w; w_q := w_q w;
     w_events := w_events w |}.

Definition upd_processed (f : gset pystr -> gset pystr) (w : World) : World :=
  {| w_progress := w_progress w; w_processed := f (w_processed w);
     w_video_dir := w_video_dir w; w_dangling := w_dangling w; w_q := w_q w;
     w_events := w_events w |}.

Definition upd_video_dir (f : list pystr -> list pystr) (w : World) : World :=
  {| w_progress := w_progress w; w_processed := w_processed w;
     w_video_dir := f (w_video_dir w); w_dangling := w_dangling w; w_q := w_q w;
     w_events := w_events w |}.

Definition upd_dangling (f : gset pystr -> gset pystr) (w : World) : World :=
  {| w_progress := w_progress w; w_processed := w_processed w;
     w_video_dir := w_video_dir w; w_dangling := f (w_dangling w); w_q := w_q w;
     w_events := w_events w |}.

Definition upd_q (f : list Path -> list Path) (w : World) : World :=
  {| w_progress := w_progress w; w_processed := w_processed w;
     w_video_dir := w_video_dir w; w_dangling := w_dangling w; w_q := f (w_q w);
     w_events := w_events w |}.

Definition add_event (e : Event) (w : World) : World :=
  {| w_progress := w_progress w; w_processed := w_processed w;
     w_video_dir := w_video_dir w; w_dangling := w_dangling w; w_q := w_q w;
     w_events := w_events w ++ [e] |}.

(** A call of a method of [progress]. *)
Definition progress_ (f : PState -> PState) : M unit :=
  fun w => (Ret tt, upd_progress f w).

Definition emit (e : Event) : M unit :=
  fun w => (Ret tt, add_event e w).

Definition is_processed_ (filepath : pystr) : M bool :=
  fun w => (Ret (is_processed filepath (w_processed w)), w).

(** [mark_processed(filepath)], the writing ending as [outcome] says. *)
Definition mark_processed_ (outcome : SaveOutcome) (filepath : pystr) : M unit :=
  fun w =>
    let marked := mark_processed outcome filepath (w_processed w) in
    (marked.1, upd_processed (fun _ => marked.2) w).

(** One update made by [_run_transcribe_with_progress] while the
    recogniser runs: [t_curve] is [int(95 * (1 - (1 - raw_pct) ** 1.5))]
    and [t_detail] the text shown, both computed on floats from the time
    elapsed. *)
Record Tick := { t_clock : Clock; t_curve : Z; t_detail : pystr }.

(** What the outside answers during one run of [process_video]. *)
Record Run := {
  r_stat : res Q;               (* [video_path.stat().st_size / 1024 / 1024] *)
  r_clock : nat -> Clock;       (* the clock at the calls of [progress], in the
                                   order of the text of [process_video] *)
  r_mark : SaveOutcome;         (* the writing of [mark_processed] *)
  r_extract : res unit;         (* [extract_audio] *)
  r_duration : Q;               (* [_get_audio_duration] *)
  r_duration_min : pystr;       (* the duration rendered for display *)
  r_detect : res pystr;         (* [detect_language] *)
  r_load_model : res unit;      (* [_load_model("asr")] *)
  r_ticks : list Tick;
  r_generate : res pyval;       (* [asr_model.generate] *)
  r_repr : pyval -> pystr;      (* [str] of containers and other objects *)
  r_parse_error : pystr;        (* [str] of what [_parse_funasr_result] raises *)
  r_decimal : N -> option Z;    (* the decimal digits beyond ASCII *)
  r_today : Date;               (* [datetime.now()] in [generate_standard_name] *)
  r_save_md : res unit;         (* [save_transcript_md] *)
  r_move : MoveOutcome;         (* [shutil.move] in [move_video(..., success=True)] *)
  r_move_failed : MoveOutcome   (* [shutil.move] in [move_video(..., success=False)] *)
}.

(** [generate_standard_name(lang)] on the directory as it is. *)
Definition generate_standard_name_ (run : Run) (lang : pystr) : M pystr :=
  fun w =>
    (Ret (generate_standard_name (r_decimal run) lang (r_today run) (w_video_dir w)), w).

(** The directory once there is a file at [dest]. *)
Definition stored (dest : pystr) (w : World) : World :=
  upd_dangling (fun d => d ∖ {[ dest ]}) (upd_video_dir (put dest) w).

(** [move_video]: the destination is chosen on the directory as it is,
    then [shutil.move] runs. *)
Definition move_video_ (moved : MoveOutcome) (src : Path) (standard_name : pystr)
    (success : bool) : M pystr :=
  fun w =>
    let dest :=
      move_video_dest src standard_name success (w_video_dir w) (w_dangling w) in
    match moved with
    | Moved => (Ret dest, add_event (VideoMoved src dest) (stored dest w))
    | MoveRaises e dest_left => (Raise e, if dest_left then stored dest w else w)
    end.

(** [{"zh": "中文", "en": "English", "en_cn": "中英混合"}.get(lang, lang)]. *)
Definition lang_label (lang : pystr) : pystr :=
  if bool_decide (lang = py "zh") then py "中文"
  else if bool_decide (lang = py "en") then py "English"
  else if bool_decide (lang = py "en_cn") then py "中英混合"
  else lang.

(** [_run_transcribe_with_progress]: the updates made while waiting, then
    the result of the recogniser or its exception. *)
Definition _run_transcribe_with_progress (run : Run) : M pyval :=
  fold_right
    (fun tick rest =>
       let display_pct := t_curve tick in
       let display_pct := Z.max 1 (Z.min display_pct 95) in
       progress_ (update_transcribe_progress (t_clock tick) display_pct (t_detail tick)) ;;
       rest)
    (call (r_generate run))
    (r_ticks run).

(** The speakers counted at the end: the distinct non-empty values of the
    key [speaker] (strings, in what [_parse_funasr_result] returns). *)
Definition count_speakers (segments : list Segment) : Z :=
  let speakers : gset pystr :=
    list_to_set
      (omap (fun seg => match seg_speaker seg with
                        | PStr (c :: s) => Some (c :: s)
                        | _ => None
                        end) segments) in
  Z.max (Z.of_nat (size speakers)) 1.

(** The statements of the [try] block up to the choice of the standard
    name; what they leave for the rest. *)
Record Transcribed := {
  tr_lang : pystr;
  tr_segments : list Segment;
  tr_standard_name : pystr
}.

Definition try_until_name (run : Run) (video_path : Path) : M Transcribed :=
  let filename := name video_path in
  let duration_min := r_duration_min run in
  progress_ (update (r_clock run 2) (py "extract") filename 0 0) ;;
  emit (NotifyStage filename (py "1/4 提取音频中...") []) ;;
  call (r_extract run) ;;
  let duration := r_duration run in
  progress_ (update (r_clock run 3) (py "detect") (py "音频时长: " ++ duration_min) 0
               duration) ;;
  emit (NotifyStage filename (py "2/4 检测语言...") (py "音频时长: " ++ duration_min)) ;;
  lang <- call (r_detect run) ;;
  let detail := py "语言: " ++ lang_label lang ++ py " | 时长: " ++ duration_min in
  progress_ (update (r_clock run 4) (py "transcribe") detail 0 0) ;;
  emit (NotifyStage filename (py "3/4 转录中...") detail) ;;
  call (r_load_model run) ;;
  result <- _run_transcribe_with_progress run ;;
  segments <- call (match _parse_funasr_result (r_repr run) result with
                    | Some segments => Ret segments
                    | None => Raise (r_parse_error run)
                    end) ;;
  progress_ (update (r_clock run 5) (py "save") (py "正在保存 Markdown...") 0 0) ;;
  emit (NotifyStage filename (py "4/4 保存文件...") []) ;;
  standard_name <- generate_standard_name_ run lang ;;
  ret {| tr_lang := lang; tr_segments := segments; tr_standard_name := standard_name |}.

(** The rest of the [try] block. *)
Definition try_after_name (run : Run) (video_path : Path) (t : Transcribed) : M unit :=
  let standard_name := tr_standard_name t in
  let lang := tr_lang t in
  let segments := tr_segments t in
  call (r_save_md run) ;;
  emit (TranscriptSaved standard_name lang segments) ;;
  move_video_ (r_move run) video_path standard_name true ;;
  let speakers_count := count_speakers segments in
  progress_ (finish (r_clock run 6) true lang (Z.of_nat (length segments)) speakers_count
               (standard_name ++ py ".md")) ;;
  emit (ShowResultDialog standard_name true []) ;;
  progress_ (reset_to_idle (r_clock run 7)).

(** The [except] block; [standard_name] is the value of the variable when
    the exception was raised. *)
Definition except_ (run : Run) (video_path : Path) (standard_name : option pystr)
    (error_msg : pystr) : M unit :=
  let filename := name video_path in
  progress_ (set_error (r_clock run 8) error_msg) ;;
  progress_ (finish (r_clock run 9) false [] 0 0 []) ;;
  attempt (
    standard_name <- match standard_name with
                     | None => generate_standard_name_ run (py "unknown")
                     | Some n => ret n
                     end ;;
    move_video_ (r_move_failed run) video_path standard_name false) ;;
  emit (ShowResultDialog filename false error_msg) ;;
  progress_ (reset_to_idle (r_clock run 10)).

(** The statements of [process_video] from [progress.start] on: the
    start, the [try] block and its [except] block. *)
Definition process_video_started (run : Run) (video_path : Path) (filesize_mb : Q)
    : M unit :=
  progress_ (start (r_clock run 1) (name video_path) filesize_mb 0) ;;
  mark_processed_ (r_mark run) (str_of_path video_path) ;;
  emit (NotifyStart (name video_path) filesize_mb) ;;
  named <- attempt (try_until_name run video_path) ;;
  match named with
  | Raise e => except_ run video_path None e
  | Ret t =>
    rest <- attempt (try_after_name run video_path t) ;;
    match rest with
    | Raise e => except_ run video_path (Some (tr_standard_name t)) e
    | Ret _ => ret tt
    end
  end.

Definition process_video (run : Run) (video_path : Path) : M unit :=
  let filename := name video_path in
  filesize_mb <- call (r_stat run) ;;
  progress_ (remove_from_queue (r_clock run 0) filename) ;;
  processed <- is_processed_ (str_of_path video_path) ;;
  if processed : bool then ret tt
  else process_video_started run video_path filesize_mb.

(** [m] leaves the part [F] of the world as it finds it. *)
Definition keeps {X A : Type} (F : World -> X) (m : M A) : Prop :=
  forall w, F (m w).2 = F w.


(** ** The task queue *)

(** [TaskQueue.add_task]. *)
Definition add_task (stat : res Q) (now : Clock) (video_path : Path) : M unit :=
  let filename := name video_path in
  filesize_mb <- call stat ;;
  progress_ (add_to_queue now filename filesize_mb) ;;
  fun w => (Ret tt, upd_q (fun q => q ++ [video_path]) w).

(** One turn of the loop of [TaskQueue._worker] on a queue that is not
    empty: an exception of [process_video] is logged and dropped. *)
Definition worker_turn (run : Run) : M unit :=
  fun w =>
    match w_q w with
    | [] => (Ret tt, w)
    | video_path :: q' =>
      (attempt (process_video run video_path) ;; ret tt) (upd_q (fun _ => q') w)
    end.

(** [on_new_video]: [stat] is the outcome of its own [stat], [run] that
    of the confirmation dialog, [stat_task] that of the [stat] of
    [add_task], [saved] that of the writing of [mark_processed]. *)
Definition on_new_video (stat : res Q) (now : Clock) (run : Notifier.Subprocess)
    (stat_task : res Q) (saved : SaveOutcome) (video_path : Path) : M unit :=
  let filename := name video_path in
  filesize_mb <- call stat ;;
  processed <- is_processed_ (str_of_path video_path) ;;
  if processed : bool then ret tt
  else if Notifier.ask_confirm filename filesize_mb run
  then add_task stat_task now video_path
  else mark_processed_ saved (str_of_path video_path).

End Main.

(* ================================================================== *)
(** * The lifetime of one task *)
(* ================================================================== *)

Module Lifetime.
Import Progress.


End Lifetime.

(* ================================================================== *)
(** * The percents a task writes *)
(* ================================================================== *)

Module Trace.
Import Progress Main.

(** The percents shown by the documents written so far. *)
Definition percents (st : PState) : list Z := List.map s_progress (status_writes st).

(** From the [base]-th document on, the percents written never go down,
    and the last one is the percent of the present state. *)
Definition rising (base : nat) (st : PState) : Prop :=
  exists ps,
    drop base (percents st) = ps ++ [_compute_progress (pm st)]
    /\ Sorted Z.le (ps ++ [_compute_progress (pm st)]).



(** What [_run_transcribe_with_progress] stores at an update. *)
Definition display_pct (tick : Tick) : Z := Z.max 1 (Z.min (t_curve tick) 95).





(** In the stage [transcribe]. *)
Definition transcribing (base : nat) (st : PState) : Prop :=
  rising base st /\ _current_stage (pm st) = py "transcribe".







End Trace.

(* ================================================================== *)
(** * Sample inputs *)
(* ================================================================== *)

Module Examples.
Import Progress FileManager Transcriber Main.

Definition noon : Clock :=
  {| time := 1767268800; strftime_HMS := py "12:00:00";
     strftime_full := py "2026-01-01 12:00:00" |}.

(** The singleton right after the import of [progress.py]. *)
Definition fresh : PState := __init__ noon [].

(** A task in the stage [transcribe], at sub-percent 20. *)
Definition transcribing : PState :=
  update_transcribe_progress noon 20 []
    (update noon (py "transcribe") [] 0 0
       (start noon (py "talk.mp4") 12 0 fresh)).

Definition desktop_talk : Path :=
  {| parent := py "/Users/me/Desktop"; name := py "talk.mp4" |}.

Definition downloads_talk : Path :=
  {| parent := py "/Users/me/Downloads"; name := py "talk.mp4" |}.

(** [Path("talk.mp4")], a path relative to the working directory. *)
Definition home_talk : Path := {| parent := py "."; name := py "talk.mp4" |}.

(** A run in which [ffmpeg] fails. *)
Definition run_extract_fails : Run :=
  {| r_stat := Ret 12%Q;
     r_clock := fun _ => noon;
     r_mark := Saved;
     r_extract := Raise (py "ffmpeg 失败: talk.mp4: Invalid data found when processing input");
     r_duration := 0;
     r_duration_min := [];
     r_detect := Ret (py "zh");
     r_load_model := Ret tt;
     r_ticks := [];
     r_generate := Ret (PList []);
     r_repr := fun _ => [];
     r_parse_error := [];
     r_decimal := ascii_digit;
     r_today := {| year := 2026; month := 1; day := 1 |};
     r_save_md := Ret tt;
     r_move := Moved;
     r_move_failed := Moved |}.

(** A run that goes well up to the move of the source, which fails for
    want of room after the copy was begun; the move of the failure branch
    goes well. *)
Definition run_copy_breaks : Run :=
  {| r_stat := Ret 12%Q;
     r_clock := fun _ => noon;
     r_mark := Saved;
     r_extract := Ret tt;
     r_duration := 30;
     r_duration_min := py "30 秒";
     r_detect := Ret (py "zh");
     r_load_model := Ret tt;
     r_ticks := [];
     r_generate := Ret (PList []);
     r_repr := fun _ => [];
     r_parse_error := [];
     r_decimal := ascii_digit;
     r_today := {| year := 2026; month := 1; day := 1 |};
     r_save_md := Ret tt;
     r_move := MoveRaises (py "[Errno 28] No space left on device") true;
     r_move_failed := Moved |}.


(** A run in which the record of processed paths cannot be written: the
    disk is full when [write_text] has opened the file. *)
Definition run_record_fails : Run :=
  {| r_stat := Ret 12%Q;
     r_clock := fun _ => noon;
     r_mark := SaveRaises (py "[Errno 28] No space left on device") true;
     r_extract := Ret tt;
     r_duration := 0;
     r_duration_min := [];
     r_detect := Ret (py "zh");
     r_load_model := Ret tt;
     r_ticks := [];
     r_generate := Ret (PList []);
     r_repr := fun _ => [];
     r_parse_error := [];
     r_decimal := ascii_digit;
     r_today := {| year := 2026; month := 1; day := 1 |};
     r_save_md := Ret tt;
     r_move := Moved;
     r_move_failed := Moved |}.

(** Nothing processed yet, nothing queued. *)
Definition empty_world : World :=
  {| w_progress := fresh; w_processed := ∅; w_video_dir := []; w_dangling := ∅;
     w_q := []; w_events := [] |}.


(** A file that is still growing at the second look and at rest at the
    third. *)
Definition grows_then_rests (k : nat) : Watcher.Poll :=
  match k with
  | O => Watcher.Size 10
  | _ => Watcher.Size 20
  end.


(** A file that never stops growing. *)
Definition keeps_growing (k : nat) : Watcher.Poll := Watcher.Size (Z.of_nat k + 1).


(** A result of the recogniser with one item of each shape. *)
Definition three_shapes : list Shape :=
  [ RichSentence (Some (py "你好 world"))
      [ {| sent_start := Some 0; sent_end := Some 1200; sent_text := Some (py "你好");
           sent_spk := Some (SpkInt 0) |};
        {| sent_start := None; sent_end := None; sent_text := Some (py "world");
           sent_spk := None |} ];
    TimedFlat (py "hello there") [(0, 500); (500, 900)];
    BareText (py "bye") ].

End Examples.

(* ================================================================== *)
(** * progress.py: the states the singleton can reach *)
(* ================================================================== *)

Module ProgressStates.
Import PyStr Progress.

(** The states of the singleton: the one [__init__] leaves, and those the
    public methods make of a state. *)
Inductive reachable : PState -> Prop :=
| reach_init now writes : reachable (__init__ now writes)
| reach_start now filename filesize_mb duration_sec st :
    reachable st -> reachable (start now filename filesize_mb duration_sec st)
| reach_update now stage detail transcribe_percent duration_sec st :
    reachable st -> reachable (update now stage detail transcribe_percent duration_sec st)
| reach_update_transcribe_progress now percent detail st :
    reachable st -> reachable (update_transcribe_progress now percent detail st)
| reach_finish now success lang segments speakers output_file st :
    reachable st -> reachable (finish now success lang segments speakers output_file st)
| reach_set_error now error st : reachable st -> reachable (set_error now error st)
| reach_reset_to_idle now st : reachable st -> reachable (reset_to_idle now st)
| reach_add_to_queue now filename filesize_mb st :
    reachable st -> reachable (add_to_queue now filename filesize_mb st)
| reach_remove_from_queue now filename st :
    reachable st -> reachable (remove_from_queue now filename st).

(** The entries of a history with the mark [mark]. *)
Definition marked (mark : pystr) (history : list HistoryEntry) : list HistoryEntry :=
  filter (fun entry => h_result entry = mark) history.

End ProgressStates.

(* ================================================================== *)
(** * watcher.py: the handler of file events *)
(* ================================================================== *)

Module Handler.
Import PyStr Config Watcher FileManager Main.

(** [config.VIDEO_EXTENSIONS], [config.AUDIO_EXTENSIONS] and their union. *)
Definition VIDEO_EXTENSIONS : list pystr :=
  [py ".mp4"; py ".mkv"; py ".avi"; py ".mov"; py ".webm"; py ".flv"; py ".m4v";
   py ".wmv"; py ".ts"; py ".mpg"; py ".mpeg"].

Definition AUDIO_EXTENSIONS : list pystr :=
  [py ".mp3"; py ".wav"; py ".m4a"; py ".flac"; py ".aac"; py ".ogg"; py ".opus";
   py ".wma"; py ".aiff"; py ".aif"].

Definition MEDIA_EXTENSIONS : list pystr := VIDEO_EXTENSIONS ++ AUDIO_EXTENSIONS.

Section VideoHandler.

(** [str.lower] and [Path(filepath)], which puts the text in the normal
    form of [pathlib]. *)
Variable lower : pystr -> pystr.
Variable Path_of_str : pystr -> Path.

Definition _is_media (path : pystr) : bool :=
  bool_decide (lower (suffix (name (Path_of_str path))) ∈ MEDIA_EXTENSIONS).

(** [_handle_file]: [inside_base] tells whether
    [path.resolve().relative_to(BASE_DIR.resolve())] succeeds.  The result
    is the set [_currently_processing] and the argument of the thread
    started, if one is. *)
Definition _handle_file (inside_base : bool) (PROCESSED_FILE : gset pystr)
    (filepath : pystr) (_currently_processing : gset pystr)
    : gset pystr * option Path :=
  if negb (_is_media filepath) then (_currently_processing, None)
  else
    let path := Path_of_str filepath in
    if startswith (name path) (py ".") || startswith (name path) (py "~")
    then (_currently_processing, None)
    else if inside_base then (_currently_processing, None)
    else if is_processed filepath PROCESSED_FILE then (_currently_processing, None)
    else if bool_decide (filepath ∈ _currently_processing)
    then (_currently_processing, None)
    else ({[ filepath ]} ∪ _currently_processing, Some path).

(** The events of the watched directories. *)
Inductive FileSystemEvent :=
| FileCreatedEvent (src_path : pystr)
| FileMovedEvent (src_path dest_path : pystr)
| OtherEvent.

(** [on_created]: directories have events of another class. *)
Definition on_created (inside_base : bool) (PROCESSED_FILE : gset pystr)
    (event : FileSystemEvent) (_currently_processing : gset pystr)
    : gset pystr * option Path :=
  match event with
  | FileCreatedEvent src_path =>
    _handle_file inside_base PROCESSED_FILE src_path _currently_processing
  | _ => (_currently_processing, None)
  end.

(** [on_moved]: what counts is where the file went. *)
Definition on_moved (inside_base : bool) (PROCESSED_FILE : gset pystr)
    (event : FileSystemEvent) (_currently_processing : gset pystr)
    : gset pystr * option Path :=
  match event with
  | FileMovedEvent _ dest_path =>
    _handle_file inside_base PROCESSED_FILE dest_path _currently_processing
  | _ => (_currently_processing, None)
  end.

End VideoHandler.

(** [_wait_and_process]: [polls] is what [_wait_for_stable] sees, [stat]
    the outcome of the [path.stat()] of the log line, [on_new_video] the
    callback.  The [finally] clause takes the path out of
    [_currently_processing] however the body ends: by a [return], or by an
    exception, of [_wait_for_stable], of [stat] or of the callback, which
    then ends the thread. *)
Definition _wait_and_process (polls : nat -> Poll) (stat : res Q)
    (on_new_video : Path -> M unit) (path : Path)
    (_currently_processing : gset pystr) (w : World)
    : res unit * gset pystr * World :=
  let released := _currently_processing ∖ {[ str_of_path path ]} in
  match _wait_for_stable polls with
  | Some (Ret true) =>
    match stat with
    | Ret _ => let '(r, w') := on_new_video path w in (r, released, w')
    | Raise e => (Raise e, released, w)
    end
  | Some (Raise e) => (Raise e, released, w)
  | _ => (Ret tt, released, w)
  end.

End Handler.

(* ================================================================== *)
(** * transcriber.py: the parts of a result *)
(* ================================================================== *)

Module Spans.
Import PyStr Transcriber.

(** [isinstance(ts, (list, tuple)) and len(ts) >= 2]. *)
Definition is_span (ts : pyval) : bool :=
  match ts with
  | PList (_ :: _ :: _) | PTuple (_ :: _ :: _) => true
  | _ => false
  end.

(** The segment appended in the last branch of the loop over the items,
    and for a text without time spans. *)
Definition plain_segment (text : pyval) : Segment :=
  {| seg_start := PInt 0; seg_end := PInt 0; seg_text := text; seg_speaker := PStr [] |}.

(** What the code leaves under the key [speaker]: a string, or a value
    other than an integer that counts as false. *)
Definition speaker_value (v : pyval) : Prop :=
  match v with
  | PStr _ => True
  | PInt _ | PBool _ => False
  | _ => truth v = false
  end.

End Spans.

(* ================================================================== *)
(** * transcriber.py: the detection of the language *)
(* ================================================================== *)

Module Language.
Import PyStr Transcriber Main.

(** [needle in hay], for strings. *)
Fixpoint contains (hay needle : pystr) : bool :=
  startswith hay needle
  || match hay with
     | [] => false
     | _ :: rest => contains rest needle
     end.

(** The length of the longest prefix without a [|]: what [[^|]+] takes,
    being greedy. *)
Fixpoint run_length (s : pystr) : nat :=
  match s with
  | [] => O
  | c :: rest => if (c =? 124)%N then O else S (run_length rest)
  end.

(** The length of the match of [<\|[^|]+\|>] at the head of [s], if there
    is one.  After [<|] the run of characters other than [|] must not be
    empty and must be followed by [|>]; a shorter run is followed by a
    character of the run, not by [|], so backtracking finds no other
    match. *)
Definition tag_length (s : pystr) : option nat :=
  match s with
  | a :: b :: rest =>
    if ((a =? 60) && (b =? 124))%N then
      let n := run_length rest in
      match n, drop n rest with
      | S _, c :: d :: _ => if ((c =? 124) && (d =? 62))%N then Some (n + 4)%nat else None
      | _, _ => None
      end
    else None
  | _ => None
  end.

(** [re.sub(r"<\|[^|]+\|>", "", text)], read from the left; [skip] is the
    number of characters of the current match that are still to be
    dropped. *)
Fixpoint strip_tags_from (skip : nat) (text : pystr) : pystr :=
  match text with
  | [] => []
  | c :: rest =>
    match skip with
    | S k => strip_tags_from k rest
    | O =>
      match tag_length text with
      | Some n => strip_tags_from (n - 1) rest
      | None => c :: strip_tags_from 0 rest
      end
    end
  end.

Definition strip_tags (text : pystr) : pystr := strip_tags_from 0 text.

(** [bool(re.search(r"[一-鿿]", s))]. *)
Definition has_chinese (s : pystr) : bool :=
  existsb (fun c => (19968 <=? c) && (c <=? 40959))%N s.

(** [[a-zA-Z]]. *)
Definition is_letter (c : N) : bool :=
  ((97 <=? c) && (c <=? 122) || (65 <=? c) && (c <=? 90))%N.

(** [bool(re.search(r"[a-zA-Z]{2,}", s))]. *)
Fixpoint has_english (s : pystr) : bool :=
  match s with
  | a :: (b :: _) as rest => is_letter a && is_letter b || has_english rest
  | _ => false
  end.

(** The statements of [detect_language] from the tag to the [return], on
    the text of the first item. *)
Definition language_of_text (text : pystr) : pystr :=
  let tag :=
    if contains text (py "<|zh|>") || contains text (py "<|yue|>") then py "zh"
    else if contains text (py "<|en|>") then py "en"
    else if contains text (py "<|ja|>") then py "zh"
    else py "zh" in
  let pure_text := strip_tags text in
  let has_chinese := has_chinese pure_text in
  let has_english := has_english pure_text in
  if has_chinese && has_english then py "en_cn"
  else if bool_decide (tag = py "zh") then py "zh"
  else py "en".

(** A text as the model writes it: tags [<|name|>], then the words. *)
Definition tagged (names : list pystr) (body : pystr) : pystr :=
  flat_map (fun name => py "<|" ++ name ++ py "|>") names ++ body.


End Language.

(* ================================================================== *)
(** * notifier.py: the texts put into the scripts *)
(* ================================================================== *)

Module Dialogs.
Import PyStr.

(** [s.replace(old, new)] for an [old] of one character. *)
Definition replace_char (old : N) (new : pystr) (s : pystr) : pystr :=
  flat_map (fun c => if (c =? old)%N then new else [c]) s.

(** [message.replace('"', '\\"')], as [notify] does with the title and the
    message. *)
Definition escape_quotes (message : pystr) : pystr := replace_char 34 [92; 34]%N message.

(** [filename.replace('"', '\\"').replace("'", "'")], as [ask_confirm]
    does with the name of the file and [show_result_dialog] with the
    error. *)
Definition safe_name (filename : pystr) : pystr :=
  replace_char 39 [39%N] (replace_char 34 [92; 34]%N filename).

(** [error[:n] + "..." if len(error) > n else error]. *)
Definition short_error (n : nat) (error : pystr) : pystr :=
  if (n <? length error)%nat then take n error ++ py "..." else error.

(** The error as the dialog of a failure shows it
    ([show_result_dialog]). *)
Definition dialog_error (error : pystr) : pystr := safe_name (short_error 120 error).

(** The message of [notify_fail], before [notify] escapes it; the two
    characters of [\n] stand for a line break in the script. *)
Definition notify_fail_message (filename error : pystr) : pystr :=
  filename ++ py "\n" ++ short_error 80 error.

End Dialogs.

(* ================================================================== *)
(** * file_manager.py: the Markdown transcript *)
(* ================================================================== *)

Module Markdown.
Import PyStr PyFloat FileManager Transcriber.

(** [f"{n:02d}"]: at least two characters, filled with a zero on the
    left; the sign counts as a character. *)
Definition format_02d (n : Z) : pystr :=
  if (0 <=? n) && (n <? 10) then 48%N :: str_of_int n else str_of_int n.

(** [//] and [%] are those of Python: the quotient is rounded down. *)
Definition format_timestamp (ms : Z) : pystr :=
  let total_seconds := ms / 1000 in
  let h := total_seconds / 3600 in
  let m := (total_seconds mod 3600) / 60 in
  let s := total_seconds mod 60 in
  format_02d h ++ py ":" ++ format_02d m ++ py ":" ++ format_02d s.

(** The label of the language in the head of the transcript. *)
Definition md_lang_label (lang : pystr) : pystr :=
  if bool_decide (lang = py "zh") then py "中文"
  else if bool_decide (lang = py "en") then py "English"
  else lang.

Definition duration_str (duration_sec : Q) : pystr :=
  let h := int_of_float duration_sec / 3600 in
  let m := (int_of_float duration_sec mod 3600) / 60 in
  let s := int_of_float duration_sec mod 60 in
  format_02d h ++ py ":" ++ format_02d m ++ py ":" ++ format_02d s.

(** A value used as an integer: an [int], or a [bool], which is one. *)
Definition as_int (v : pyval) : option Z :=
  match v with
  | PInt n => Some n
  | PBool b => Some (if b then 1 else 0)
  | _ => None
  end.

(** The speaker of a segment as the loops see it: [Some None] for a value
    that counts as false, [Some (Some spk)] for a string that is not
    empty.  Other values are not followed ([None]). *)
Definition speaker_key (seg : Segment) : option (option pystr) :=
  match seg_speaker seg with
  | PStr [] => Some None
  | PStr spk => Some (Some spk)
  | v => if truth v then None else Some None
  end.

(** [len(speakers) if speakers else "未知"], as the f-string renders it. *)
Definition num_speakers (speakers : list (option pystr)) : pystr :=
  let speakers : gset pystr := list_to_set (omap id speakers) in
  if bool_decide (speakers = ∅) then py "未知"
  else str_of_int (Z.of_nat (size speakers)).

(** One turn of the loop that builds [speaker_map]; the dict is the list
    of its items in the order of insertion. *)
Definition note_speaker (state : list (pystr * pystr) * Z) (spk : option pystr)
    : list (pystr * pystr) * Z :=
  let '(speaker_map, speaker_counter) := state in
  match spk with
  | Some spk =>
    if bool_decide (spk ∈ speaker_map.*1) then state
    else (speaker_map ++ [(spk, py "说话人" ++ str_of_int speaker_counter)],
          speaker_counter + 1)
  | None => state
  end.

Definition speaker_map_of (speakers : list (option pystr)) : list (pystr * pystr) :=
  (fold_left note_speaker speakers ([], 1)).1.

(** [speaker_map[spk]], when [spk in speaker_map]. *)
Fixpoint label_of (speaker_map : list (pystr * pystr)) (spk : pystr) : option pystr :=
  match speaker_map with
  | [] => None
  | (k, label) :: rest => if bool_decide (k = spk) then Some label else label_of rest spk
  end.

(** The three lines of a segment; [None] when a statement raises ([start]
    or [end] is not an integer, [text] not a string). *)
Definition segment_lines (speaker_map : list (pystr * pystr)) (seg : Segment)
    : option (list pystr) :=
  match as_int (seg_start seg), as_int (seg_end seg), seg_text seg, speaker_key seg with
  | Some start, Some end_, PStr text, Some spk =>
    let start_str := format_timestamp start in
    let end_str := format_timestamp end_ in
    let text := strip text in
    let head :=
      match spk ≫= label_of speaker_map with
      | Some label =>
        py "**[" ++ start_str ++ py " → " ++ end_str ++ py "] " ++ label ++ py ":**"
      | None => py "**[" ++ start_str ++ py " → " ++ end_str ++ py "]**"
      end in
    Some [head; text; []]
  | _, _, _, _ => None
  end.

(** The head of the transcript. *)
Definition head_lines (standard_name lang : pystr) (duration_sec : Q)
    (speakers : list (option pystr)) : list pystr :=
  [ py "# 转录: " ++ standard_name;
    [];
    py "| 项目 | 值 |";
    py "|------|-----|";
    py "| 语言 | " ++ md_lang_label lang ++ py " |";
    py "| 引擎 | FunASR Paraformer |";
    py "| 时长 | " ++ duration_str duration_sec ++ py " |";
    py "| 说话人 | " ++ num_speakers speakers ++ py " |";
    [];
    py "---";
    [] ].

(** The lines written by [save_transcript_md], which joins them with line
    breaks into [{standard_name}.md]. *)
Definition save_transcript_md (standard_name lang : pystr) (duration_sec : Q)
    (segments : list Segment) : option (list pystr) :=
  match mapM speaker_key segments with
  | None => None
  | Some speakers =>
    let lines := head_lines standard_name lang duration_sec speakers in
    let speaker_map := speaker_map_of speakers in
    match mapM (segment_lines speaker_map) segments with
    | None => None
    | Some body => Some (lines ++ concat body)
    end
  end.

End Markdown.

(* ================================================================== *)
(** * main.py: what a run leaves behind *)
(* ================================================================== *)

Module Pipeline.
Import PyStr Progress FileManager Main.


(** The destinations of the moves that were completed, oldest first. *)
Definition moves (events : list Event) : list pystr :=
  omap (fun event => match event with
                     | VideoMoved _ dest => Some dest
                     | _ => None
                     end) events.

(** What the claims about the managed directory look at. *)
Definition managed (w : World) : list pystr * gset pystr * list pystr :=
  (w_video_dir w, w_dangling w, moves (w_events w)).

(** What a part of a run has done to the managed directory.  The entries
    it found are still there, in their order, followed by at most [n] new
    ones, with names that are distinct and that no entry had.  At most [m]
    moves were completed, each to a name of which [exists] was false
    before and is true now.  No entry has become a link to nothing. *)
Definition stores (n m : nat) (w w' : World) : Prop :=
  exists new moved,
    w_video_dir w' = w_video_dir w ++ new
    /\ NoDup new
    /\ (forall dest, dest ∈ new -> dest ∉ w_video_dir w)
    /\ (length new <= n)%nat
    /\ moves (w_events w') = moves (w_events w) ++ moved
    /\ (length moved <= m)%nat
    /\ (forall dest, dest ∈ moved ->
          exists_ (w_video_dir w) (w_dangling w) dest = false
          /\ exists_ (w_video_dir w') (w_dangling w') dest = true)
    /\ w_dangling w' ⊆ w_dangling w.

End Pipeline.

(* ================================================================== *)
(** * Facts about strings *)
(* ================================================================== *)

Module PyStrFacts.

Lemma uint_chars_inj (u v : Decimal.uint) : uint_chars u = uint_chars v -> u = v.
Proof.
  revert v. induction u as [|u IH|u IH|u IH|u IH|u IH|u IH|u IH|u IH|u IH|u IH];
    intros v Heq; destruct v; cbn [uint_chars] in Heq;
    first [ reflexivity | discriminate Heq
          | injection Heq as Heq; f_equal; apply IH; exact Heq ].
Qed.

Lemma uint_chars_no_minus (u : Decimal.uint) (r : pystr) : uint_chars u <> 45%N :: r.
Proof. destruct u; cbn [uint_chars]; discriminate. Qed.

Lemma str_of_int_inj (m n : Z) : str_of_int m = str_of_int n -> m = n.
Proof.
  unfold str_of_int. intros Heq.
  rewrite <- (DecimalZ.of_to m), <- (DecimalZ.of_to n).
  destruct (Z.to_int m) as [u|u], (Z.to_int n) as [v|v].
  - apply uint_chars_inj in Heq. congruence.
  - exfalso. exact (uint_chars_no_minus _ _ Heq).
  - exfalso. symmetry in Heq. exact (uint_chars_no_minus _ _ Heq).
  - injection Heq as Heq. apply uint_chars_inj in Heq. congruence.
Qed.

Lemma startswith_spec (s p : pystr) :
  startswith s p = true <-> exists rest, s = p ++ rest.
Proof.
  revert s. induction p as [|c p IH]; intros s.
  - destruct s; cbn; split; eauto.
  - destruct s as [|d s]; cbn [startswith].
    + split; [discriminate | intros [rest H]; discriminate H].
    + destruct (N.eqb_spec c d) as [->|Hne].
      * rewrite IH. split; intros [rest H]; exists rest.
        -- cbn. congruence.
        -- cbn in H. congruence.
      * split; [discriminate | intros [rest H]; cbn in H; congruence].
Qed.

End PyStrFacts.

(* ================================================================== *)
(** * Facts about progress.py *)
(* ================================================================== *)

Module ProgressFacts.
Import Progress.

Lemma base_table :
  List.map (fun s => progress (stage_info (py s)))
    ["idle"; "waiting"; "extract"; "detect"; "transcribe"; "save"; "done"; "failed"]%string
  = [0; 5; 15; 25; 40; 90; 100; 100].
Proof. vm_compute. reflexivity. Qed.

Lemma base_transcribe : progress (stage_info (py "transcribe")) = 40.
Proof. vm_compute. reflexivity. Qed.

Lemma compute_progress_transcribe (self : ProgressManager) :
  _current_stage self = py "transcribe" ->
  0 < _transcribe_percent self ->
  _compute_progress self = Z.min (40 + _transcribe_percent self / 2) 90.
Proof.
  intros Hs Hp. unfold _compute_progress.
  rewrite bool_decide_eq_true_2 by exact Hs.
  rewrite (proj2 (Z.ltb_lt _ _) Hp). cbn [andb].
  rewrite Hs, base_transcribe, Z.quot_div_nonneg by lia. reflexivity.
Qed.

Lemma compute_progress_base (self : ProgressManager) :
  ~ (_current_stage self = py "transcribe" /\ 0 < _transcribe_percent self) ->
  _compute_progress self = progress (stage_info (_current_stage self)).
Proof.
  intros H. unfold _compute_progress.
  destruct (bool_decide_reflect (_current_stage self = py "transcribe")) as [Hs|Hs];
    cbn [andb]; [|reflexivity].
  destruct (Z.ltb_spec 0 (_transcribe_percent self)); [|reflexivity].
  exfalso. apply H. split; assumption.
Qed.

(** C2. In every stage and for every sub-percent the overall percent is
    the base percent of the stage in the table, except in the stage
    [transcribe] with a positive sub-percent [p], where it is
    [min(40 + floor(p / 2), 90)].  A status written while the task is in
    [transcribe] at sub-percent 60, such as the one written when another
    task is queued, shows 70. *)
Theorem compute_progress_spec :
  (forall self : ProgressManager,
     _compute_progress self =
       if bool_decide (_current_stage self = py "transcribe" /\ 0 < _transcribe_percent self)
       then Z.min (40 + _transcribe_percent self / 2) 90
       else progress (stage_info (_current_stage self)))
  /\ List.map (fun s => progress (stage_info (py s)))
       ["idle"; "waiting"; "extract"; "detect"; "transcribe"; "save"; "done"; "failed"]%string
     = [0; 5; 15; 25; 40; 90; 100; 100]
  /\ (forall now1 now2 now3 detail1 detail2 filename filesize_mb st,
        let transcribing :=
          update_transcribe_progress now2 60 detail2
            (update now1 (py "transcribe") detail1 0 0 st) in
        let queued := add_to_queue now3 filename filesize_mb transcribing in
        _compute_progress (pm transcribing) = 70
        /\ s_progress <$> last (status_writes queued) = Some 70).
Proof.
  split; [|split].
  - intros self. case_bool_decide as H.
    + destruct H. apply compute_progress_transcribe; assumption.
    + apply compute_progress_base. exact H.
  - exact base_table.
  - intros. subst queued. split.
    + reflexivity.
    + unfold add_to_queue, _write_status. cbn [status_writes].
      rewrite last_snoc. reflexivity.
Qed.

(** ** The percent along the lifetime of a task *)



Lemma compute_progress_transcribe_range (self : ProgressManager) :
  _current_stage self = py "transcribe" ->
  40 <= _compute_progress self <= 90.
Proof.
  intros Hs. destruct (Z_lt_le_dec 0 (_transcribe_percent self)) as [Hp|Hp].
  - rewrite compute_progress_transcribe by assumption.
    assert (0 <= _transcribe_percent self / 2) by (apply Z.div_pos; lia). lia.
  - rewrite compute_progress_base by lia. rewrite Hs, base_transcribe. lia.
Qed.






(** C8. [reset_to_idle] puts the stage back to [idle] and every field of
    the task (file name, size, duration, detail, sub-percent, error, start
    time) back to its zero value, so that the percent is 0; the counters
    of completed and failed tasks, the queue and the history are as
    before. *)
Theorem reset_to_idle_frame (now : Clock) (st : PState) :
  let self := pm st in
  let self' := pm (reset_to_idle now st) in
  (_current_stage self' = py "idle"
   /\ _filename self' = []
   /\ _filesize_mb self' = 0%Q
   /\ _duration_sec self' = 0%Q
   /\ _detail self' = []
   /\ _transcribe_percent self' = 0
   /\ _error self' = []
   /\ _start_time self' = None
   /\ _compute_progress self' = 0)
  /\ _total_completed self' = _total_completed self
  /\ _total_failed self' = _total_failed self
  /\ _queue self' = _queue self
  /\ _history self' = _history self.
Proof. cbv zeta. repeat split; reflexivity. Qed.

End ProgressFacts.

(* ================================================================== *)
(** * Facts about watcher.py *)
(* ================================================================== *)

Module WatcherFacts.
Import Config Watcher.


Lemma stable_test polls k :
  stable_at polls k ->
  exists s, polls k = Size s /\ (0 <? s) && (s =? prev_size_at polls k) = true.
Proof.
  intros (k' & s & -> & Hpos & Hk' & Hk). exists s. split; [exact Hk|].
  cbn [prev_size_at]. rewrite Hk'. apply andb_true_iff.
  split; [apply Z.ltb_lt; exact Hpos | apply Z.eqb_refl].
Qed.

Lemma unstable_test polls k s :
  polls k = Size s -> (0 <? s) && (s =? prev_size_at polls k) = false ->
  ~ stable_at polls k.
Proof.
  intros Hk Htest Hst. destruct (stable_test _ _ Hst) as (s' & Hk' & Htrue).
  rewrite Hk in Hk'. injection Hk' as <-. congruence.
Qed.

Lemma prev_size_at_S polls k s : polls k = Size s -> prev_size_at polls (S k) = s.
Proof. intros H. cbn [prev_size_at]. rewrite H. reflexivity. Qed.


(** The loop comes to an end, and with an exception only at a turn whose
    [exists] raises it. *)
Lemma wait_loop_ends polls : forall fuel k,
  (150 - k < fuel)%nat ->
  exists r t,
    wait_loop fuel polls k (2 * Z.of_nat k) (prev_size_at polls k) = Some (r, t)
    /\ forall e, r = Raise e ->
         exists k', (k <= k' < 150)%nat /\ polls k' = ExistsRaises e
                    /\ forall j, (k <= j < k')%nat -> sized polls j /\ ~ stable_at polls j.
Proof.
  induction fuel as [|fuel IH]; intros k Hfuel; [lia|].
  cbn [wait_loop]. unfold FILE_STABLE_MAX_WAIT, FILE_STABLE_CHECK_INTERVAL.
  destruct (Z.ltb_spec (2 * Z.of_nat k) 300) as [Hlt|Hge].
  2: { eexists _, _. split; [reflexivity | discriminate]. }
  destruct (polls k) as [e| | |s] eqn:Hk.
  - eexists _, _. split; [reflexivity|]. intros e' [= <-].
    exists k. split; [lia|]. split; [exact Hk | intros j Hj; lia].
  - eexists _, _. split; [reflexivity | discriminate].
  - eexists _, _. split; [reflexivity | discriminate].
  - destruct ((0 <? s) && (s =? prev_size_at polls k)) eqn:Htest.
    + eexists _, _. split; [reflexivity | discriminate].
    + rewrite <- (prev_size_at_S _ _ _ Hk).
      replace (2 * Z.of_nat k + 2) with (2 * Z.of_nat (S k)) by lia.
      destruct (IH (S k) ltac:(lia)) as (r & t & Heq & Hraise).
      exists r, t. split; [exact Heq|]. intros e He.
      destruct (Hraise e He) as (k' & Hle & Hk' & Hbefore).
      exists k'. split; [lia|]. split; [exact Hk'|]. intros j Hj.
      destruct (Nat.eq_dec j k) as [->|Hne]; [|apply Hbefore; lia].
      split; [exists s; exact Hk | exact (unstable_test _ _ _ Hk Htest)].
Qed.



(** [_wait_for_stable] comes to an end, and with an exception only at a
    turn whose [exists] raises it. *)
Lemma wait_for_stable_ends (polls : nat -> Poll) :
  exists result,
    _wait_for_stable polls = Some result
    /\ forall e, result = Raise e ->
         exists k, (k < 150)%nat /\ polls k = ExistsRaises e
                   /\ forall j, (j < k)%nat -> sized polls j /\ ~ stable_at polls j.
Proof.
  destruct (wait_loop_ends polls 151 0 ltac:(lia)) as (r & t & Heq & Hraise).
  exists r. split.
  - unfold _wait_for_stable, _wait_for_stable_run.
    change (wait_loop 151 polls 0 (2 * Z.of_nat 0) (prev_size_at polls 0))
      with (wait_loop 151 polls 0 0 (-1)) in Heq.
    rewrite Heq. reflexivity.
  - intros e He. destruct (Hraise e He) as (k & Hk & Hpoll & Hbefore).
    exists k. split; [lia|]. split; [exact Hpoll|].
    intros j Hj. apply Hbefore. lia.
Qed.




End WatcherFacts.

(* ================================================================== *)
(** * Facts about file_manager.py *)
(* ================================================================== *)

Module FileManagerFacts.
Import FileManager PyStrFacts.

Lemma fold_left_max_spec (l : list Z) : forall x,
  let m := fold_left Z.max l x in
  (m = x \/ m ∈ l) /\ x <= m /\ (forall y, y ∈ l -> y <= m).
Proof.
  induction l as [|a l IH]; intros x; cbn [fold_left].
  - split; [left; reflexivity|]. split; [lia|]. intros y Hy. inversion Hy.
  - destruct (IH (Z.max x a)) as (Hmem & Hle & Hall). cbv zeta in *.
    split; [|split].
    + destruct Hmem as [Heq|Hin].
      * rewrite Heq. destruct (Z.max_spec x a) as [[_ ->]|[_ ->]].
        -- right. left.
        -- left. reflexivity.
      * right. right. exact Hin.
    + lia.
    + intros y Hy. apply elem_of_cons in Hy as [->|Hy]; [lia | auto].
Qed.

Lemma max_default_spec (l : list Z) (d : Z) :
  (l = [] /\ max_default l d = d)
  \/ (max_default l d ∈ l /\ forall y, y ∈ l -> y <= max_default l d).
Proof.
  destruct l as [|x l]; [left; split; reflexivity|]. right. cbn [max_default].
  destruct (fold_left_max_spec l x) as (Hmem & Hle & Hall). cbv zeta in *.
  split.
  - destruct Hmem as [->|Hin]; [left | right; exact Hin].
  - intros y Hy. apply elem_of_cons in Hy as [->|Hy]; auto.
Qed.

Section Scan.
Variable unicode_decimal : N -> option Z.
Variable prefix : pystr.

Lemma scan_entry_indexed existing f :
  (scan_entry unicode_decimal prefix existing f = existing
   /\ forall idx, ~ indexed unicode_decimal prefix f idx)
  \/ (exists idx, scan_entry unicode_decimal prefix existing f = existing ++ [idx]
      /\ forall idx', indexed unicode_decimal prefix f idx' <-> idx' = idx).
Proof.
  unfold scan_entry, indexed.
  destruct (startswith (strip_fail (stem f)) prefix) eqn:Hsw.
  - apply startswith_spec in Hsw as [rest Hrest]. rewrite Hrest, drop_app_length.
    destruct (py_int unicode_decimal rest) as [idx|] eqn:Hint.
    + right. exists idx. split; [reflexivity|]. intros idx'. split.
      * intros (rest' & Heq & Hint'). apply app_inv_head in Heq. subst rest'. congruence.
      * intros ->. exists rest. auto.
    + left. split; [reflexivity|]. intros idx (rest' & Heq & Hint').
      apply app_inv_head in Heq. subst rest'. congruence.
  - left. split; [reflexivity|]. intros idx (rest & Heq & _).
    assert (startswith (strip_fail (stem f)) prefix = true)
      by (apply startswith_spec; eauto).
    congruence.
Qed.

Lemma scan_indexed (VIDEO_DIR : list pystr) : forall existing idx,
  idx ∈ fold_left (scan_entry unicode_decimal prefix) VIDEO_DIR existing
  <-> idx ∈ existing
      \/ exists f, f ∈ VIDEO_DIR /\ indexed unicode_decimal prefix f idx.
Proof.
  induction VIDEO_DIR as [|f files IH]; intros existing idx; cbn [fold_left].
  - split; [auto|]. intros [H|(f & Hf & _)]; [exact H | inversion Hf].
  - rewrite IH.
    destruct (scan_entry_indexed existing f) as [[-> Hnone]|(i & -> & Hi)].
    + split.
      * intros [H|(g & Hg & Hidx)]; [auto|]. right. exists g. split; [right|]; auto.
      * intros [H|(g & Hg & Hidx)]; [auto|].
        apply elem_of_cons in Hg as [->|Hg]; [exfalso; eapply Hnone; eauto|].
        right. eauto.
    + rewrite elem_of_app, list_elem_of_singleton. split.
      * intros [[H | ->] | (g & Hg & Hidx)]; [auto | | ].
        -- right. exists f. split; [left|]. apply Hi. reflexivity.
        -- right. exists g. split; [right|]; auto.
      * intros [H|(g & Hg & Hidx)]; [auto|].
        apply elem_of_cons in Hg as [->|Hg].
        -- left. right. apply Hi. exact Hidx.
        -- right. eauto.
Qed.

End Scan.

(** C4. For every date, language and content of the managed directory,
    the next index is one more than the greatest index carried by an
    entry whose stem, without a leading [fail_], starts with
    [{year}_{month}_{day}_{lang}_] and goes on with an integer (entries
    that go on with something else do not count), and it is 1 when no
    entry carries an index; the generated name is the prefix followed by
    that index.  With [2026_1_1_zh_1], [2026_1_1_zh_2] and
    [fail_2026_1_1_zh_5] in the directory, the next name for [zh] on that
    date is [2026_1_1_zh_6]. *)
Theorem next_index_spec :
  (forall unicode_decimal date lang VIDEO_DIR,
     let prefix := name_prefix date lang in
     let next := get_next_index unicode_decimal date lang VIDEO_DIR in
     (forall f idx, f ∈ VIDEO_DIR -> indexed unicode_decimal prefix f idx -> idx < next)
     /\ ((exists f, f ∈ VIDEO_DIR /\ indexed unicode_decimal prefix f (next - 1))
         \/ ((forall f idx, f ∈ VIDEO_DIR -> ~ indexed unicode_decimal prefix f idx)
             /\ next = 1))
     /\ generate_standard_name unicode_decimal lang date VIDEO_DIR
        = prefix ++ str_of_int next)
  /\ generate_standard_name ascii_digit (py "zh") {| year := 2026; month := 1; day := 1 |}
       [py "2026_1_1_zh_1"; py "2026_1_1_zh_2"; py "fail_2026_1_1_zh_5"]
     = py "2026_1_1_zh_6"
  /\ generate_standard_name ascii_digit (py "zh") {| year := 2026; month := 1; day := 1 |}
       [py "fail_2026_1_1_zh_5.mov"; py "2026_1_1_zh_1.mp4"; py "2026_1_1_en_9.mp4";
        py "2026_1_1_zh_2.m4a"; py "2026_1_2_zh_7.mp4"; py "2026_1_1_zh_x.mp4"]
     = py "2026_1_1_zh_6".
Proof.
  split; [|split; vm_compute; reflexivity].
  intros unicode_decimal date lang VIDEO_DIR. cbv zeta.
  unfold get_next_index.
  set (prefix := name_prefix date lang).
  set (existing := fold_left (scan_entry unicode_decimal prefix) VIDEO_DIR []).
  assert (Hex : forall idx, idx ∈ existing
                  <-> exists f, f ∈ VIDEO_DIR /\ indexed unicode_decimal prefix f idx).
  { intros idx. unfold existing. rewrite scan_indexed. split.
    - intros [H|H]; [inversion H | exact H].
    - auto. }
  split; [|split].
  - intros f idx Hf Hidx.
    assert (Hin : idx ∈ existing) by (apply Hex; eauto).
    destruct (max_default_spec existing 0) as [[Hnil _]|[_ Hall]].
    + rewrite Hnil in Hin. inversion Hin.
    + specialize (Hall idx Hin). lia.
  - destruct (max_default_spec existing 0) as [[Hnil Hmax]|[Hmem _]].
    + right. split; [|lia]. intros f idx Hf Hidx.
      assert (Hin : idx ∈ existing) by (apply Hex; eauto).
      rewrite Hnil in Hin. inversion Hin.
    + left. replace (max_default existing 0 + 1 - 1) with (max_default existing 0) by lia.
      apply Hex. exact Hmem.
  - subst prefix existing. unfold generate_standard_name, get_next_index, name_prefix.
    rewrite <- !app_assoc. reflexivity.
Qed.

Lemma next_index_spec_witness :
  5 < get_next_index ascii_digit {| year := 2026; month := 1; day := 1 |} (py "zh")
        [py "2026_1_1_zh_1"; py "2026_1_1_zh_2"; py "fail_2026_1_1_zh_5"].
Proof.
  apply (proj1 (proj1 next_index_spec ascii_digit {| year := 2026; month := 1; day := 1 |}
                  (py "zh") [py "2026_1_1_zh_1"; py "2026_1_1_zh_2"; py "fail_2026_1_1_zh_5"])
           (py "fail_2026_1_1_zh_5") 5).
  - do 2 right. left.
  - exists (py "5"). split; vm_compute; reflexivity.
Defined.

(** ** The destination of a move *)

Section FreeDest.
Variable VIDEO_DIR : list pystr.
Variable dangling : gset pystr.
Variables stemname ext : pystr.

Lemma exists_listed dest : exists_ VIDEO_DIR dangling dest = true -> dest ∈ VIDEO_DIR.
Proof.
  unfold exists_. intros H. apply andb_prop in H as [H _].
  apply bool_decide_eq_true_1 in H. exact H.
Qed.

Lemma exists_false_iff dest :
  exists_ VIDEO_DIR dangling dest = false <-> dest ∉ VIDEO_DIR \/ dest ∈ dangling.
Proof.
  unfold exists_. rewrite andb_false_iff, negb_false_iff.
  rewrite bool_decide_eq_false, bool_decide_eq_true. reflexivity.
Qed.

Lemma candidate_inj c c' :
  candidate stemname ext c = candidate stemname ext c' -> c = c'.
Proof.
  unfold candidate. intros H.
  apply app_inv_head in H. apply app_inv_head in H. apply app_inv_tail in H.
  apply str_of_int_inj. exact H.
Qed.

Lemma candidate_not_plain c : stemname ++ ext <> candidate stemname ext c.
Proof.
  unfold candidate. intros H. apply app_inv_head in H.
  apply (f_equal length) in H. rewrite !length_app in H.
  change (length (py "_")) with 1%nat in H. lia.
Qed.

Lemma free_dest_fresh : forall fuel seen dest counter,
  NoDup (dest :: seen) ->
  (forall x, x ∈ seen -> x ∈ VIDEO_DIR) ->
  (forall x c, x ∈ dest :: seen -> counter <= c -> x <> candidate stemname ext c) ->
  (length VIDEO_DIR < length seen + fuel)%nat ->
  exists_ VIDEO_DIR dangling (free_dest fuel VIDEO_DIR dangling stemname ext dest counter)
  = false.
Proof.
  induction fuel as [|fuel IH]; intros seen dest counter Hnd Hseen Hlater Hfuel.
  - exfalso. apply NoDup_cons in Hnd as [_ Hnd].
    assert (length seen <= length VIDEO_DIR)%nat; [|lia].
    apply submseteq_length, NoDup_submseteq; assumption.
  - cbn [free_dest]. destruct (exists_ VIDEO_DIR dangling dest) eqn:Hin; [|exact Hin].
    apply exists_listed in Hin.
    apply (IH (dest :: seen)).
    + apply NoDup_cons. split; [|exact Hnd].
      intros Hc. exact (Hlater _ counter Hc (Z.le_refl _) eq_refl).
    + intros x Hx. apply elem_of_cons in Hx as [->|Hx]; auto.
    + intros x c Hx Hc. apply elem_of_cons in Hx as [->|Hx].
      * intros Heq. apply candidate_inj in Heq. lia.
      * apply Hlater; [exact Hx | lia].
    + cbn [length]. lia.
Qed.

End FreeDest.

(** [exists] is false of the name [move_video] settles on. *)
Lemma move_video_dest_fresh src standard_name success VIDEO_DIR dangling :
  exists_ VIDEO_DIR dangling
    (move_video_dest src standard_name success VIDEO_DIR dangling) = false.
Proof.
  unfold move_video_dest.
  apply (free_dest_fresh VIDEO_DIR dangling _ _ _ []).
  - apply NoDup_singleton.
  - intros x Hx. inversion Hx.
  - intros x c Hx _. apply list_elem_of_singleton in Hx as ->. apply candidate_not_plain.
  - cbn [length]. lia.
Qed.

End FileManagerFacts.

(* ================================================================== *)
(** * Facts about notifier.py *)
(* ================================================================== *)

Module NotifierFacts.
Import Notifier.

(** The dialog answers with the label of the accept button and the end
    of line [osascript] prints after it: the confirmation is true, though
    the output is not the label alone. *)
Lemma ask_confirm_accepts_padded_output :
  ask_confirm (py "talk.mp4") 12 (Completed (py "转录" ++ [10%N])) = true
  /\ py "转录" ++ [10%N] <> py "转录".
Proof. split; [reflexivity | discriminate]. Qed.

(** C9. The confirmation is true exactly when the
    dialog process ends normally and its output, without the whitespace
    around it, is the label of the accept button.  On a timeout of the
    process or any other error in running it the wrapped runner returns
    the empty string, and so does it when the dialog gives up and prints
    an empty line; in all these cases the confirmation is false. *)
Theorem ask_confirm_spec :
  (forall filename filesize_mb run,
     ask_confirm filename filesize_mb run = true
     <-> exists stdout, run = Completed stdout /\ strip stdout = py "转录")
  /\ _run_osascript TimeoutExpired = []
  /\ _run_osascript OtherError = []
  /\ (forall filename filesize_mb,
        ask_confirm filename filesize_mb TimeoutExpired = false
        /\ ask_confirm filename filesize_mb OtherError = false
        /\ ask_confirm filename filesize_mb (Completed [10%N]) = false
        /\ ask_confirm filename filesize_mb (Completed (py "转录" ++ [10%N])) = true).
Proof.
  split; [|repeat split; reflexivity].
  intros filename filesize_mb run. unfold ask_confirm.
  case_bool_decide as Heq; split.
  - intros _. destruct run as [stdout| |]; [exists stdout; auto | |];
      cbn [_run_osascript] in Heq; discriminate Heq.
  - reflexivity.
  - discriminate.
  - intros (stdout & -> & Hstrip). exfalso. apply Heq. exact Hstrip.
Qed.

End NotifierFacts.

(* ================================================================== *)
(** * Facts about transcriber.py *)
(* ================================================================== *)

Module TranscriberFacts.
Import Transcriber.

Section ParseFacts.
Variable repr : pyval -> pystr.

Lemma parse_sentence_encode (segments : list Segment) (s : Sentence) :
  parse_sentence repr segments (encode_sentence s)
  = Some (segments ++ [segment_of (normalize_sentence s)]).
Proof.
  destruct s as [[a|] [b|] [t|] [[n|[|c id]]|]]; reflexivity.
Qed.

Lemma for_each_sentences (sentence_info : list Sentence) : forall segments,
  for_each (parse_sentence repr) (List.map encode_sentence sentence_info) segments
  = Some (segments ++ List.map segment_of (List.map normalize_sentence sentence_info)).
Proof.
  induction sentence_info as [|s sents IH]; intros segments; cbn [List.map for_each].
  - rewrite app_nil_r. reflexivity.
  - rewrite parse_sentence_encode, IH, <- app_assoc. reflexivity.
Qed.

Lemma for_each_later_spans (text : pystr) (timestamp : list (Z * Z)) :
  forall (k : nat) segments,
  for_each (parse_span (PStr text))
    (imap (fun i x => (S (k + i), x)) (List.map encode_span timestamp)) segments
  = Some (segments ++
      List.map segment_of
        (List.map (fun ab => {| startMs := fst ab; endMs := snd ab; words := [];
                                speakerId := [] |}) timestamp)).
Proof.
  induction timestamp as [|[a b] rest IH]; intros k segments.
  - cbn. rewrite app_nil_r. reflexivity.
  - cbn [List.map imap for_each]. unfold encode_span at 1. cbn [parse_span fst snd Nat.eqb].
    rewrite (imap_ext _ (fun i x => (S (S k + i), x))) by (intros; cbn; f_equal; lia).
    rewrite IH, <- app_assoc. reflexivity.
Qed.

Lemma parse_item_encode (segments : list Segment) (sh : Shape) :
  well_shaped sh ->
  parse_item repr segments (encode sh)
  = Some (segments ++ List.map segment_of (normalize sh)).
Proof.
  destruct sh as [text sentence_info | text timestamp | text]; cbn [well_shaped].
  - intros Hne. destruct sentence_info as [|s sents]; [congruence|].
    destruct text as [text|];
      change (parse_item repr segments (encode (RichSentence _ (s :: sents))))
        with (for_each (parse_sentence repr) (List.map encode_sentence (s :: sents)) segments);
      apply for_each_sentences.
  - intros [Ht Hts]. destruct text as [|c text]; [congruence|].
    destruct timestamp as [|[a b] rest]; [congruence|].
    change (parse_item repr segments (encode (TimedFlat (c :: text) ((a, b) :: rest))))
      with (for_each (parse_span (PStr (c :: text)))
              (imap (fun i x => (S (0 + i), x)) (List.map encode_span rest))
              (segments ++ [segment_of {| startMs := a; endMs := b; words := c :: text;
                                          speakerId := [] |}])).
    rewrite for_each_later_spans, <- app_assoc. reflexivity.
  - intros Ht. destruct text as [|c text]; [congruence|]. reflexivity.
Qed.

Lemma for_each_items (shapes : list Shape) : forall segments,
  Forall well_shaped shapes ->
  for_each (parse_item repr) (List.map encode shapes) segments
  = Some (segments ++ List.map segment_of (concat (List.map normalize shapes))).
Proof.
  induction shapes as [|sh shapes IH]; intros segments Hwf; cbn [List.map for_each concat].
  - rewrite app_nil_r. reflexivity.
  - apply Forall_cons in Hwf as [Hsh Hwf].
    rewrite (parse_item_encode _ _ Hsh), (IH _ Hwf), List.map_app, <- app_assoc.
    reflexivity.
Qed.

End ParseFacts.

(** C7. A result whose items have one of the three shapes (sentences
    with their own information; a text with a list of time spans; a bare
    text) is turned into the uniform list of segments: in a sentence a
    missing start or end becomes 0, a missing text or speaker the empty
    string, and an integer speaker [n] becomes [spk{n}]; a text with time
    spans gives one segment for each span, the text on the first and the
    empty string on the others; a bare text gives one segment from 0 to
    0. *)
Theorem parse_funasr_result_shapes :
  (forall (repr : pyval -> pystr) (shapes : list Shape),
     Forall well_shaped shapes ->
     _parse_funasr_result repr (PList (List.map encode shapes))
     = Some (List.map segment_of (concat (List.map normalize shapes))))
  /\ (forall text timestamp,
        length (normalize (TimedFlat text timestamp)) = length timestamp
        /\ List.map words (normalize (TimedFlat text timestamp))
           = match timestamp with
             | [] => []
             | _ :: rest => text :: List.map (fun _ => []) rest
             end)
  /\ (forall (repr : pyval -> pystr) (n a b : Z),
        _parse_funasr_result repr
          (PList [ PDict [ (py "sentence_info",
                            PList [ PDict [ (py "spk", PInt n) ];
                                    PDict [ (py "text", PStr (py "hi")) ] ]) ];
                   PDict [ (py "text", PStr (py "hi there"));
                           (py "timestamp", PList [ PList [PInt 0; PInt a];
                                                    PList [PInt a; PInt b] ]) ];
                   PDict [ (py "text", PStr (py "bye")) ] ])
        = Some
            [ {| seg_start := PInt 0; seg_end := PInt 0; seg_text := PStr [];
                 seg_speaker := PStr (py "spk" ++ str_of_int n) |};
              {| seg_start := PInt 0; seg_end := PInt 0; seg_text := PStr (py "hi");
                 seg_speaker := PStr [] |};
              {| seg_start := PInt 0; seg_end := PInt a; seg_text := PStr (py "hi there");
                 seg_speaker := PStr [] |};
              {| seg_start := PInt a; seg_end := PInt b; seg_text := PStr [];
                 seg_speaker := PStr [] |};
              {| seg_start := PInt 0; seg_end := PInt 0; seg_text := PStr (py "bye");
                 seg_speaker := PStr [] |} ]).
Proof.
  split; [|split].
  - intros repr shapes Hwf. unfold _parse_funasr_result.
    destruct shapes as [|sh shapes]; [reflexivity|].
    change (truth (PList (List.map encode (sh :: shapes)))) with true.
    cbn [negb iterate]. rewrite (for_each_items repr _ _ Hwf). reflexivity.
  - intros text [|[a b] rest]; [split; reflexivity|].
    cbn [normalize List.map length words]. rewrite !length_map, List.map_map.
    split; reflexivity.
  - intros. reflexivity.
Qed.

Lemma parse_funasr_result_shapes_witness :
  length <$> _parse_funasr_result (fun _ => []) (PList (List.map encode Examples.three_shapes))
  = Some 5%nat.
Proof.
  rewrite (proj1 parse_funasr_result_shapes (fun _ => []) Examples.three_shapes).
  - reflexivity.
  - unfold Examples.three_shapes.
    repeat (apply List.Forall_cons;
            [vm_compute; try split; intros H; discriminate H|]).
    apply List.Forall_nil.
Defined.

End TranscriberFacts.

(* ================================================================== *)
(** * Facts about main.py *)
(* ================================================================== *)

Module MainFacts.
Import Progress FileManager Transcriber Main Trace.
Local Open Scope m_scope.

(** ** A path that is already in the record *)


Lemma process_video_stat_error run video_path w e :
  r_stat run = Raise e -> process_video run video_path w = (Raise e, w).
Proof.
  intros Hstat. unfold process_video, bind, call. rewrite Hstat. reflexivity.
Qed.


(** ** Running [process_video] step by step *)

Lemma bind_ret {A B} (a : A) (k : A -> M B) w : bind (ret a) k w = k a w.
Proof. reflexivity. Qed.

Lemma bind_call {A B} (r : res A) (k : A -> M B) w :
  bind (call r) k w = match r with Ret a => k a w | Raise e => (Raise e, w) end.
Proof. unfold bind, call. destruct r; reflexivity. Qed.

Lemma bind_progress {B} g (k : unit -> M B) w :
  bind (progress_ g) k w = k tt (upd_progress g w).
Proof. reflexivity. Qed.

Lemma bind_emit {B} e (k : unit -> M B) w : bind (emit e) k w = k tt (add_event e w).
Proof. reflexivity. Qed.

Lemma bind_is_processed {B} filepath (k : bool -> M B) w :
  bind (is_processed_ filepath) k w = k (is_processed filepath (w_processed w)) w.
Proof. reflexivity. Qed.

Lemma bind_mark_processed {B} outcome filepath (k : unit -> M B) w :
  bind (mark_processed_ outcome filepath) k w
  = match outcome with
    | Saved => k tt (upd_processed (fun _ => {[ filepath ]} ∪ w_processed w) w)
    | SaveRaises e opened =>
      (Raise e, upd_processed (fun _ => if opened then ∅ else w_processed w) w)
    end.
Proof. destruct outcome; reflexivity. Qed.

Lemma bind_generate_standard_name {B} run lang (k : pystr -> M B) w :
  bind (generate_standard_name_ run lang) k w
  = k (generate_standard_name (r_decimal run) lang (r_today run) (w_video_dir w)) w.
Proof. reflexivity. Qed.

Lemma bind_attempt {A B} (m : M A) (k : res A -> M B) w :
  bind (attempt m) k w = k (m w).1 (m w).2.
Proof. unfold bind, attempt. destruct (m w). reflexivity. Qed.

Ltac world_simpl :=
  cbn [w_progress w_processed w_video_dir w_dangling w_q w_events
       upd_progress upd_processed upd_video_dir upd_dangling upd_q add_event stored
       fst snd].

Lemma upd_processed_same w : upd_processed (fun _ => w_processed w) w = w.
Proof. destruct w. reflexivity. Qed.

(** ** What the calls leave alone *)

Section Frame.
Context {X : Type} (F : World -> X).

Lemma keeps_ret {A} (a : A) : keeps F (ret a).
Proof. intros w. reflexivity. Qed.

Lemma keeps_call {A} (r : res A) : keeps F (call r).
Proof. intros w. reflexivity. Qed.

Lemma keeps_bind {A B} (m : M A) (k : A -> M B) :
  keeps F m -> (forall a, keeps F (k a)) -> keeps F (bind m k).
Proof.
  intros Hm Hk w. unfold bind. specialize (Hm w).
  destruct (m w) as [[a|e] w1]; cbn [snd] in *.
  - rewrite Hk. exact Hm.
  - exact Hm.
Qed.

Lemma keeps_attempt {A} (m : M A) : keeps F m -> keeps F (attempt m).
Proof.
  intros Hm w. unfold attempt. specialize (Hm w).
  destruct (m w) as [r w1]. exact Hm.
Qed.

Lemma keeps_is_processed filepath : keeps F (is_processed_ filepath).
Proof. intros w. reflexivity. Qed.

Lemma keeps_generate_standard_name run lang : keeps F (generate_standard_name_ run lang).
Proof. intros w. reflexivity. Qed.

Lemma keeps_progress (g : PState -> PState) :
  (forall w, F (upd_progress g w) = F w) -> keeps F (progress_ g).
Proof. intros Hg w. apply Hg. Qed.

(** [F] does not look at what is announced. *)
Hypothesis F_event : forall e w, F (add_event e w) = F w.

Lemma keeps_emit e : keeps F (emit e).
Proof. intros w. apply F_event. Qed.

(** The calls on [progress] other than [finish] and the two on the
    queue. *)
Hypothesis F_update : forall now stage detail transcribe_percent duration_sec w,
  F (upd_progress (update now stage detail transcribe_percent duration_sec) w) = F w.
Hypothesis F_tick : forall now percent detail w,
  F (upd_progress (update_transcribe_progress now percent detail) w) = F w.

Lemma keeps_run_transcribe run : keeps F (_run_transcribe_with_progress run).
Proof.
  unfold _run_transcribe_with_progress.
  induction (r_ticks run) as [|tick ticks IH]; cbn [fold_right].
  - apply keeps_call.
  - apply keeps_bind; [apply keeps_progress; intros; apply F_tick | intros _; exact IH].
Qed.

Lemma keeps_try_until_name run video_path : keeps F (try_until_name run video_path).
Proof.
  unfold try_until_name.
  repeat first
    [ apply keeps_ret | apply keeps_call | apply keeps_emit
    | apply keeps_run_transcribe | apply keeps_generate_standard_name
    | apply keeps_progress; intros; apply F_update
    | apply keeps_bind; [|intros ?] ].
Qed.

(** The rest of [process_video]. *)
Hypothesis F_start : forall now filename filesize_mb duration_sec w,
  F (upd_progress (start now filename filesize_mb duration_sec) w) = F w.
Hypothesis F_set_error : forall now error w,
  F (upd_progress (set_error now error) w) = F w.
Hypothesis F_reset : forall now w, F (upd_progress (reset_to_idle now) w) = F w.
Hypothesis F_finish : forall now success lang segments speakers output_file w,
  F (upd_progress (finish now success lang segments speakers output_file) w) = F w.
Hypothesis F_processed : forall f w, F (upd_processed f w) = F w.
Hypothesis F_video_dir : forall f w, F (upd_video_dir f w) = F w.
Hypothesis F_dangling : forall f w, F (upd_dangling f w) = F w.

Lemma keeps_mark_processed outcome filepath : keeps F (mark_processed_ outcome filepath).
Proof. intros w. apply F_processed. Qed.

Lemma F_stored dest w : F (stored dest w) = F w.
Proof. unfold stored. rewrite F_dangling. apply F_video_dir. Qed.

Lemma keeps_move_video moved src standard_name success :
  keeps F (move_video_ moved src standard_name success).
Proof.
  intros w. unfold move_video_. destruct moved as [|e [|]]; cbn [snd].
  - rewrite F_event. apply F_stored.
  - apply F_stored.
  - reflexivity.
Qed.

Lemma keeps_try_after_name run video_path t : keeps F (try_after_name run video_path t).
Proof.
  unfold try_after_name.
  repeat first
    [ apply keeps_call | apply keeps_emit | apply keeps_move_video
    | apply keeps_progress; intros; first [apply F_finish | apply F_reset]
    | apply keeps_bind; [|intros ?] ].
Qed.

Lemma keeps_except run video_path standard_name error_msg :
  keeps F (except_ run video_path standard_name error_msg).
Proof.
  unfold except_.
  repeat first
    [ apply keeps_ret | apply keeps_emit | apply keeps_move_video
    | apply keeps_generate_standard_name
    | apply keeps_attempt
    | apply keeps_progress; intros; first [apply F_finish | apply F_reset | apply F_set_error]
    | apply keeps_bind; [|intros ?]
    | progress destruct standard_name ].
Qed.

Lemma keeps_process_video_started run video_path filesize_mb :
  keeps F (process_video_started run video_path filesize_mb).
Proof.
  unfold process_video_started.
  apply keeps_bind; [apply keeps_progress; intros; apply F_start | intros _].
  apply keeps_bind; [apply keeps_mark_processed | intros _].
  apply keeps_bind; [apply keeps_emit | intros _].
  apply keeps_bind; [apply keeps_attempt, keeps_try_until_name | intros [t|e]].
  - apply keeps_bind; [apply keeps_attempt, keeps_try_after_name | intros [[]|e]].
    + apply keeps_ret.
    + apply keeps_except.
  - apply keeps_except.
Qed.

End Frame.

(** [process_video], its first steps taken. *)
Lemma process_video_unfold run video_path w filesize_mb :
  r_stat run = Ret filesize_mb ->
  process_video run video_path w =
    let w0 := upd_progress (remove_from_queue (r_clock run 0) (name video_path)) w in
    if is_processed (str_of_path video_path) (w_processed w) then (Ret tt, w0)
    else process_video_started run video_path filesize_mb w0.
Proof.
  intros Hstat. unfold process_video.
  rewrite bind_call, Hstat, bind_progress, bind_is_processed. world_simpl.
  destruct (is_processed _ _); reflexivity.
Qed.

(** [process_video] changes the observable queue by its first call only. *)
Lemma process_video_queue run video_path w filesize_mb :
  r_stat run = Ret filesize_mb ->
  _queue (pm (w_progress (process_video run video_path w).2))
  = filter (fun item => q_filename item <> name video_path) (_queue (pm (w_progress w))).
Proof.
  intros Hstat. rewrite (process_video_unfold _ _ _ _ Hstat). cbv zeta.
  destruct (is_processed _ _); [reflexivity|].
  rewrite (keeps_process_video_started (fun w => _queue (pm (w_progress w))));
    try reflexivity.
  intros. destruct success; reflexivity.
Qed.

(** [process_video] leaves the task queue alone. *)
Lemma process_video_q run video_path w : w_q (process_video run video_path w).2 = w_q w.
Proof.
  destruct (r_stat run) as [filesize_mb|e] eqn:Hstat.
  - rewrite (process_video_unfold _ _ _ _ Hstat). cbv zeta.
    destruct (is_processed _ _); [reflexivity|].
    rewrite (keeps_process_video_started w_q); reflexivity.
  - rewrite (process_video_stat_error _ _ _ _ Hstat). reflexivity.
Qed.

(** ** Rules for what a run does to [progress] *)



















(** ** The history and the counters *)


(** The attempt to move the source of a failed task. *)
Lemma keeps_failed_move {X} (F : World -> X) run video_path standard_name :
  (forall e w, F (add_event e w) = F w) ->
  (forall f w, F (upd_video_dir f w) = F w) ->
  (forall f w, F (upd_dangling f w) = F w) ->
  keeps F (standard_name <- match standard_name with
                            | None => generate_standard_name_ run (py "unknown")
                            | Some n => ret n
                            end ;;
           move_video_ (r_move_failed run) video_path standard_name false).
Proof.
  intros Hev Hdir Hdang. apply keeps_bind.
  - destruct standard_name; [apply keeps_ret | apply keeps_generate_standard_name].
  - intros n. apply keeps_move_video; assumption.
Qed.

(** The [except] block runs to its end. *)
Lemma except_eq run video_path standard_name error_msg w :
  exists w',
    except_ run video_path standard_name error_msg w = (Ret tt, w')
    /\ w_progress w' =
         reset_to_idle (r_clock run 10)
           (finish (r_clock run 9) false [] 0 0 []
              (set_error (r_clock run 8) error_msg (w_progress w)))
    /\ w_processed w' = w_processed w.
Proof.
  unfold except_.
  rewrite !bind_progress, bind_attempt, bind_emit. unfold progress_.
  eexists. split; [reflexivity|]. world_simpl.
  rewrite (keeps_failed_move w_progress run video_path standard_name) by reflexivity.
  rewrite (keeps_failed_move w_processed run video_path standard_name) by reflexivity.
  split; reflexivity.
Qed.

(** ** One entry for each task *)


Section Tally.
Variable T : list HistoryEntry * Z * Z.






End Tally.

(** When the record cannot be written, [process_video] ends there, with
    the exception: [mark_processed] is called outside the [try]. *)
Lemma process_video_started_mark_raises run video_path filesize_mb w e opened :
  r_mark run = SaveRaises e opened ->
  process_video_started run video_path filesize_mb w
  = (Raise e,
     upd_processed (fun _ => if opened then ∅ else w_processed w)
       (upd_progress (start (r_clock run 1) (name video_path) filesize_mb 0) w)).
Proof.
  intros Hmark. unfold process_video_started.
  rewrite bind_progress, bind_mark_processed, Hmark. reflexivity.
Qed.





(** ** The observable queue *)

(** C10. [remove_from_queue] takes out of the observable queue every
    entry whose file name is the given one, not only the first; the
    entries with another name stay, in their order.  When two tasks with
    the same base name, from different directories, are queued, both
    entries are gone once the first one is taken up, while the second
    task is still to be run. *)
Theorem remove_from_queue_all :
  (forall now filename st,
     let q := _queue (pm st) in
     let q' := _queue (pm (remove_from_queue now filename st)) in
     q' = filter (fun item => q_filename item <> filename) q
     /\ Forall (fun item => q_filename item <> filename) q'
     /\ (forall item, item ∈ q -> q_filename item <> filename -> item ∈ q')
     /\ q' `sublist_of` q
     /\ s_queue <$> last (status_writes (remove_from_queue now filename st)) = Some q')
  /\ (forall run now1 now2 size1 size2 p1 p2 w filesize_mb,
        r_stat run = Ret filesize_mb ->
        name p1 = name p2 ->
        w_q w = [] ->
        let w2 := (add_task (Ret size2) now2 p2 (add_task (Ret size1) now1 p1 w).2).2 in
        let w3 := (worker_turn run w2).2 in
        (exists e1 e2,
           _queue (pm (w_progress w2)) = _queue (pm (w_progress w)) ++ [e1; e2]
           /\ q_filename e1 = name p1 /\ q_filename e2 = name p1)
        /\ w_q w2 = [p1; p2]
        /\ Forall (fun item => q_filename item <> name p1) (_queue (pm (w_progress w3)))
        /\ _queue (pm (w_progress w3))
           = filter (fun item => q_filename item <> name p1) (_queue (pm (w_progress w)))
        /\ w_q w3 = [p2]).
Proof.
  split.
  - intros now filename st. cbv zeta.
    change (_queue (pm (remove_from_queue now filename st)))
      with (filter (fun item => q_filename item <> filename) (_queue (pm st))).
    split; [reflexivity|]. split; [|split; [|split]].
    + apply Forall_forall. intros item Hin.
      apply list_elem_of_filter in Hin. tauto.
    + intros item Hin Hne. apply list_elem_of_filter. tauto.
    + apply sublist_filter.
    + unfold remove_from_queue, _write_status. cbn [status_writes].
      rewrite last_snoc. reflexivity.
  - intros run now1 now2 size1 size2 p1 p2 w filesize_mb Hstat Hname Hq. cbv zeta.
    unfold add_task. rewrite !bind_call, !bind_progress. world_simpl.
    assert (Hfilter : forall q : list QueueItem,
      filter (fun item => q_filename item <> name p1)
        ((q ++ [ {| q_filename := name p1; q_filesize_mb := round1 size1;
                    q_queued_at := strftime_HMS now1 |} ])
           ++ [ {| q_filename := name p2; q_filesize_mb := round1 size2;
                   q_queued_at := strftime_HMS now2 |} ])
      = filter (fun item => q_filename item <> name p1) q).
    { intros q. rewrite !filter_app.
      rewrite !filter_cons_False, !filter_nil, !app_nil_r; cbn [q_filename]; auto. }
    split; [|split; [|split; [|split]]].
    + eexists _, _. split; [|split].
      * unfold add_to_queue, _write_status, assign, with_queue. cbn [pm _queue].
        rewrite <- app_assoc. reflexivity.
      * reflexivity.
      * cbn [q_filename]. congruence.
    + rewrite Hq. reflexivity.
    + unfold worker_turn. world_simpl. rewrite Hq. cbn [app].
      rewrite bind_attempt. cbn [ret snd].
      rewrite (process_video_queue _ _ _ _ Hstat).
      apply Forall_forall. intros item Hin. apply list_elem_of_filter in Hin. tauto.
    + unfold worker_turn. world_simpl. rewrite Hq. cbn [app].
      rewrite bind_attempt. cbn [ret snd].
      rewrite (process_video_queue _ _ _ _ Hstat). world_simpl.
      unfold add_to_queue, _write_status, assign, with_queue. cbn [pm _queue].
      apply Hfilter.
    + unfold worker_turn. world_simpl. rewrite Hq. cbn [app].
      rewrite bind_attempt. cbn [ret snd].
      rewrite process_video_q. reflexivity.
Qed.

Lemma remove_from_queue_all_witness :
  let w2 := (add_task (Ret 30%Q) Examples.noon Examples.downloads_talk
               (add_task (Ret 12%Q) Examples.noon Examples.desktop_talk
                  Examples.empty_world).2).2 in
  length (_queue (pm (w_progress w2))) = 2%nat
  /\ _queue (pm (w_progress (worker_turn Examples.run_extract_fails w2).2)) = [].
Proof.
  cbv zeta.
  destruct (proj2 remove_from_queue_all Examples.run_extract_fails Examples.noon
              Examples.noon 12%Q 30%Q Examples.desktop_talk Examples.downloads_talk
              Examples.empty_world 12%Q eq_refl eq_refl eq_refl)
    as ((e1 & e2 & Hq2 & _) & _ & _ & Hq3 & _).
  rewrite Hq2, Hq3. split; reflexivity.
Defined.

End MainFacts.

(* ================================================================== *)
(** * Facts about the percents a task writes *)
(* ================================================================== *)

Module TraceFacts.
Import Progress FileManager Transcriber Main Trace ProgressFacts MainFacts.
Local Open Scope m_scope.




(** ** The stages of a task *)
















End TraceFacts.

(* ================================================================== *)
(** * More facts about progress.py *)
(* ================================================================== *)

Module ProgressStatesFacts.
Import PyStr PyFloat Progress ProgressStates ProgressFacts.

Lemma stage_info_table (stage : pystr) :
  progress (stage_info stage) ∈ [0; 5; 15; 25; 40; 90; 100].
Proof.
  unfold stage_info. destruct (STAGES !! stage) as [info|] eqn:Hlook; cbn [default].
  - unfold STAGES in Hlook. apply elem_of_list_to_map_2 in Hlook.
    repeat (apply elem_of_cons in Hlook as [Hlook|Hlook];
            [injection Hlook as _ ->; cbn [progress]; set_solver|]).
    inversion Hlook.
  - vm_compute. left.
Qed.

(** X1. The percent is between 0 and 100, whatever the stage is called,
    for every sub-percent of which [int(p * 0.5)] has a value: the product
    makes a float of the sub-percent, which Python refuses for an integer
    beyond the range of floats; below 2^1023 it does not. *)
Theorem compute_progress_range (self : ProgressManager) :
  _transcribe_percent self < 2 ^ 1023 ->
  0 <= _compute_progress self <= 100.
Proof.
  intros _.
  assert (Hbase : 0 <= progress (stage_info (_current_stage self)) <= 100).
  { pose proof (stage_info_table (_current_stage self)) as H.
    repeat (apply elem_of_cons in H as [->|H]; [lia|]). inversion H. }
  destruct (decide (_current_stage self = py "transcribe")) as [Hs|Hs].
  - pose proof (compute_progress_transcribe_range self Hs). lia.
  - rewrite compute_progress_base by tauto. exact Hbase.
Qed.

Lemma compute_progress_range_witness :
  0 <= _compute_progress (pm Examples.transcribing) <= 100.
Proof.
  apply (compute_progress_range (pm Examples.transcribing)).
  apply Z.ltb_lt. vm_compute. reflexivity.
Defined.

(** X2. The history a status document shows is the end of the whole history,
    at most five entries long, and all of it while it has no more than
    five. *)
Theorem status_history_window (now : Clock) (self : ProgressManager) :
  let shown := s_history (status_doc now self) in
  (length shown = Nat.min 5 (length (_history self)))
  /\ (exists older, _history self = older ++ shown)
  /\ ((length (_history self) <= 5)%nat -> shown = _history self)
  /\ (forall entry, last (_history self) = Some entry -> last shown = Some entry).
Proof.
  cbv zeta. cbn [status_doc s_history]. unfold last5.
  set (h := _history self).
  split; [rewrite length_drop; lia|].
  split; [exists (take (length h - 5) h); rewrite take_drop; reflexivity|].
  split.
  - intros Hle. replace (length h - 5)%nat with 0%nat by lia. reflexivity.
  - intros entry Hlast. rewrite last_lookup in Hlast |- *.
    rewrite lookup_drop, length_drop. rewrite <- Hlast. f_equal.
    destruct h; [discriminate Hlast | cbn [length]; lia].
Qed.

Lemma marked_snoc (mark : pystr) (history : list HistoryEntry) (entry : HistoryEntry) :
  marked mark (history ++ [entry])
  = marked mark history ++ (if decide (h_result entry = mark) then [entry] else []).
Proof.
  unfold marked. rewrite filter_app. reflexivity.
Qed.

Lemma last_write (now : Clock) (st : PState) :
  last (status_writes (_write_status now st)) = Some (status_doc now (pm st)).
Proof. unfold _write_status. cbn [status_writes]. apply last_snoc. Qed.

Lemma tick_cross_distinct : py "✅" <> py "❌".
Proof. vm_compute. discriminate. Qed.

(** X3. In every state the singleton can reach from its creation through its
    public methods, the two counters are the numbers of entries of the
    history with the mark of success and with the mark of failure, the
    history has no other entry, and the last document written is the one
    of the current state. *)
Theorem reachable_counts_history (st : PState) :
  reachable st ->
  _total_completed (pm st) = Z.of_nat (length (marked (py "✅") (_history (pm st))))
  /\ _total_failed (pm st) = Z.of_nat (length (marked (py "❌") (_history (pm st))))
  /\ Forall (fun entry => h_result entry = py "✅" \/ h_result entry = py "❌")
            (_history (pm st))
  /\ (exists now, last (status_writes st) = Some (status_doc now (pm st))).
Proof.
  pose proof tick_cross_distinct as Hne.
  induction 1 as [now writes
                 | now filename filesize_mb duration_sec st _ IH
                 | now stage detail transcribe_percent duration_sec st _ IH
                 | now percent detail st _ IH
                 | now success lang segments speakers output_file st _ IH
                 | now error st _ IH
                 | now st _ IH
                 | now filename filesize_mb st _ IH
                 | now filename st _ IH];
    try destruct IH as (Hc & Hf & Hall & _).
  - repeat split; try constructor. exists now; exact (last_write now _).
  - repeat split; try assumption. exists now; exact (last_write now _).
  - repeat split; try assumption. exists now; exact (last_write now _).
  - repeat split; try assumption. exists now; exact (last_write now _).
  - unfold finish. split; [|split; [|split]].
    4: { exists now; exact (last_write now _). }
    all: destruct success;
      cbn [_write_status assign pm _total_completed _total_failed _history h_result].
    all: rewrite ?marked_snoc; cbn [h_result].
    all: repeat match goal with
         | |- context [decide (?a = ?b)] => destruct (decide (a = b)) as [?|?]
         end; try congruence.
    all: rewrite ?length_app, ?app_nil_r; cbn [length]; try lia.
    all: apply Forall_app; split; [exact Hall|]; constructor; [tauto | constructor].
  - repeat split; try assumption. exists now; exact (last_write now _).
  - repeat split; try assumption. exists now; exact (last_write now _).
  - repeat split; try assumption. exists now; exact (last_write now _).
  - repeat split; try assumption. exists now; exact (last_write now _).
Qed.

Lemma reachable_counts_history_witness :
  let st := finish Examples.noon false [] 0 0 []
              (finish Examples.noon true (py "zh") 3 1 (py "2026_1_1_zh_1.md")
                 (start Examples.noon (py "talk.mp4") 12 0 Examples.fresh)) in
  _total_completed (pm st) = 1 /\ _total_failed (pm st) = 1
  /\ length (_history (pm st)) = 2%nat.
Proof.
  cbv zeta.
  destruct (reachable_counts_history
              (finish Examples.noon false [] 0 0 []
                 (finish Examples.noon true (py "zh") 3 1 (py "2026_1_1_zh_1.md")
                    (start Examples.noon (py "talk.mp4") 12 0 Examples.fresh))))
    as (Hc & Hf & _ & _).
  - apply reach_finish, reach_finish, reach_start. exact (reach_init Examples.noon []).
  - split; [exact Hc|]. split; [exact Hf | reflexivity].
Defined.

(** X4. [add_to_queue] puts the file behind the entries already queued, and
    taking it out again leaves the queue as [remove_from_queue] alone
    would: as it was, when the name was not queued before. *)
Theorem add_to_queue_then_remove (now1 now2 : Clock) (filename : pystr)
    (filesize_mb : Q) (st : PState) :
  let q := _queue (pm st) in
  let st1 := add_to_queue now1 filename filesize_mb st in
  (exists item, _queue (pm st1) = q ++ [item] /\ q_filename item = filename)
  /\ _queue (pm (remove_from_queue now2 filename st1))
     = _queue (pm (remove_from_queue now2 filename st))
  /\ (Forall (fun item => q_filename item <> filename) q ->
      _queue (pm (remove_from_queue now2 filename st1)) = q).
Proof.
  cbv zeta.
  assert (Heq : _queue (pm (remove_from_queue now2 filename
                              (add_to_queue now1 filename filesize_mb st)))
                = _queue (pm (remove_from_queue now2 filename st))).
  { cbn [remove_from_queue add_to_queue _write_status assign pm with_queue _queue].
    rewrite filter_app, filter_cons_False, filter_nil, app_nil_r; [reflexivity|].
    cbn [q_filename]. intros H. apply H. reflexivity. }
  split; [|split].
  - eexists. split; [reflexivity|reflexivity].
  - exact Heq.
  - intros Hall. rewrite Heq.
    cbn [remove_from_queue _write_status assign pm with_queue _queue].
    induction Hall as [|item q Hitem _ IH]; [reflexivity|].
    rewrite filter_cons_True by exact Hitem. f_equal. exact IH.
Qed.

Lemma add_to_queue_then_remove_witness :
  _queue (pm (remove_from_queue Examples.noon (py "talk.mp4")
                (add_to_queue Examples.noon (py "talk.mp4") 12 Examples.fresh)))
  = [].
Proof.
  apply (add_to_queue_then_remove Examples.noon Examples.noon (py "talk.mp4") 12
           Examples.fresh).
  constructor.
Defined.

End ProgressStatesFacts.

(* ================================================================== *)
(** * More facts about file_manager.py *)
(* ================================================================== *)

Module NamingFacts.
Import PyStr FileManager PyStrFacts FileManagerFacts.

Section IntStr.
Variable unicode_decimal : N -> option Z.

Lemma to_ascii_uint_chars (u : Decimal.uint) (rest r : pystr) :
  to_ascii unicode_decimal rest = Some r ->
  to_ascii unicode_decimal (uint_chars u ++ rest) = Some (uint_chars u ++ r).
Proof.
  intros Hrest. induction u; cbn [uint_chars app to_ascii]; try exact Hrest;
    rewrite IHu; reflexivity.
Qed.

(** Reading digits that follow a part already read as [acc]. *)
Lemma digits_acc (u : Decimal.uint) : forall acc : positive,
  digits (uint_chars u) (Z.pos acc) true = Some (Z.pos (Pos.of_uint_acc u acc)).
Proof.
  induction u; intros acc; cbn [uint_chars Pos.of_uint_acc];
    [reflexivity | cbn [digits ascii_digit]; cbn; rewrite <- IHu; f_equal; lia ..].
Qed.

Lemma digits_uint (u : Decimal.uint) : forall after_digit : bool,
  u <> Decimal.Nil \/ after_digit = true ->
  digits (uint_chars u) 0 after_digit = Some (Z.of_N (Pos.of_uint u)).
Proof.
  induction u; intros after_digit Hne; cbn [uint_chars Pos.of_uint].
  - destruct Hne as [Hne| ->]; [congruence | reflexivity].
  - cbn [digits]. cbn. apply IHu. right. reflexivity.
  - cbn [digits]. cbn. apply (digits_acc u 1).
  - cbn [digits]. cbn. apply (digits_acc u 2).
  - cbn [digits]. cbn. apply (digits_acc u 3).
  - cbn [digits]. cbn. apply (digits_acc u 4).
  - cbn [digits]. cbn. apply (digits_acc u 5).
  - cbn [digits]. cbn. apply (digits_acc u 6).
  - cbn [digits]. cbn. apply (digits_acc u 7).
  - cbn [digits]. cbn. apply (digits_acc u 8).
  - cbn [digits]. cbn. apply (digits_acc u 9).
Qed.

Lemma skip_spaces_uint_chars (u : Decimal.uint) :
  skip_spaces (uint_chars u) = uint_chars u.
Proof. destruct u; reflexivity. Qed.

Lemma to_int_nonnil (n : Z) :
  match Z.to_int n with Decimal.Pos u | Decimal.Neg u => u <> Decimal.Nil end.
Proof.
  destruct n as [|p|p]; cbn [Z.to_int]; [discriminate | apply Unsigned.to_uint_nonnil ..].
Qed.

(** [int(str(n))] is [n]. *)
Lemma py_int_str_of_int (n : Z) : py_int unicode_decimal (str_of_int n) = Some n.
Proof.
  unfold py_int, str_of_int.
  pose proof (to_int_nonnil n) as Hne. pose proof (DecimalZ.of_to n) as Hof.
  destruct (Z.to_int n) as [u|u]; cbn [Z.of_int] in Hof; unfold Z.of_uint in Hof.
  - rewrite <- (app_nil_r (uint_chars u)).
    rewrite (to_ascii_uint_chars u [] [] eq_refl), app_nil_r, skip_spaces_uint_chars.
    destruct u; try congruence; cbn [uint_chars];
      match goal with |- context [(?c =? 45)%N] => change (c =? 45)%N with false end;
      match goal with |- context [(?c =? 43)%N] => change (c =? 43)%N with false end;
      cbv iota.
    all: match goal with |- digits (?c :: uint_chars ?v) 0 false = _ =>
           first [ change (c :: uint_chars v) with (uint_chars (Decimal.D0 v))
                 | change (c :: uint_chars v) with (uint_chars (Decimal.D1 v))
                 | change (c :: uint_chars v) with (uint_chars (Decimal.D2 v))
                 | change (c :: uint_chars v) with (uint_chars (Decimal.D3 v))
                 | change (c :: uint_chars v) with (uint_chars (Decimal.D4 v))
                 | change (c :: uint_chars v) with (uint_chars (Decimal.D5 v))
                 | change (c :: uint_chars v) with (uint_chars (Decimal.D6 v))
                 | change (c :: uint_chars v) with (uint_chars (Decimal.D7 v))
                 | change (c :: uint_chars v) with (uint_chars (Decimal.D8 v))
                 | change (c :: uint_chars v) with (uint_chars (Decimal.D9 v)) ] end.
    all: rewrite digits_uint by (left; discriminate); congruence.
  - assert (Hasc : to_ascii unicode_decimal (45%N :: uint_chars u)
                   = Some (45%N :: uint_chars u)).
    { change (45%N :: uint_chars u) with ([45%N] ++ uint_chars u) at 1.
      cbn [app to_ascii]. change (45 <? 127)%N with true. cbv iota.
      rewrite <- (app_nil_r (uint_chars u)) at 1.
      rewrite (to_ascii_uint_chars u [] [] eq_refl), app_nil_r. reflexivity. }
    rewrite Hasc. cbn [skip_spaces]. change (ascii_space 45) with false. cbv iota.
    change (45 =? 45)%N with true. cbv iota.
    rewrite digits_uint by (left; exact Hne). cbn [fmap option_fmap option_map].
    congruence.
Qed.

End IntStr.

Section Naming.
Variable unicode_decimal : N -> option Z.

Lemma indexed_lt_next date lang VIDEO_DIR f idx :
  f ∈ VIDEO_DIR ->
  indexed unicode_decimal (name_prefix date lang) f idx ->
  idx < get_next_index unicode_decimal date lang VIDEO_DIR.
Proof.
  intros Hf Hidx. unfold get_next_index.
  set (existing := fold_left (scan_entry unicode_decimal (name_prefix date lang))
                     VIDEO_DIR []).
  assert (Hin : idx ∈ existing).
  { unfold existing. apply scan_indexed. right. eauto. }
  destruct (max_default_spec existing 0) as [[Hnil _]|[_ Hall]].
  - rewrite Hnil in Hin. inversion Hin.
  - specialize (Hall idx Hin). lia.
Qed.

Lemma generate_standard_name_eq lang date VIDEO_DIR :
  generate_standard_name unicode_decimal lang date VIDEO_DIR
  = name_prefix date lang
      ++ str_of_int (get_next_index unicode_decimal date lang VIDEO_DIR).
Proof.
  unfold generate_standard_name, name_prefix. rewrite <- !app_assoc. reflexivity.
Qed.

Lemma str_of_int_head (n : Z) :
  exists c rest, str_of_int n = c :: rest /\ c <> 102%N.
Proof.
  unfold str_of_int. pose proof (to_int_nonnil n) as Hne.
  destruct (Z.to_int n) as [u|u].
  - destruct u; try congruence; cbn [uint_chars]; eexists _, _; (split; [reflexivity|]);
      discriminate.
  - eexists _, _. split; [reflexivity | discriminate].
Qed.

Lemma startswith_fail_head (c : N) (s : pystr) :
  c <> 102%N -> startswith (c :: s) (py "fail_") = false.
Proof.
  intros Hc. change (py "fail_") with [102; 97; 105; 108; 95]%N. cbn [startswith].
  destruct (N.eqb_spec 102 c) as [<-|_]; [congruence | reflexivity].
Qed.

(** A leading [fail_] is all that [get_next_index] takes off a generated
    name. *)
Lemma strip_fail_generated lang date VIDEO_DIR (success : bool) :
  let standard_name := generate_standard_name unicode_decimal lang date VIDEO_DIR in
  strip_fail (if success then standard_name else py "fail_" ++ standard_name)
  = standard_name.
Proof.
  cbv zeta. unfold strip_fail. destruct success.
  - rewrite generate_standard_name_eq at 1. unfold name_prefix.
    destruct (str_of_int_head (year date)) as (c & rest & -> & Hc).
    cbn [app]. rewrite (startswith_fail_head c _ Hc). reflexivity.
  - assert (Hsw : startswith (py "fail_" ++ generate_standard_name unicode_decimal lang date
                                               VIDEO_DIR) (py "fail_") = true)
      by (apply startswith_spec; eauto).
    rewrite Hsw. reflexivity.
Qed.

(** No entry carries the index of the generated name. *)
Lemma generated_name_not_stripped lang date VIDEO_DIR f :
  f ∈ VIDEO_DIR ->
  strip_fail (stem f) <> generate_standard_name unicode_decimal lang date VIDEO_DIR.
Proof.
  intros Hf. rewrite generate_standard_name_eq. intros Heq.
  apply (Z.lt_irrefl (get_next_index unicode_decimal date lang VIDEO_DIR)).
  apply (indexed_lt_next date lang VIDEO_DIR f); [exact Hf|].
  eexists. split; [exact Heq | apply py_int_str_of_int].
Qed.

(** X5. The generated name is not in use: no entry of the directory has it as
    its stem, with or without the mark of failure. *)
Theorem generate_standard_name_unused lang date VIDEO_DIR f :
  f ∈ VIDEO_DIR ->
  let standard_name := generate_standard_name unicode_decimal lang date VIDEO_DIR in
  stem f <> standard_name /\ stem f <> py "fail_" ++ standard_name.
Proof.
  intros Hf. cbv zeta.
  pose proof (generated_name_not_stripped lang date VIDEO_DIR f Hf) as Hstrip.
  split; intros Heq; apply Hstrip; rewrite Heq.
  - exact (strip_fail_generated lang date VIDEO_DIR true).
  - exact (strip_fail_generated lang date VIDEO_DIR false).
Qed.

Lemma max_default_same (l l' : list Z) (d : Z) :
  (forall x, x ∈ l <-> x ∈ l') -> max_default l d = max_default l' d.
Proof.
  intros Hsame.
  destruct (max_default_spec l d) as [[Hnil Hmax]|[Hmem Hall]],
           (max_default_spec l' d) as [[Hnil' Hmax']|[Hmem' Hall']].
  - congruence.
  - exfalso. subst l. apply Hsame in Hmem'. inversion Hmem'.
  - exfalso. subst l'. apply Hsame in Hmem. inversion Hmem.
  - apply Z.le_antisymm; [apply Hall', Hsame, Hmem | apply Hall, Hsame, Hmem'].
Qed.

(** X6. The next index does not depend on the order in which the directory
    lists its entries, nor on how often it lists one. *)
Theorem get_next_index_same_entries date lang (VIDEO_DIR VIDEO_DIR' : list pystr) :
  (forall f, f ∈ VIDEO_DIR <-> f ∈ VIDEO_DIR') ->
  get_next_index unicode_decimal date lang VIDEO_DIR
  = get_next_index unicode_decimal date lang VIDEO_DIR'.
Proof.
  intros Hsame. unfold get_next_index. f_equal. apply max_default_same.
  intros idx. rewrite !scan_indexed. split; intros [H|(f & Hf & Hidx)];
    try (inversion H; fail); right; exists f; (split; [apply Hsame; exact Hf | exact Hidx]).
Qed.

End Naming.

Lemma generate_standard_name_unused_witness :
  let standard_name :=
    generate_standard_name ascii_digit (py "zh") {| year := 2026; month := 1; day := 1 |}
      [py "2026_1_1_zh_1.mp4"; py "fail_2026_1_1_zh_2.mov"] in
  stem (py "fail_2026_1_1_zh_2.mov") <> standard_name
  /\ stem (py "fail_2026_1_1_zh_2.mov") <> py "fail_" ++ standard_name.
Proof.
  apply (generate_standard_name_unused ascii_digit (py "zh")
           {| year := 2026; month := 1; day := 1 |}
           [py "2026_1_1_zh_1.mp4"; py "fail_2026_1_1_zh_2.mov"]).
  right. left.
Defined.

Lemma get_next_index_same_entries_witness :
  get_next_index ascii_digit {| year := 2026; month := 1; day := 1 |} (py "zh")
    [py "2026_1_1_zh_1.mp4"; py "2026_1_1_zh_4.mp4"]
  = get_next_index ascii_digit {| year := 2026; month := 1; day := 1 |} (py "zh")
      [py "2026_1_1_zh_4.mp4"; py "2026_1_1_zh_1.mp4"; py "2026_1_1_zh_4.mp4"].
Proof.
  apply (get_next_index_same_entries ascii_digit). intros f.
  rewrite !elem_of_cons. tauto.
Defined.

Section Dest.
Variable VIDEO_DIR : list pystr.
Variable dangling : gset pystr.
Variables stemname ext : pystr.

Lemma free_dest_first : forall fuel dest counter,
  free_dest fuel VIDEO_DIR dangling stemname ext dest counter = dest
  \/ (exists k,
        counter <= k
        /\ free_dest fuel VIDEO_DIR dangling stemname ext dest counter
           = candidate stemname ext k
        /\ exists_ VIDEO_DIR dangling dest = true
        /\ (forall j, counter <= j < k ->
              exists_ VIDEO_DIR dangling (candidate stemname ext j) = true)).
Proof.
  induction fuel as [|fuel IH]; intros dest counter; cbn [free_dest].
  - left. reflexivity.
  - destruct (exists_ VIDEO_DIR dangling dest) eqn:Hin; [|left; reflexivity].
    right. destruct (IH (candidate stemname ext counter) (counter + 1)) as [Heq|Hk].
    + exists counter. rewrite Heq. repeat split; [lia | intros j Hj; lia].
    + destruct Hk as (k & Hle & Hres & Hcand & Hbelow).
      exists k. repeat split; [lia | exact Hres |].
      intros j Hj. destruct (Z.eq_dec j counter) as [->|Hne]; [exact Hcand|].
      apply Hbelow. lia.
Qed.

End Dest.

(** X7. [move_video] puts the file under the first name among
    [{name}{ext}], [{name}_1{ext}], [{name}_2{ext}], ..., of which
    [exists] is false, where [{name}] is the standard name, after [fail_]
    for a failure.  That is a name no entry of the directory has, or the
    name of an entry that is a link to nothing, which the move then
    replaces; in a directory without such links it is not the name of an
    entry. *)
Theorem move_video_dest_first (src : Path) (standard_name : pystr) (success : bool)
    (VIDEO_DIR : list pystr) (dangling : gset pystr) :
  let ext := suffix (name src) in
  let stemname := if success then standard_name else py "fail_" ++ standard_name in
  let dest := move_video_dest src standard_name success VIDEO_DIR dangling in
  exists_ VIDEO_DIR dangling dest = false
  /\ ((dest ∉ VIDEO_DIR) \/ dest ∈ dangling)
  /\ ((forall entry, entry ∈ VIDEO_DIR -> entry ∉ dangling) -> dest ∉ VIDEO_DIR)
  /\ (dest = stemname ++ ext
      \/ (exists k,
            1 <= k /\ dest = candidate stemname ext k
            /\ exists_ VIDEO_DIR dangling (stemname ++ ext) = true
            /\ (forall j, 1 <= j < k ->
                  exists_ VIDEO_DIR dangling (candidate stemname ext j) = true))).
Proof.
  cbv zeta.
  pose proof (move_video_dest_fresh src standard_name success VIDEO_DIR dangling) as Hfresh.
  split; [exact Hfresh|].
  apply exists_false_iff in Hfresh.
  split; [exact Hfresh|]. split.
  - intros Hnone. destruct Hfresh as [Hnot|Hdang]; [exact Hnot|].
    intros Hin. exact (Hnone _ Hin Hdang).
  - unfold move_video_dest. apply free_dest_first.
Qed.

(** ** Names without a dot *)

Lemma rfind_dot_none (s : pystr) : 46%N ∉ s -> rfind_dot s = None.
Proof.
  induction s as [|c s IH]; intros Hno; cbn [rfind_dot]; [reflexivity|].
  rewrite IH by (intros H; apply Hno; right; exact H).
  destruct (N.eqb_spec c 46) as [->|_]; [|reflexivity].
  exfalso. apply Hno. left.
Qed.

Lemma rfind_dot_none_inv (s : pystr) : rfind_dot s = None -> 46%N ∉ s.
Proof.
  induction s as [|c s IH]; cbn [rfind_dot]; intros Hr Hin; [inversion Hin|].
  destruct (rfind_dot s) as [i|]; [discriminate|].
  destruct (N.eqb_spec c 46) as [->|Hc]; [discriminate|].
  apply elem_of_cons in Hin as [Heq|Hin]; [congruence | exact (IH eq_refl Hin)].
Qed.

Lemma rfind_dot_app (s t : pystr) (i : nat) :
  rfind_dot t = Some i -> rfind_dot (s ++ t) = Some (length s + i)%nat.
Proof.
  intros Ht. induction s as [|c s IH]; cbn [app rfind_dot length]; [exact Ht|].
  rewrite IH. reflexivity.
Qed.

Lemma rfind_dot_drop (x : pystr) : forall i,
  rfind_dot x = Some i ->
  exists rest, drop i x = 46%N :: rest /\ rfind_dot rest = None
               /\ length x = (i + 1 + length rest)%nat.
Proof.
  induction x as [|c x IH]; intros i; cbn [rfind_dot]; [discriminate|].
  destruct (rfind_dot x) as [j|] eqn:Hx.
  - intros [= <-]. destruct (IH j eq_refl) as (rest & Hd & Hr & Hl).
    exists rest. cbn [drop length]. split; [exact Hd|]. split; [exact Hr | lia].
  - destruct (N.eqb_spec c 46) as [->|_]; [|discriminate].
    intros [= <-]. exists x. cbn [drop length]. split; [reflexivity|]. split; [exact Hx | lia].
Qed.

(** A suffix is empty, or a dot followed by at least one character, none
    of them a dot. *)
Lemma suffix_shape (x : pystr) :
  suffix x = [] \/ exists rest, suffix x = 46%N :: rest /\ rest <> [] /\ 46%N ∉ rest.
Proof.
  unfold suffix. destruct (rfind_dot x) as [i|] eqn:Hx; [|left; reflexivity].
  destruct ((0 <? i)%nat && (i <? length x - 1)%nat) eqn:Hcond; [|left; reflexivity].
  right. destruct (rfind_dot_drop x i Hx) as (rest & Hd & Hr & Hl).
  exists rest. split; [exact Hd|]. split; [|apply rfind_dot_none_inv, Hr].
  apply andb_prop in Hcond as [_ Hlt]. apply Nat.ltb_lt in Hlt.
  intros ->. cbn [length] in Hl. lia.
Qed.

(** A name without a dot is the stem of what it gives with a suffix. *)
Lemma stem_app_suffix (s x : pystr) :
  s <> [] -> 46%N ∉ s -> stem (s ++ suffix x) = s.
Proof.
  intros Hne Hno. unfold stem.
  destruct (suffix_shape x) as [-> | (rest & -> & Hrest & Hnodot)].
  - rewrite app_nil_r, rfind_dot_none by exact Hno. reflexivity.
  - rewrite (rfind_dot_app s (46%N :: rest) 0).
    2: { cbn [rfind_dot]. rewrite rfind_dot_none by exact Hnodot. reflexivity. }
    rewrite Nat.add_0_r, length_app. cbn [length].
    assert (Hs : (0 < length s)%nat) by (destruct s; [congruence | cbn [length]; lia]).
    assert (Hr : (0 < length rest)%nat) by (destruct rest; [congruence | cbn [length]; lia]).
    destruct (Nat.ltb_spec 0 (length s)) as [_|?]; [|lia].
    destruct (Nat.ltb_spec (length s) (length s + S (length rest) - 1)) as [_|?]; [|lia].
    cbn [andb]. rewrite take_app_length. reflexivity.
Qed.

Lemma uint_chars_no_dot (u : Decimal.uint) : 46%N ∉ uint_chars u.
Proof.
  induction u; cbn [uint_chars]; intros Hin;
    [inversion Hin | apply elem_of_cons in Hin as [Heq|Hin]; [discriminate Heq | tauto] ..].
Qed.

Lemma str_of_int_no_dot (n : Z) : 46%N ∉ str_of_int n.
Proof.
  unfold str_of_int. destruct (Z.to_int n) as [u|u].
  - apply uint_chars_no_dot.
  - intros Hin. apply elem_of_cons in Hin as [Heq|Hin]; [discriminate Heq|].
    exact (uint_chars_no_dot u Hin).
Qed.

Lemma no_dot_app (a b : pystr) : 46%N ∉ a -> 46%N ∉ b -> 46%N ∉ a ++ b.
Proof. intros Ha Hb H. apply elem_of_app in H as [H|H]; tauto. Qed.

Section Stored.
Variable unicode_decimal : N -> option Z.

Lemma generate_standard_name_no_dot lang date VIDEO_DIR :
  46%N ∉ lang ->
  46%N ∉ generate_standard_name unicode_decimal lang date VIDEO_DIR.
Proof.
  intros Hlang. unfold generate_standard_name.
  assert (Hu : 46%N ∉ py "_").
  { change (py "_") with [95%N]. intros H.
    apply elem_of_cons in H as [H|H]; [discriminate H | inversion H]. }
  repeat (apply no_dot_app; [first [apply str_of_int_no_dot | exact Hu | exact Hlang]|]).
  apply str_of_int_no_dot.
Qed.

Lemma generate_standard_name_nonempty lang date VIDEO_DIR :
  generate_standard_name unicode_decimal lang date VIDEO_DIR <> [].
Proof.
  unfold generate_standard_name. destruct (str_of_int_head (year date)) as (c & rest & -> & _).
  discriminate.
Qed.

(** The name under which the source is stored when the standard name was
    generated on the same directory. *)
Lemma move_video_dest_generated (lang : pystr) (date : Date) (src : Path)
    (success : bool) (VIDEO_DIR : list pystr) (dangling : gset pystr) :
  46%N ∉ lang ->
  let standard_name := generate_standard_name unicode_decimal lang date VIDEO_DIR in
  let stemname := if success then standard_name else py "fail_" ++ standard_name in
  move_video_dest src standard_name success VIDEO_DIR dangling
  = stemname ++ suffix (name src)
  /\ stem (stemname ++ suffix (name src)) = stemname
  /\ (stemname ++ suffix (name src) ∉ VIDEO_DIR).
Proof.
  intros Hlang. cbv zeta.
  set (standard_name := generate_standard_name unicode_decimal lang date VIDEO_DIR).
  set (stemname := if success then standard_name else py "fail_" ++ standard_name).
  assert (Hstem : stem (stemname ++ suffix (name src)) = stemname).
  { apply stem_app_suffix.
    - unfold stemname. destruct success; [apply generate_standard_name_nonempty|].
      discriminate.
    - unfold stemname. destruct success; [apply generate_standard_name_no_dot, Hlang|].
      rewrite elem_of_app. intros [H|H].
      + vm_compute in H. repeat (apply elem_of_cons in H as [H|H]; [discriminate H|]).
        inversion H.
      + exact (generate_standard_name_no_dot lang date VIDEO_DIR Hlang H). }
  assert (Hnew : stemname ++ suffix (name src) ∉ VIDEO_DIR).
  { intros Hin.
    apply (generated_name_not_stripped unicode_decimal lang date VIDEO_DIR _ Hin).
    rewrite Hstem.
    exact (strip_fail_generated unicode_decimal lang date VIDEO_DIR success). }
  split; [|split; [exact Hstem | exact Hnew]].
  unfold move_video_dest. fold standard_name. fold stemname.
  destruct (free_dest_first VIDEO_DIR dangling stemname (suffix (name src))
              (S (length VIDEO_DIR)) (stemname ++ suffix (name src)) 1)
    as [Heq | (k & _ & _ & Hin & _)]; [exact Heq|].
  exfalso. apply exists_listed in Hin. exact (Hnew Hin).
Qed.

Lemma indexed_generated lang date VIDEO_DIR (success : bool) (ext : pystr) :
  let standard_name := generate_standard_name unicode_decimal lang date VIDEO_DIR in
  let stemname := if success then standard_name else py "fail_" ++ standard_name in
  forall dest, stem dest = stemname ->
  indexed unicode_decimal (name_prefix date lang) dest
    (get_next_index unicode_decimal date lang VIDEO_DIR).
Proof.
  cbv zeta. intros dest Hstem. unfold indexed. rewrite Hstem.
  exists (str_of_int (get_next_index unicode_decimal date lang VIDEO_DIR)).
  split; [|apply py_int_str_of_int].
  rewrite <- generate_standard_name_eq.
  exact (strip_fail_generated unicode_decimal lang date VIDEO_DIR success).
Qed.

Lemma indexed_functional prefix f i j :
  indexed unicode_decimal prefix f i -> indexed unicode_decimal prefix f j -> i = j.
Proof.
  intros Hi Hj.
  destruct (scan_entry_indexed unicode_decimal prefix [] f) as [[_ Hnone]|(k & _ & Hk)].
  - destruct (Hnone i Hi).
  - apply Hk in Hi, Hj. congruence.
Qed.

End Stored.

(** X8. In a run of [process_video] the source is stored under the name just
    generated, as it is: for a language tag without a dot, [move_video]
    finds the name free, with the suffix of the source and after [fail_]
    for a failure, and needs no counter, whichever entries of the
    directory are links to nothing; and once the file is there, the next
    index for that date and language is one more. *)
Theorem get_next_index_after_move (unicode_decimal : N -> option Z) (lang : pystr)
    (date : Date) (src : Path) (success : bool) (VIDEO_DIR : list pystr)
    (dangling : gset pystr) :
  46%N ∉ lang ->
  let standard_name := generate_standard_name unicode_decimal lang date VIDEO_DIR in
  let stemname := if success then standard_name else py "fail_" ++ standard_name in
  let dest := move_video_dest src standard_name success VIDEO_DIR dangling in
  dest = stemname ++ suffix (name src)
  /\ (dest ∉ VIDEO_DIR)
  /\ put dest VIDEO_DIR = VIDEO_DIR ++ [dest]
  /\ get_next_index unicode_decimal date lang (VIDEO_DIR ++ [dest])
     = get_next_index unicode_decimal date lang VIDEO_DIR + 1.
Proof.
  intros Hlang. cbv zeta.
  destruct (move_video_dest_generated unicode_decimal lang date src success VIDEO_DIR
              dangling Hlang)
    as (Hdest & Hstem & Hnew).
  cbv zeta in Hdest, Hstem, Hnew. split; [exact Hdest|]. rewrite Hdest.
  split; [exact Hnew|].
  split; [unfold put; rewrite bool_decide_eq_false_2 by exact Hnew; reflexivity|].
  set (dest := (if success then _ else _) ++ suffix (name src)) in *.
  pose proof (indexed_generated unicode_decimal lang date VIDEO_DIR success
                (suffix (name src)) dest Hstem) as Hidx.
  set (next := get_next_index unicode_decimal date lang VIDEO_DIR) in *.
  unfold get_next_index at 1.
  set (existing := fold_left _ (VIDEO_DIR ++ [dest]) []).
  assert (Hex : forall idx, idx ∈ existing <-> idx = next \/ (exists f, f ∈ VIDEO_DIR
                  /\ indexed unicode_decimal (name_prefix date lang) f idx)).
  { intros idx. unfold existing. rewrite scan_indexed. split.
    - intros [H|(f & Hf & Hi)]; [inversion H|].
      apply elem_of_app in Hf as [Hf|Hf]; [right; eauto|].
      apply elem_of_cons in Hf as [->|Hf]; [|inversion Hf].
      left. exact (indexed_functional unicode_decimal _ _ _ _ Hi Hidx).
    - intros [->|(f & Hf & Hi)]; right.
      + exists dest. split; [apply elem_of_app; right; left | exact Hidx].
      + exists f. split; [apply elem_of_app; left; exact Hf | exact Hi]. }
  f_equal.
  destruct (max_default_spec existing 0) as [[Hnil _]|[Hmem Hall]].
  - exfalso. assert (H : next ∈ existing) by (apply Hex; left; reflexivity).
    rewrite Hnil in H. inversion H.
  - apply Hex in Hmem as [Heq|(f & Hf & Hi)]; [exact Heq|].
    pose proof (indexed_lt_next unicode_decimal date lang VIDEO_DIR f _ Hf Hi) as Hlt.
    fold next in Hlt.
    assert (Hle : next <= max_default existing 0) by (apply Hall, Hex; left; reflexivity).
    lia.
Qed.

Lemma get_next_index_after_move_witness :
  move_video_dest Examples.desktop_talk (py "2026_1_1_zh_2") true [py "2026_1_1_zh_1.mp4"] ∅
  = py "2026_1_1_zh_2.mp4"
  /\ get_next_index ascii_digit {| year := 2026; month := 1; day := 1 |} (py "zh")
       [py "2026_1_1_zh_1.mp4"; py "2026_1_1_zh_2.mp4"]
     = 3.
Proof.
  assert (Hlang : 46%N ∉ py "zh").
  { intros H. apply elem_of_cons in H as [H|H]; [discriminate H|].
    apply elem_of_cons in H as [H|H]; [discriminate H | inversion H]. }
  pose proof (get_next_index_after_move ascii_digit (py "zh")
                {| year := 2026; month := 1; day := 1 |} Examples.desktop_talk true
                [py "2026_1_1_zh_1.mp4"] ∅ Hlang) as H.
  cbv zeta in H. destruct H as (Hdest & _ & _ & Hnext).
  split; [exact Hdest | exact Hnext].
Defined.

(** ** Names with a counter *)

Lemma digits_digit (c : N) (d : Z) (s : pystr) (acc : Z) (after_digit : bool) :
  ascii_digit c = Some d -> digits (c :: s) acc after_digit = digits s (10 * acc + d) true.
Proof. intros Hc. cbn [digits]. rewrite Hc. reflexivity. Qed.

(** The first character of a numeral is a digit. *)
Lemma uint_chars_head (u : Decimal.uint) :
  u <> Decimal.Nil ->
  exists c d s, uint_chars u = c :: s /\ ascii_digit c = Some d.
Proof.
  intros Hne. destruct u; [congruence | cbn [uint_chars]; eexists _, _, _; split;
                           reflexivity ..].
Qed.

(** After a digit, the digits of a numeral shift what was read to the
    left. *)
Lemma digits_shift (u : Decimal.uint) :
  exists v0,
    forall acc, digits (uint_chars u) acc true
                = Some (acc * 10 ^ Z.of_nat (length (uint_chars u)) + v0).
Proof.
  induction u as [|u [v0 IH]|u [v0 IH]|u [v0 IH]|u [v0 IH]|u [v0 IH]|u [v0 IH]
                  |u [v0 IH]|u [v0 IH]|u [v0 IH]|u [v0 IH]];
    cbn [uint_chars length].
  { exists 0. intros acc. cbn [digits]. f_equal. change (Z.of_nat 0) with 0. lia. }
  all: match goal with
       | |- exists _, forall _, digits (?c :: _) _ _ = _ =>
         exists ((Z.of_N c - 48) * 10 ^ Z.of_nat (length (uint_chars u)) + v0);
         intros acc; rewrite (digits_digit c (Z.of_N c - 48)) by reflexivity;
         rewrite IH, Nat2Z.inj_succ, Z.pow_succ_r by lia; f_equal; lia
       end.
Qed.

(** What follows a numeral is read with the value of the numeral. *)
Lemma digits_app (u : Decimal.uint) (rest : pystr) : forall acc,
  digits (uint_chars u ++ rest) acc true
  = match digits (uint_chars u) acc true with
    | Some v => digits rest v true
    | None => None
    end.
Proof.
  induction u; intros acc; cbn [uint_chars app]; [reflexivity|..];
    match goal with
    | |- digits (?c :: _) _ _ = _ =>
      rewrite !(digits_digit c (Z.of_N c - 48)) by reflexivity; apply IHu
    end.
Qed.

(** An underscore between two digits is skipped. *)
Lemma digits_underscore (u : Decimal.uint) (acc : Z) :
  u <> Decimal.Nil ->
  digits (95%N :: uint_chars u) acc true = digits (uint_chars u) acc true.
Proof.
  intros Hne. destruct (uint_chars_head u Hne) as (c & d & s & -> & Hc).
  cbn [digits]. change (ascii_digit 95) with (@None Z). cbv iota.
  change (95 =? 95)%N with true. cbv iota. rewrite Hc. reflexivity.
Qed.

Lemma str_of_int_nonneg (n : Z) :
  0 <= n -> exists u, str_of_int n = uint_chars u /\ u <> Decimal.Nil.
Proof.
  intros Hn. unfold str_of_int. pose proof (to_int_nonnil n) as Hne.
  destruct n as [|p|p]; [| |lia]; cbn [Z.to_int] in *; eauto.
Qed.

Lemma strip_fail_keep (s : pystr) :
  (exists c rest, s = c :: rest /\ c <> 102%N) -> strip_fail s = s.
Proof.
  intros (c & rest & -> & Hc). unfold strip_fail.
  rewrite (startswith_fail_head c _ Hc). reflexivity.
Qed.

Lemma strip_fail_drop (s : pystr) : strip_fail (py "fail_" ++ s) = s.
Proof.
  unfold strip_fail.
  assert (Hsw : startswith (py "fail_" ++ s) (py "fail_") = true)
    by (apply startswith_spec; eauto).
  rewrite Hsw. reflexivity.
Qed.

Section Counter.
Variable unicode_decimal : N -> option Z.

(** [int] reads two numbers joined by an underscore as one number with
    the digits of both. *)
Lemma py_int_joined (i k : Z) :
  0 <= i -> 0 <= k ->
  py_int unicode_decimal (str_of_int i ++ py "_" ++ str_of_int k)
  = Some (i * 10 ^ Z.of_nat (length (str_of_int k)) + k).
Proof.
  intros Hi Hk.
  pose proof (py_int_str_of_int unicode_decimal i) as Ri.
  pose proof (py_int_str_of_int unicode_decimal k) as Rk.
  destruct (str_of_int_nonneg i Hi) as (u & Hsu & Hu).
  destruct (str_of_int_nonneg k Hk) as (v & Hsv & Hv).
  rewrite Hsu in *. rewrite Hsv in *. clear Hsu Hsv.
  change (py "_") with [95%N]. cbn [app].
  assert (Hread : forall w, w <> Decimal.Nil -> forall n,
            py_int unicode_decimal (uint_chars w) = Some n ->
            digits (uint_chars w) 0 true = Some n).
  { intros w Hw n. unfold py_int.
    rewrite <- (app_nil_r (uint_chars w)) at 1.
    rewrite (to_ascii_uint_chars unicode_decimal w [] [] eq_refl), app_nil_r,
      skip_spaces_uint_chars.
    destruct (uint_chars_head w Hw) as (c & d & s & Hw' & Hc). rewrite Hw'.
    assert (H45 : (c =? 45)%N = false).
    { destruct (N.eqb_spec c 45) as [->|]; [discriminate Hc | reflexivity]. }
    assert (H43 : (c =? 43)%N = false).
    { destruct (N.eqb_spec c 43) as [->|]; [discriminate Hc | reflexivity]. }
    rewrite H45, H43, !(digits_digit c d) by exact Hc. auto. }
  apply (Hread u Hu) in Ri. apply (Hread v Hv) in Rk.
  destruct (digits_shift v) as [v0 Hshift].
  assert (Hv0 : v0 = k) by (rewrite Hshift in Rk; injection Rk as Rk; lia).
  unfold py_int.
  rewrite (to_ascii_uint_chars unicode_decimal u (95%N :: uint_chars v)
             (95%N :: uint_chars v)).
  2: { cbn [to_ascii]. change (95 <? 127)%N with true. cbv iota.
       rewrite <- (app_nil_r (uint_chars v)).
       rewrite (to_ascii_uint_chars unicode_decimal v [] [] eq_refl). reflexivity. }
  destruct (uint_chars_head u Hu) as (c & d & s & Hu' & Hc).
  assert (Hskip : skip_spaces (uint_chars u ++ 95%N :: uint_chars v)
                  = uint_chars u ++ 95%N :: uint_chars v).
  { rewrite Hu'. cbn [app skip_spaces].
    assert (Hsp : ascii_space c = false).
    { unfold ascii_digit in Hc. unfold ascii_space.
      destruct (N.leb_spec 48 c), (N.leb_spec c 57); try discriminate Hc.
      destruct (N.leb_spec 9 c), (N.leb_spec c 13), (N.eqb_spec c 32); cbn; try lia;
        reflexivity. }
    rewrite Hsp. reflexivity. }
  rewrite Hskip.
  assert (Hfirst : exists s', uint_chars u ++ 95%N :: uint_chars v = c :: s')
    by (rewrite Hu'; eexists; reflexivity).
  destruct Hfirst as [s' Hs']. rewrite Hs'.
  assert (H45 : (c =? 45)%N = false).
  { destruct (N.eqb_spec c 45) as [->|]; [discriminate Hc | reflexivity]. }
  assert (H43 : (c =? 43)%N = false).
  { destruct (N.eqb_spec c 43) as [->|]; [discriminate Hc | reflexivity]. }
  rewrite H45, H43, (digits_digit c d s' 0 false Hc),
    <- (digits_digit c d s' 0 true Hc), <- Hs'.
  rewrite digits_app, Ri, (digits_underscore v i Hv), Hshift, Hv0. reflexivity.
Qed.

(** X9. A file stored under a name with a counter counts, for the next index,
    as carrying the digits of the index and of the counter together,
    because [int] accepts an underscore between digits: with
    [{prefix}{i}_{k}{ext}], or the same behind [fail_], in the directory
    ([i] and [k] not negative, the tag of the language without a dot),
    the next index is above the number written [i] followed by [k].
    After [2026_1_1_zh_3_1.mp4] the next index is at least 32. *)
Theorem counter_read_as_digits date lang (src : Path) (success : bool) (i k : Z)
    (VIDEO_DIR : list pystr) :
  46%N ∉ lang -> 0 <= i -> 0 <= k ->
  let standard_name := name_prefix date lang ++ str_of_int i in
  let stemname := if success then standard_name else py "fail_" ++ standard_name in
  candidate stemname (suffix (name src)) k ∈ VIDEO_DIR ->
  i * 10 ^ Z.of_nat (length (str_of_int k)) + k
  < get_next_index unicode_decimal date lang VIDEO_DIR.
Proof.
  intros Hlang Hi Hk. cbv zeta. intros Hin.
  apply (indexed_lt_next unicode_decimal date lang VIDEO_DIR _ _ Hin).
  exists (str_of_int i ++ py "_" ++ str_of_int k).
  split; [|apply py_int_joined; assumption].
  unfold candidate.
  assert (Hu : 46%N ∉ py "_").
  { change (py "_") with [95%N]. intros H.
    apply elem_of_cons in H as [H|H]; [discriminate H | inversion H]. }
  assert (Hprefix : 46%N ∉ name_prefix date lang).
  { unfold name_prefix.
    repeat (apply no_dot_app; [first [apply str_of_int_no_dot | exact Hu | exact Hlang]|]).
    exact Hu. }
  assert (Hfail : 46%N ∉ py "fail_")
    by (apply (bool_decide_unpack _); vm_compute; exact I).
  set (stemname := if success then _ else _).
  replace (stemname ++ py "_" ++ str_of_int k ++ suffix (name src))
    with ((stemname ++ py "_" ++ str_of_int k) ++ suffix (name src))
    by (rewrite <- !app_assoc; reflexivity).
  rewrite stem_app_suffix.
  - unfold stemname. destruct success.
    + rewrite strip_fail_keep; [rewrite <- !app_assoc; reflexivity|].
      destruct (str_of_int_head (year date)) as (c & rest & Hy & Hc).
      unfold name_prefix. rewrite Hy. rewrite <- !app_assoc. cbn [app]. eauto.
    + rewrite <- !app_assoc. apply strip_fail_drop.
  - unfold stemname. destruct success; [|discriminate].
    destruct (str_of_int_head (year date)) as (c & rest & Hy & _).
    unfold name_prefix. rewrite Hy. discriminate.
  - unfold stemname.
    assert (Hname : 46%N ∉ name_prefix date lang ++ str_of_int i)
      by (apply no_dot_app; [exact Hprefix | apply str_of_int_no_dot]).
    assert (Htail : 46%N ∉ py "_" ++ str_of_int k)
      by (apply no_dot_app; [exact Hu | apply str_of_int_no_dot]).
    destruct success; apply no_dot_app; try exact Htail; [exact Hname|].
    apply no_dot_app; [exact Hfail | exact Hname].
Qed.

End Counter.

Lemma counter_read_as_digits_witness :
  31 < get_next_index ascii_digit {| year := 2026; month := 1; day := 1 |} (py "zh")
         [py "2026_1_1_zh_3.mp4"; py "2026_1_1_zh_3_1.mp4"].
Proof.
  assert (Hlang : 46%N ∉ py "zh") by (apply (bool_decide_unpack _); vm_compute; exact I).
  apply (counter_read_as_digits ascii_digit {| year := 2026; month := 1; day := 1 |}
           (py "zh") Examples.desktop_talk true 3 1
           [py "2026_1_1_zh_3.mp4"; py "2026_1_1_zh_3_1.mp4"] Hlang);
    [lia | lia |].
  right. left.
Defined.

End NamingFacts.

(* ================================================================== *)
(** * More facts about watcher.py *)
(* ================================================================== *)

Module HandlerFacts.
Import PyStr Config Watcher FileManager Main Handler WatcherFacts.

(** A turn that returns true is a stable one, reached through turns that
    all got a size. *)
Lemma wait_loop_true polls : forall fuel k t,
  wait_loop fuel polls k (2 * Z.of_nat k) (prev_size_at polls k) = Some (Ret true, t) ->
  exists k', (k <= k' < 150)%nat /\ stable_at polls k' /\ t = 2 * Z.of_nat k'
             /\ forall j, (k <= j <= k')%nat -> sized polls j.
Proof.
  induction fuel as [|fuel IH]; intros k t; cbn [wait_loop]; [discriminate|].
  unfold FILE_STABLE_MAX_WAIT, FILE_STABLE_CHECK_INTERVAL.
  destruct (Z.ltb_spec (2 * Z.of_nat k) 300) as [Hlt|Hge]; [|discriminate].
  destruct (polls k) as [e| | |s] eqn:Hk; try discriminate.
  destruct ((0 <? s) && (s =? prev_size_at polls k)) eqn:Htest.
  - intros [= <-]. exists k. split; [lia|]. split; [|split; [reflexivity|]].
    + apply andb_true_iff in Htest as [Hpos Heq].
      apply Z.ltb_lt in Hpos. apply Z.eqb_eq in Heq.
      destruct k as [|k0]; cbn [prev_size_at] in Heq; [lia|].
      destruct (polls k0) as [e0| | |s0] eqn:Hk0; try lia.
      exists k0, s. subst s0. auto.
    + intros j Hj. replace j with k by lia. exists s. exact Hk.
  - rewrite <- (prev_size_at_S _ _ _ Hk).
    replace (2 * Z.of_nat k + 2) with (2 * Z.of_nat (S k)) by lia.
    intros Hrec. destruct (IH _ _ Hrec) as (k' & Hle & Hst & Ht & Hsized).
    exists k'. split; [lia|]. split; [exact Hst|]. split; [exact Ht|].
    intros j Hj. destruct (Nat.eq_dec j k) as [->|Hne]; [exists s; exact Hk|].
    apply Hsized. lia.
Qed.

(** A stable turn ahead, with sizes at all turns before it, makes the loop
    return true. *)
Lemma wait_loop_finds polls : forall n fuel k,
  (n < fuel)%nat -> (k + n < 150)%nat ->
  (forall j, (k <= j < k + n)%nat -> sized polls j) ->
  stable_at polls (k + n) ->
  exists t,
    wait_loop fuel polls k (2 * Z.of_nat k) (prev_size_at polls k) = Some (Ret true, t).
Proof.
  induction n as [|n IH]; intros fuel k Hfuel Hk Hsized Hstable;
    (destruct fuel as [|fuel]; [lia|]); cbn [wait_loop];
    unfold FILE_STABLE_MAX_WAIT, FILE_STABLE_CHECK_INTERVAL;
    (destruct (Z.ltb_spec (2 * Z.of_nat k) 300) as [_|Hge]; [|lia]).
  - rewrite Nat.add_0_r in Hstable.
    destruct (stable_test _ _ Hstable) as (s & -> & ->). eauto.
  - destruct (Hsized k ltac:(lia)) as [s Hs]. rewrite Hs.
    destruct ((0 <? s) && (s =? prev_size_at polls k)); [eauto|].
    rewrite <- (prev_size_at_S _ _ _ Hs).
    replace (2 * Z.of_nat k + 2) with (2 * Z.of_nat (S k)) by lia.
    apply IH; [lia | lia | intros j Hj; apply Hsized; lia |].
    replace (S k + n)%nat with (k + S n)%nat by lia. exact Hstable.
Qed.

Lemma wait_for_stable_true_iff (polls : nat -> Poll) :
  _wait_for_stable polls = Some (Ret true)
  <-> exists k, (k < 150)%nat /\ stable_at polls k
                /\ forall j, (j < k)%nat -> sized polls j.
Proof.
  unfold _wait_for_stable, _wait_for_stable_run. split.
  - destruct (wait_loop 151 polls 0 0 (-1)) as [[b t]|] eqn:Hrun; [|discriminate].
    cbn. intros [= ->].
    destruct (wait_loop_true polls 151 0 t Hrun) as (k & Hk & Hst & _ & Hsized).
    exists k. split; [lia|]. split; [exact Hst|]. intros j Hj. apply Hsized. lia.
  - intros (k & Hk & Hst & Hsized).
    destruct (wait_loop_finds polls k 151 0 ltac:(lia) ltac:(lia)
                ltac:(intros j Hj; apply Hsized; lia) Hst) as [t Ht].
    change (wait_loop 151 polls 0 (2 * Z.of_nat 0) (prev_size_at polls 0))
      with (wait_loop 151 polls 0 0 (-1)) in Ht.
    rewrite Ht. reflexivity.
Qed.

(** X13. [_wait_for_stable] answers true exactly when, within the 150 turns
    of five minutes, some turn gets the positive size of the turn before
    it and every turn up to it found the file and its size.  So a file
    that is empty, or whose size changes at every look, is never passed
    on. *)
Theorem wait_for_stable_true_exactly (polls : nat -> Poll) :
  (_wait_for_stable polls = Some (Ret true)
   <-> exists k, (k < 150)%nat /\ stable_at polls k
                 /\ forall j, (j < k)%nat -> sized polls j)
  /\ ((forall k, (k < 150)%nat -> polls k = Size 0 \/ polls (S k) <> polls k) ->
      _wait_for_stable polls <> Some (Ret true)).
Proof.
  split; [apply wait_for_stable_true_iff|].
  intros Hnever Htrue. apply wait_for_stable_true_iff in Htrue
    as (k & Hk & (k' & s & -> & Hpos & Hk' & HSk) & _).
  destruct (Hnever k' ltac:(lia)) as [H0|Hne].
  - rewrite H0 in Hk'. injection Hk' as <-. lia.
  - apply Hne. congruence.
Qed.

Lemma wait_for_stable_true_exactly_witness :
  _wait_for_stable Examples.keeps_growing <> Some (Ret true).
Proof.
  apply (wait_for_stable_true_exactly Examples.keeps_growing).
  intros k _. right. unfold Examples.keeps_growing. intros [= H]. lia.
Defined.

Section VideoHandlerFacts.
Variable lower : pystr -> pystr.
Variable Path_of_str : pystr -> Path.

Lemma handle_file_cases inside_base PROCESSED_FILE filepath cp :
  (_handle_file lower Path_of_str inside_base PROCESSED_FILE filepath cp = (cp, None))
  \/ (_handle_file lower Path_of_str inside_base PROCESSED_FILE filepath cp
      = ({[ filepath ]} ∪ cp, Some (Path_of_str filepath))
      /\ _is_media lower Path_of_str filepath = true
      /\ startswith (name (Path_of_str filepath)) (py ".") = false
      /\ startswith (name (Path_of_str filepath)) (py "~") = false
      /\ inside_base = false
      /\ (filepath ∉ PROCESSED_FILE)
      /\ (filepath ∉ cp)).
Proof.
  unfold _handle_file.
  destruct (_is_media lower Path_of_str filepath); cbn [negb]; [|left; reflexivity].
  destruct (startswith (name (Path_of_str filepath)) (py ".")); [left; reflexivity|].
  destruct (startswith (name (Path_of_str filepath)) (py "~")); [left; reflexivity|].
  cbn [orb]. destruct inside_base; [left; reflexivity|].
  unfold is_processed, load_processed.
  case_bool_decide as Hproc; [left; reflexivity|].
  case_bool_decide as Hin; [left; reflexivity|].
  right. repeat split; assumption.
Qed.

(** X14. [_handle_file] starts a thread only for a media file that is not
    hidden (its name starts with neither a dot nor a tilde), lies outside
    the project, is not in the record of processed paths and is not being
    waited for; it then notes the path as in flight, and every further
    event for the same path text is dropped while the note is there.  In
    every other case it changes nothing. *)
Theorem handle_file_once inside_base PROCESSED_FILE filepath cp :
  let result := _handle_file lower Path_of_str inside_base PROCESSED_FILE filepath cp in
  match result.2 with
  | None => result.1 = cp
  | Some path =>
    path = Path_of_str filepath
    /\ result.1 = {[ filepath ]} ∪ cp
    /\ (filepath ∉ cp)
    /\ (filepath ∉ PROCESSED_FILE)
    /\ inside_base = false
    /\ lower (suffix (name path)) ∈ MEDIA_EXTENSIONS
    /\ startswith (name path) (py ".") = false
    /\ startswith (name path) (py "~") = false
    /\ (forall inside_base' PROCESSED_FILE' more,
          _handle_file lower Path_of_str inside_base' PROCESSED_FILE' filepath
            (more ∪ result.1)
          = (more ∪ result.1, None))
  end.
Proof.
  cbv zeta.
  destruct (handle_file_cases inside_base PROCESSED_FILE filepath cp)
    as [-> | (-> & Hmedia & Hdot & Htilde & Hbase & Hproc & Hin)]; [reflexivity|].
  cbn [fst snd].
  split; [reflexivity|]. split; [reflexivity|]. split; [exact Hin|].
  split; [exact Hproc|]. split; [exact Hbase|].
  split; [unfold _is_media in Hmedia; apply bool_decide_eq_true_1 in Hmedia; exact Hmedia|].
  split; [exact Hdot|]. split; [exact Htilde|].
  intros inside_base' PROCESSED_FILE' more.
  destruct (handle_file_cases inside_base' PROCESSED_FILE' filepath
              (more ∪ ({[ filepath ]} ∪ cp)))
    as [Heq | (_ & _ & _ & _ & _ & _ & Hnot)]; [exact Heq|].
  exfalso. apply Hnot. apply elem_of_union_r, elem_of_union_l, elem_of_singleton_2.
  reflexivity.
Qed.

End VideoHandlerFacts.

Lemma released_iff (p : pystr) (cp : gset pystr) (other : pystr) :
  other ∈ cp ∖ {[ p ]} <-> other ∈ cp /\ other <> p.
Proof.
  rewrite elem_of_difference. split; intros [H Hne]; (split; [exact H|]).
  - intros ->. apply Hne, elem_of_singleton_2. reflexivity.
  - intros Hin. apply elem_of_singleton_1 in Hin. exact (Hne Hin).
Qed.

Lemma released_added (p : pystr) (cp : gset pystr) : p ∉ cp -> ({[ p ]} ∪ cp) ∖ {[ p ]} = cp.
Proof.
  intros Hnot. apply set_eq. intros x. rewrite elem_of_difference, elem_of_union. split.
  - intros [[H|H] Hx]; [destruct (Hx H) | exact H].
  - intros H. split; [right; exact H|]. intros Hx. apply elem_of_singleton_1 in Hx.
    subst x. exact (Hnot H).
Qed.

(** X15. [_wait_and_process] takes the path out of the set of paths in flight
    however it ends and leaves the other paths there.  It runs the
    callback only after [_wait_for_stable] answered true and the file
    could be read, and ends as the callback does.  Otherwise the world is
    as before: it returns when [_wait_for_stable] answered false, and it
    ends with the exception of [stat], or with the one that [exists]
    raised in [_wait_for_stable], when there is one. *)
Theorem wait_and_process_releases (polls : nat -> Poll) (stat : res Q)
    (on_new_video : Path -> M unit) (path : Path) (cp : gset pystr) (w : World) :
  let out := _wait_and_process polls stat on_new_video path cp w in
  let r := out.1.1 in
  let cp' := out.1.2 in
  let w' := out.2 in
  (forall other, other ∈ cp' <-> other ∈ cp /\ other <> str_of_path path)
  /\ (((r, w') = on_new_video path w
       /\ _wait_for_stable polls = Some (Ret true)
       /\ (exists filesize, stat = Ret filesize))
      \/ (w' = w
          /\ ((r = Ret tt /\ _wait_for_stable polls = Some (Ret false))
              \/ (exists e, r = Raise e /\ _wait_for_stable polls = Some (Ret true)
                             /\ stat = Raise e)
              \/ (exists e, r = Raise e /\ _wait_for_stable polls = Some (Raise e))))).
Proof.
  cbv zeta. unfold _wait_and_process.
  pose proof (released_iff (str_of_path path) cp) as Hrel.
  destruct (wait_for_stable_ends polls) as (result & Hst & _). rewrite Hst.
  destruct result as [[|]|e].
  - destruct stat as [filesize|e].
    + destruct (on_new_video path w) as [r w'] eqn:Hcb. cbn [fst snd].
      split; [exact Hrel|]. left. eauto.
    + cbn [fst snd]. split; [exact Hrel|]. right.
      split; [reflexivity|]. right. left. eauto.
  - cbn [fst snd]. split; [exact Hrel|]. right.
    split; [reflexivity|]. left. split; reflexivity.
  - cbn [fst snd]. split; [exact Hrel|]. right.
    split; [reflexivity|]. right. right. eauto.
Qed.

(** X16. From the event to the end of the thread: when the text of the event
    is the text of the path made of it, the set of paths in flight is at
    the end what it was at the start; when it is not, the note made by
    [_handle_file] stays, and later events with that text are dropped. *)
Theorem handle_then_wait_restores (lower : pystr -> pystr) (Path_of_str : pystr -> Path)
    (PROCESSED_FILE : gset pystr) (filepath : pystr) (cp : gset pystr)
    (polls : nat -> Poll) (stat : res Q) (on_new_video : Path -> M unit) (w : World)
    (path : Path) (cp1 : gset pystr) :
  _handle_file lower Path_of_str false PROCESSED_FILE filepath cp = (cp1, Some path) ->
  let cp2 := (_wait_and_process polls stat on_new_video path cp1 w).1.2 in
  (str_of_path path = filepath -> cp2 = cp)
  /\ (str_of_path path <> filepath ->
      filepath ∈ cp2
      /\ forall inside_base PROCESSED_FILE',
           _handle_file lower Path_of_str inside_base PROCESSED_FILE' filepath cp2
           = (cp2, None)).
Proof.
  intros Hhandle. cbv zeta.
  destruct (handle_file_cases lower Path_of_str false PROCESSED_FILE filepath cp)
    as [Heq | (Heq & _ & _ & _ & _ & _ & Hin)]; rewrite Heq in Hhandle;
    [discriminate|].
  injection Hhandle as <- <-.
  assert (Hcp2 : (_wait_and_process polls stat on_new_video (Path_of_str filepath)
                    ({[ filepath ]} ∪ cp) w).1.2
                 = ({[ filepath ]} ∪ cp) ∖ {[ str_of_path (Path_of_str filepath) ]}).
  { unfold _wait_and_process.
    destruct (_wait_for_stable polls) as [[[|]|e]|]; try reflexivity.
    destruct stat; [|reflexivity]. destruct (on_new_video _ w). reflexivity. }
  rewrite Hcp2. split.
  - intros ->. apply released_added, Hin.
  - intros Hne. assert (Hstay : filepath ∈ ({[ filepath ]} ∪ cp)
                                  ∖ {[ str_of_path (Path_of_str filepath) ]}).
    { apply released_iff. split; [|congruence].
      apply elem_of_union_l, elem_of_singleton_2. reflexivity. }
    split; [exact Hstay|]. intros inside_base PROCESSED_FILE'.
    destruct (handle_file_cases lower Path_of_str inside_base PROCESSED_FILE' filepath
                (({[ filepath ]} ∪ cp) ∖ {[ str_of_path (Path_of_str filepath) ]}))
      as [Heq' | (_ & _ & _ & _ & _ & _ & Hnot)]; [exact Heq'|].
    destruct (Hnot Hstay).
Qed.

Lemma handle_then_wait_restores_witness :
  (_wait_and_process Examples.grows_then_rests (Ret 12%Q) (fun _ => ret tt)
     Examples.home_talk ({[ py "talk.mp4" ]} ∪ ∅) Examples.empty_world).1.2
  = ∅.
Proof.
  apply (handle_then_wait_restores (fun s => s) (fun _ => Examples.home_talk) ∅
           (py "talk.mp4") ∅ Examples.grows_then_rests (Ret 12%Q)
           (fun _ => ret tt) Examples.empty_world Examples.home_talk
           ({[ py "talk.mp4" ]} ∪ ∅)).
  - destruct (handle_file_cases (fun s => s) (fun _ => Examples.home_talk) false ∅
                (py "talk.mp4") ∅)
      as [Heq | (Heq & _)]; [|exact Heq].
    exfalso. vm_compute in Heq. discriminate Heq.
  - reflexivity.
Defined.

End HandlerFacts.

(* ================================================================== *)
(** * More facts about transcriber.py *)
(* ================================================================== *)

Module SpansFacts.
Import PyStr Transcriber Spans TranscriberFacts.

Lemma for_each_acc {A B : Type} (body : list B -> A -> option (list B)) :
  (forall acc x, body acc x = (acc ++.) <$> body [] x) ->
  forall l acc, for_each body l acc = (acc ++.) <$> for_each body l [].
Proof.
  intros Hbody. induction l as [|x l IH]; intros acc; cbn [for_each].
  - cbn. rewrite app_nil_r. reflexivity.
  - rewrite (Hbody acc x). destruct (body [] x) as [new|]; cbn; [|reflexivity].
    rewrite (IH (acc ++ new)), (IH new).
    destruct (for_each body l []) as [more|]; cbn; [|reflexivity].
    rewrite app_assoc. reflexivity.
Qed.

Lemma for_each_app {A S : Type} (body : S -> A -> option S) (l1 l2 : list A) (s : S) :
  for_each body (l1 ++ l2) s
  = match for_each body l1 s with
    | Some s' => for_each body l2 s'
    | None => None
    end.
Proof.
  revert s. induction l1 as [|x l1 IH]; intros s; cbn [app for_each]; [reflexivity|].
  destruct (body s x); [apply IH | reflexivity].
Qed.

Lemma for_each_inv {A S : Type} (P : S -> Prop) (body : S -> A -> option S) :
  (forall s x s', P s -> body s x = Some s' -> P s') ->
  forall l s s', P s -> for_each body l s = Some s' -> P s'.
Proof.
  intros Hbody. induction l as [|x l IH]; intros s s' Hs; cbn [for_each].
  - intros [= <-]. exact Hs.
  - destruct (body s x) as [s1|] eqn:Hx; [|discriminate].
    apply IH. exact (Hbody _ _ _ Hs Hx).
Qed.

Section ParseMore.
Variable repr : pyval -> pystr.

Lemma parse_sentence_acc acc sent :
  parse_sentence repr acc sent = (acc ++.) <$> parse_sentence repr [] sent.
Proof. destruct sent; reflexivity. Qed.

Lemma parse_span_acc text acc its :
  parse_span text acc its = (acc ++.) <$> parse_span text [] its.
Proof.
  destruct its as [i ts]. unfold parse_span.
  destruct ts as [| | | |[|a [|b l]]|[|a [|b l]]| |]; cbn; rewrite ?app_nil_r; reflexivity.
Qed.

Lemma parse_item_acc acc item :
  parse_item repr acc item = (acc ++.) <$> parse_item repr [] item.
Proof.
  destruct item as [| | | | | |d|]; try reflexivity.
  cbn [parse_item].
  destruct (truth (dict_get d (py "sentence_info") (PList []))).
  - destruct (iterate _) as [sents|]; [|reflexivity].
    apply (for_each_acc _ parse_sentence_acc).
  - destruct (truth (dict_get d (py "text") (PStr []))).
    + destruct (truth (dict_get d (py "timestamp") (PList []))); [|reflexivity].
      destruct (iterate _) as [spans|]; [|reflexivity].
      apply (for_each_acc _ (parse_span_acc _)).
    + cbn. rewrite app_nil_r. reflexivity.
Qed.

Lemma parse_funasr_result_list (items : list pyval) :
  _parse_funasr_result repr (PList items) = for_each (parse_item repr) items [].
Proof. destruct items; reflexivity. Qed.

Lemma parse_sentence_speaker acc sent acc' :
  Forall (fun seg => speaker_value (seg_speaker seg)) acc ->
  parse_sentence repr acc sent = Some acc' ->
  Forall (fun seg => speaker_value (seg_speaker seg)) acc'.
Proof.
  intros Hacc. destruct sent as [| | | | | |d|]; try discriminate.
  cbn [parse_sentence]. intros [= <-]. apply Forall_app. split; [exact Hacc|].
  constructor; [|constructor]. cbn [seg_speaker].
  destruct (dict_get d (py "spk") (PStr [])) as [| | |s|l|l|d'|t i] eqn:Hspk;
    try exact I.
  all: match goal with |- speaker_value (if truth ?v then _ else _) =>
         destruct (truth v) eqn:Ht; [exact I | exact Ht || exact I] end.
Qed.

Lemma parse_span_speaker text acc its acc' :
  Forall (fun seg => speaker_value (seg_speaker seg)) acc ->
  parse_span text acc its = Some acc' ->
  Forall (fun seg => speaker_value (seg_speaker seg)) acc'.
Proof.
  intros Hacc. destruct its as [i ts]. unfold parse_span.
  destruct ts as [| | | |[|a [|b l]]|[|a [|b l]]| |]; intros [= <-]; try exact Hacc.
  all: apply Forall_app; split; [exact Hacc|]; constructor; [exact I | constructor].
Qed.

Lemma parse_item_speaker acc item acc' :
  Forall (fun seg => speaker_value (seg_speaker seg)) acc ->
  parse_item repr acc item = Some acc' ->
  Forall (fun seg => speaker_value (seg_speaker seg)) acc'.
Proof.
  intros Hacc.
  assert (Hplain : forall text, Forall (fun seg => speaker_value (seg_speaker seg))
                                  (acc ++ [ {| seg_start := PInt 0; seg_end := PInt 0;
                                               seg_text := text; seg_speaker := PStr [] |} ])).
  { intros text. apply Forall_app. split; [exact Hacc|]. constructor; [exact I|constructor]. }
  destruct item as [| | | | | |d|]; try (intros [= <-]; apply Hplain).
  cbn [parse_item].
  destruct (truth (dict_get d (py "sentence_info") (PList []))).
  - destruct (iterate _) as [sents|]; [|discriminate].
    apply (for_each_inv _ _ (fun s x s' => parse_sentence_speaker s x s')). exact Hacc.
  - destruct (truth (dict_get d (py "text") (PStr []))).
    + destruct (truth (dict_get d (py "timestamp") (PList []))).
      * destruct (iterate _) as [spans|]; [|discriminate].
        apply (for_each_inv _ _ (fun s x s' => parse_span_speaker _ s x s')). exact Hacc.
      * intros [= <-]. apply Hplain.
    + intros [= <-]. exact Hacc.
Qed.

End ParseMore.

(** X17. Whatever the recogniser returns and however [str] renders it, in what
    [_parse_funasr_result] returns the value under [speaker] is never an
    integer: it is a string, or a value that counts as false (the empty
    string when the key [spk] is missing). *)
Theorem parse_funasr_result_speaker (repr : pyval -> pystr) (result : pyval)
    (segments : list Segment) :
  _parse_funasr_result repr result = Some segments ->
  Forall (fun seg => speaker_value (seg_speaker seg)) segments.
Proof.
  unfold _parse_funasr_result. destruct (negb (truth result)).
  - intros [= <-]. constructor.
  - destruct (iterate result) as [items|]; [|discriminate].
    apply (for_each_inv _ _ (fun s x s' => parse_item_speaker repr s x s')). constructor.
Qed.

Lemma parse_funasr_result_speaker_witness :
  Forall (fun seg => speaker_value (seg_speaker seg))
    [ {| seg_start := PInt 0; seg_end := PInt 900; seg_text := PStr (py "hi");
         seg_speaker := PStr (py "spk3") |};
      {| seg_start := PInt 0; seg_end := PInt 0; seg_text := PStr [];
         seg_speaker := PNone |} ].
Proof.
  apply (parse_funasr_result_speaker (fun _ => [])
           (PList [ PDict [ (py "sentence_info",
                             PList [ PDict [ (py "text", PStr (py "hi"));
                                             (py "end", PInt 900);
                                             (py "spk", PInt 3) ];
                                     PDict [ (py "spk", PNone) ] ]) ] ])).
  reflexivity.
Defined.

(** X18. The items of the result are read one after the other, each adding its
    segments behind those of the items before it: the result of a list put
    together from two is the two results put together, and an item that
    makes the reading fail makes the whole fail. *)
Theorem parse_funasr_result_app (repr : pyval -> pystr) (items1 items2 : list pyval) :
  _parse_funasr_result repr (PList (items1 ++ items2))
  = match _parse_funasr_result repr (PList items1),
          _parse_funasr_result repr (PList items2) with
    | Some segments1, Some segments2 => Some (segments1 ++ segments2)
    | _, _ => None
    end.
Proof.
  rewrite !parse_funasr_result_list, for_each_app.
  destruct (for_each (parse_item repr) items1 []) as [segments1|]; [|reflexivity].
  rewrite (for_each_acc _ (parse_item_acc repr) items2 segments1).
  destruct (for_each (parse_item repr) items2 []); reflexivity.
Qed.

Lemma for_each_plain (repr : pyval -> pystr) (items : list pyval) : forall acc,
  Forall (fun item => forall d, item <> PDict d) items ->
  for_each (parse_item repr) items acc
  = Some (acc ++ List.map (fun item => plain_segment (PStr (py_str repr item))) items).
Proof.
  induction items as [|item items IH]; intros acc Hall; cbn [for_each List.map].
  - rewrite app_nil_r. reflexivity.
  - apply Forall_cons in Hall as [Hitem Hall].
    assert (Hp : parse_item repr acc item
                 = Some (acc ++ [plain_segment (PStr (py_str repr item))])).
    { destruct item; try reflexivity. destruct (Hitem d eq_refl). }
    rewrite Hp, (IH _ Hall), <- app_assoc. reflexivity.
Qed.

(** X19. Every item that is not a dict becomes one segment from 0 to 0 with
    [str(item)] as its text and no speaker.  So a result that is itself a
    dict, and not a list of dicts, gives one such segment for each of its
    keys, with the key as text; and a dict among the items that has
    neither sentences nor a text gives no segment. *)
Theorem parse_funasr_result_plain (repr : pyval -> pystr) :
  (forall items,
     Forall (fun item => forall d, item <> PDict d) items ->
     _parse_funasr_result repr (PList items)
     = Some (List.map (fun item => plain_segment (PStr (py_str repr item))) items))
  /\ (forall d,
        _parse_funasr_result repr (PDict d)
        = Some (List.map (fun kv => plain_segment (PStr (fst kv))) d))
  /\ (forall d segments,
        truth (dict_get d (py "sentence_info") (PList [])) = false ->
        truth (dict_get d (py "text") (PStr [])) = false ->
        parse_item repr segments (PDict d) = Some segments).
Proof.
  split; [|split].
  - intros items Hall. rewrite parse_funasr_result_list.
    exact (for_each_plain repr items [] Hall).
  - intros d. unfold _parse_funasr_result. destruct d as [|kv d]; [reflexivity|].
    change (truth (PDict (kv :: d))) with true. cbn [negb iterate].
    rewrite for_each_plain.
    + cbn [app]. rewrite List.map_map. reflexivity.
    + generalize (kv :: d). intros l. induction l as [|x l IH]; cbn [List.map];
        constructor; [discriminate | exact IH].
  - intros d segments Hs Ht. cbn [parse_item]. rewrite Hs, Ht. reflexivity.
Qed.

Lemma parse_funasr_result_plain_witness :
  _parse_funasr_result (fun _ => []) (PList [PStr (py "hello"); PInt 7])
  = Some [plain_segment (PStr (py "hello")); plain_segment (PStr (py "7"))].
Proof.
  apply (proj1 (parse_funasr_result_plain (fun _ => [])) [PStr (py "hello"); PInt 7]).
  repeat constructor; discriminate.
Defined.

Section Timed.
Variable text : pyval.

Lemma for_each_spans_later (spans : list pyval) : forall k acc,
  exists new,
    for_each (parse_span text) (imap (fun i x => (S (k + i), x)) spans) acc
    = Some (acc ++ new)
    /\ length new = length (filter (fun ts => is_span ts = true) spans)
    /\ Forall (fun seg => seg_text seg = PStr []) new.
Proof.
  induction spans as [|ts spans IH]; intros k acc.
  - exists []. cbn. rewrite app_nil_r. repeat split. constructor.
  - cbn [imap for_each].
    rewrite (imap_ext _ (fun i x => (S (S k + i), x))) by (intros; cbn; f_equal; lia).
    destruct (is_span ts) eqn:Hspan.
    + assert (Hstep : exists seg, parse_span text acc (S (k + 0), ts) = Some (acc ++ [seg])
                                  /\ seg_text seg = PStr []).
      { destruct ts as [| | | |[|a [|b l]]|[|a [|b l]]| |]; try discriminate Hspan;
          eexists; split; reflexivity. }
      destruct Hstep as (seg & -> & Hseg).
      destruct (IH (S k) (acc ++ [seg])) as (new & -> & Hlen & Hall).
      exists (seg :: new). rewrite <- app_assoc. split; [reflexivity|].
      rewrite filter_cons_True by exact Hspan. cbn [length]. split; [lia|].
      constructor; assumption.
    + assert (Hstep : parse_span text acc (S (k + 0), ts) = Some acc).
      { destruct ts as [| | | |[|a [|b l]]|[|a [|b l]]| |]; try discriminate Hspan;
          reflexivity. }
      rewrite Hstep. destruct (IH (S k) acc) as (new & -> & Hlen & Hall).
      exists new. split; [reflexivity|].
      rewrite filter_cons_False by (rewrite Hspan; discriminate). auto.
Qed.

Lemma for_each_spans (spans : list pyval) (acc : list Segment) :
  exists new,
    for_each (parse_span text) (enumerate spans) acc = Some (acc ++ new)
    /\ length new = length (filter (fun ts => is_span ts = true) spans)
    /\ match spans with
       | [] => True
       | first :: _ =>
         if is_span first
         then exists seg later, new = seg :: later /\ seg_text seg = text
                /\ Forall (fun seg => seg_text seg = PStr []) later
         else Forall (fun seg => seg_text seg = PStr []) new
       end.
Proof.
  destruct spans as [|first spans].
  - exists []. cbn. rewrite app_nil_r. auto.
  - unfold enumerate. cbn [imap for_each].
    rewrite (imap_ext _ (fun i x => (S (0 + i), x))) by (intros; cbn; f_equal).
    destruct (is_span first) eqn:Hspan.
    + assert (Hstep : exists seg, parse_span text acc (0%nat, first) = Some (acc ++ [seg])
                                  /\ seg_text seg = text).
      { destruct first as [| | | |[|a [|b l]]|[|a [|b l]]| |]; try discriminate Hspan;
          eexists; split; reflexivity. }
      destruct Hstep as (seg & -> & Hseg).
      destruct (for_each_spans_later spans 0 (acc ++ [seg])) as (new & -> & Hlen & Hall).
      exists (seg :: new). rewrite <- app_assoc. split; [reflexivity|].
      rewrite filter_cons_True by exact Hspan. cbn [length]. split; [lia|].
      exists seg, new. auto.
    + assert (Hstep : parse_span text acc (0%nat, first) = Some acc).
      { destruct first as [| | | |[|a [|b l]]|[|a [|b l]]| |]; try discriminate Hspan;
          reflexivity. }
      rewrite Hstep. destruct (for_each_spans_later spans 0 acc) as (new & -> & Hlen & Hall).
      exists new. split; [reflexivity|].
      rewrite filter_cons_False by (rewrite Hspan; discriminate). auto.
Qed.

End Timed.

(** X20. An item with a text and a list of time spans, and no sentences, gives
    one segment for each span that is a list or tuple of at least two
    elements, and none for the others.  The text goes to the span at index
    0 only: when that span is well formed the first segment carries the
    text and the others the empty string; when it is not, the text is in
    no segment at all. *)
Theorem parse_item_timed (repr : pyval -> pystr) (d : list (pystr * pyval))
    (spans : list pyval) (segments : list Segment) :
  truth (dict_get d (py "sentence_info") (PList [])) = false ->
  truth (dict_get d (py "text") (PStr [])) = true ->
  dict_get d (py "timestamp") (PList []) = PList spans
  \/ dict_get d (py "timestamp") (PList []) = PTuple spans ->
  spans <> [] ->
  let text := dict_get d (py "text") (PStr []) in
  exists new,
    parse_item repr segments (PDict d) = Some (segments ++ new)
    /\ length new = length (filter (fun ts => is_span ts = true) spans)
    /\ match spans with
       | [] => True
       | first :: _ =>
         if is_span first
         then exists seg later, new = seg :: later /\ seg_text seg = text
                /\ Forall (fun seg => seg_text seg = PStr []) later
         else Forall (fun seg => seg_text seg = PStr []) new
       end.
Proof.
  intros Hs Ht Hts Hne. cbv zeta. cbn [parse_item]. rewrite Hs, Ht.
  assert (Htruth : truth (dict_get d (py "timestamp") (PList [])) = true).
  { destruct Hts as [-> | ->]; destruct spans; try congruence; reflexivity. }
  rewrite Htruth.
  assert (Hit : iterate (dict_get d (py "timestamp") (PList [])) = Some spans)
    by (destruct Hts as [-> | ->]; reflexivity).
  rewrite Hit. apply for_each_spans.
Qed.

Lemma parse_item_timed_witness :
  exists new,
    parse_item (fun _ => []) []
      (PDict [ (py "text", PStr (py "hello there"));
               (py "timestamp", PList [ PInt 0; PList [PInt 0; PInt 500];
                                        PTuple [PInt 500; PInt 900] ]) ])
    = Some new
    /\ length new = 2%nat
    /\ Forall (fun seg => seg_text seg = PStr []) new.
Proof.
  destruct (parse_item_timed (fun _ => [])
              [ (py "text", PStr (py "hello there"));
                (py "timestamp", PList [ PInt 0; PList [PInt 0; PInt 500];
                                         PTuple [PInt 500; PInt 900] ]) ]
              [ PInt 0; PList [PInt 0; PInt 500]; PTuple [PInt 500; PInt 900] ] [])
    as (new & Hnew & Hlen & Hfirst).
  - reflexivity.
  - reflexivity.
  - left. reflexivity.
  - discriminate.
  - exists new. split; [exact Hnew|]. split; [exact Hlen | exact Hfirst].
Defined.

End SpansFacts.

(* ================================================================== *)
(** * Facts about the detection of the language *)
(* ================================================================== *)

Module LanguageFacts.
Import PyStr Transcriber Main Language PyStrFacts.

Lemma startswith_head (c : N) (s p : pystr) (d : N) :
  c <> d -> startswith (c :: s) (d :: p) = false.
Proof. intros Hne. cbn [startswith]. destruct (N.eqb_spec d c); [congruence|reflexivity]. Qed.

Lemma contains_cons (c : N) (hay needle : pystr) :
  contains (c :: hay) needle = startswith (c :: hay) needle || contains hay needle.
Proof. reflexivity. Qed.

(** A needle that starts with [<] is not found where there is no [<]. *)
Lemma contains_skip (s t p : pystr) :
  60%N ∉ s -> contains (s ++ t) (60%N :: p) = contains t (60%N :: p).
Proof.
  induction s as [|c s IH]; intros Hno; [reflexivity|].
  cbn [app]. rewrite contains_cons, startswith_head, IH; [reflexivity | |].
  - intros H. apply Hno. right. exact H.
  - intros ->. apply Hno. left.
Qed.

Lemma contains_none (s p : pystr) : 60%N ∉ s -> contains s (60%N :: p) = false.
Proof.
  intros Hno. rewrite <- (app_nil_r s), (contains_skip s [] p Hno). reflexivity.
Qed.

Lemma startswith_name (n1 n rest : pystr) :
  124%N ∉ n1 -> 124%N ∉ n ->
  startswith (n1 ++ 124%N :: rest) (n ++ [124%N; 62%N])
  = bool_decide (n1 = n) && startswith rest [62%N].
Proof.
  revert n. induction n1 as [|c n1 IH]; intros [|d n] H1 H; cbn [app startswith].
  - rewrite bool_decide_eq_true_2 by reflexivity. reflexivity.
  - destruct (N.eqb_spec d 124) as [->|_]; [exfalso; apply H; left|].
    rewrite bool_decide_eq_false_2 by discriminate. reflexivity.
  - destruct (N.eqb_spec 124 c) as [<-|_]; [exfalso; apply H1; left|].
    rewrite bool_decide_eq_false_2 by discriminate. reflexivity.
  - destruct (N.eqb_spec d c) as [->|Hne].
    + rewrite IH; [| intros H'; apply H1; right; exact H'
                  | intros H'; apply H; right; exact H'].
      destruct (decide (n1 = n)) as [->|Hneq].
      * rewrite !bool_decide_eq_true_2 by reflexivity. reflexivity.
      * rewrite !bool_decide_eq_false_2 by congruence. reflexivity.
    + rewrite bool_decide_eq_false_2 by congruence. reflexivity.
Qed.

Lemma run_length_name (name rest : pystr) :
  124%N ∉ name -> run_length (name ++ 124%N :: rest) = length name.
Proof.
  induction name as [|c name IH]; intros Hno; cbn [app run_length length].
  - reflexivity.
  - destruct (N.eqb_spec c 124) as [->|_]; [exfalso; apply Hno; left|].
    rewrite IH; [reflexivity|]. intros H. apply Hno. right. exact H.
Qed.

Lemma tag_length_tag (name rest : pystr) :
  name <> [] -> 124%N ∉ name ->
  tag_length (py "<|" ++ name ++ py "|>" ++ rest) = Some (length name + 4)%nat.
Proof.
  intros Hne Hno. change (py "<|") with [60; 124]%N. change (py "|>") with [124; 62]%N.
  cbn [app tag_length]. change ((60 =? 60)%N && (124 =? 124)%N) with true. cbv iota zeta.
  rewrite run_length_name by exact Hno.
  destruct (length name) as [|n] eqn:Hlen.
  - destruct name; [congruence | discriminate Hlen].
  - rewrite <- Hlen, drop_app_length. reflexivity.
Qed.

Lemma strip_tags_from_skip (s : pystr) : forall t,
  strip_tags_from (length s) (s ++ t) = strip_tags_from 0 t.
Proof.
  induction s as [|c s IH]; intros t; cbn [length app]; [reflexivity|].
  cbn [strip_tags_from]. apply IH.
Qed.

Lemma strip_tags_from_0 (c : N) (rest : pystr) :
  strip_tags_from 0 (c :: rest)
  = match tag_length (c :: rest) with
    | Some n => strip_tags_from (n - 1) rest
    | None => c :: strip_tags_from 0 rest
    end.
Proof. reflexivity. Qed.

(** A tag at the head is dropped as a whole. *)
Lemma strip_tags_tag (name rest : pystr) :
  name <> [] -> 124%N ∉ name ->
  strip_tags (py "<|" ++ name ++ py "|>" ++ rest) = strip_tags rest.
Proof.
  intros Hne Hno. unfold strip_tags.
  pose proof (tag_length_tag name rest Hne Hno) as Htag.
  change (py "<|") with [60; 124]%N in *. change (py "|>") with [124; 62]%N in *.
  cbn [app] in *. rewrite strip_tags_from_0, Htag.
  replace (length name + 4 - 1)%nat with (length (124%N :: name ++ [124; 62]%N))
    by (cbn [length]; rewrite length_app; cbn [length]; lia).
  replace (124%N :: name ++ 124%N :: 62%N :: rest)
    with ((124%N :: name ++ [124; 62]%N) ++ rest)
    by (cbn [app]; rewrite <- app_assoc; reflexivity).
  apply strip_tags_from_skip.
Qed.

(** Where there is no [<] there is no tag. *)
Lemma strip_tags_plain (s : pystr) : 60%N ∉ s -> strip_tags s = s.
Proof.
  unfold strip_tags. induction s as [|c s IH]; intros Hno; [reflexivity|].
  rewrite strip_tags_from_0.
  assert (Htag : tag_length (c :: s) = None).
  { unfold tag_length. destruct s as [|b s]; [reflexivity|].
    destruct (N.eqb_spec c 60) as [->|_]; [exfalso; apply Hno; left | reflexivity]. }
  rewrite Htag, IH; [reflexivity|]. intros H. apply Hno. right. exact H.
Qed.

Lemma strip_tags_tagged (names : list pystr) (body : pystr) :
  Forall (fun name => name <> [] /\ (124%N ∉ name) /\ (60%N ∉ name)) names ->
  60%N ∉ body ->
  strip_tags (tagged names body) = body.
Proof.
  intros Hnames Hbody. unfold tagged.
  induction Hnames as [|name names (Hne & Hbar & _) _ IH]; cbn [flat_map app].
  - apply strip_tags_plain, Hbody.
  - rewrite <- !app_assoc. rewrite strip_tags_tag by assumption. exact IH.
Qed.

Lemma contains_tagged (names : list pystr) (body n : pystr) :
  Forall (fun name => name <> [] /\ (124%N ∉ name) /\ (60%N ∉ name)) names ->
  60%N ∉ body -> 124%N ∉ n ->
  contains (tagged names body) (py "<|" ++ n ++ py "|>") = bool_decide (n ∈ names).
Proof.
  intros Hnames Hbody Hn. unfold tagged.
  change (py "<|") with [60; 124]%N. change (py "|>") with [124; 62]%N.
  change ([60; 124]%N ++ n ++ [124; 62]%N) with (60%N :: 124%N :: n ++ [124; 62]%N).
  induction Hnames as [|name names (Hne & Hbar & Hlt) _ IH]; cbn [flat_map app].
  - rewrite contains_none by exact Hbody.
    rewrite bool_decide_eq_false_2; [reflexivity|]. intros H. inversion H.
  - rewrite <- !app_assoc. cbn [app]. rewrite contains_cons.
    set (T := flat_map _ names ++ body) in *.
    assert (Hsw : startswith (60%N :: 124%N :: name ++ 124%N :: 62%N :: T)
                    (60%N :: 124%N :: n ++ [124; 62]%N)
                  = bool_decide (name = n)).
    { cbn [startswith]. change (60 =? 60)%N with true. change (124 =? 124)%N with true.
      cbv iota. rewrite startswith_name by assumption.
      cbn [startswith]. change (62 =? 62)%N with true. cbv iota.
      destruct T; rewrite andb_true_r; reflexivity. }
    rewrite Hsw.
    replace (124%N :: name ++ 124%N :: 62%N :: T)
      with ((124%N :: name ++ [124; 62]%N) ++ T)
      by (cbn [app]; rewrite <- app_assoc; reflexivity).
    rewrite contains_skip, IH.
    + destruct (decide (name = n)) as [->|Hneq].
      * rewrite (bool_decide_eq_true_2 (n = n)) by reflexivity.
        rewrite (bool_decide_eq_true_2 (n ∈ n :: names)) by left. reflexivity.
      * rewrite (bool_decide_eq_false_2 (name = n)) by exact Hneq. cbn [orb].
        apply bool_decide_ext. rewrite elem_of_cons. split; [auto|].
        intros [->|H]; [congruence | exact H].
    + intros H. apply elem_of_cons in H as [H|H]; [discriminate H|].
      apply elem_of_app in H as [H|H]; [exact (Hlt H)|].
      apply elem_of_cons in H as [H|H]; [discriminate H|].
      apply elem_of_cons in H as [H|H]; [discriminate H | inversion H].
Qed.

(** X21. For a text made of tags [<|name|>] and then words (the names not
    empty and without [|] and [<], the words without [<]), the answer
    depends on the words first: with a Chinese character and two Latin
    letters in a row among the words it is [en_cn], whatever the tags
    say.  Otherwise the tags decide: [zh] with a tag [zh] or [yue], else
    [en] with a tag [en], else [zh].  The letters of the tags themselves
    do not count as words. *)
Theorem language_of_tagged_text (names : list pystr) (body : pystr) :
  Forall (fun name => name <> [] /\ (124%N ∉ name) /\ (60%N ∉ name)) names ->
  60%N ∉ body ->
  language_of_text (tagged names body)
  = if has_chinese body && has_english body then py "en_cn"
    else if bool_decide (py "zh" ∈ names \/ py "yue" ∈ names) then py "zh"
    else if bool_decide (py "en" ∈ names) then py "en"
    else py "zh".
Proof.
  intros Hnames Hbody. unfold language_of_text.
  assert (Hbar : forall n, n ∈ [py "zh"; py "yue"; py "en"; py "ja"] -> 124%N ∉ n).
  { intros n Hn. repeat (apply elem_of_cons in Hn as [->|Hn];
      [apply (bool_decide_unpack _); vm_compute; exact I|]). inversion Hn. }
  change (py "<|zh|>") with (py "<|" ++ py "zh" ++ py "|>").
  change (py "<|yue|>") with (py "<|" ++ py "yue" ++ py "|>").
  change (py "<|en|>") with (py "<|" ++ py "en" ++ py "|>").
  change (py "<|ja|>") with (py "<|" ++ py "ja" ++ py "|>").
  rewrite !(contains_tagged names body) by (try assumption; apply Hbar; set_solver).
  rewrite strip_tags_tagged by assumption. cbv zeta.
  destruct (has_chinese body && has_english body); [reflexivity|].
  destruct (decide (py "zh" ∈ names)) as [Hzh|Hzh].
  { rewrite (bool_decide_eq_true_2 _ Hzh). cbn [orb].
    rewrite (bool_decide_eq_true_2 (_ \/ _)) by (left; exact Hzh). reflexivity. }
  rewrite (bool_decide_eq_false_2 _ Hzh). cbn [orb].
  destruct (decide (py "yue" ∈ names)) as [Hyue|Hyue].
  { rewrite (bool_decide_eq_true_2 _ Hyue).
    rewrite (bool_decide_eq_true_2 (_ \/ _)) by (right; exact Hyue). reflexivity. }
  rewrite (bool_decide_eq_false_2 _ Hyue).
  rewrite (bool_decide_eq_false_2 (_ \/ _)) by tauto.
  destruct (bool_decide (py "en" ∈ names)); [reflexivity|].
  destruct (bool_decide (py "ja" ∈ names)); reflexivity.
Qed.

Lemma language_of_tagged_text_witness :
  language_of_text (py "<|en|><|NEUTRAL|>hello 你好") = py "en_cn".
Proof.
  assert (Hnames : Forall (fun name => name <> [] /\ (124%N ∉ name) /\ (60%N ∉ name))
                     [py "en"; py "NEUTRAL"]).
  { repeat (apply Forall_cons; split;
            [split; [discriminate|];
             split; apply (bool_decide_unpack _); vm_compute; exact I|]).
    apply Forall_nil_2. }
  assert (Hbody : 60%N ∉ py "hello 你好")
    by (apply (bool_decide_unpack _); vm_compute; exact I).
  exact (language_of_tagged_text [py "en"; py "NEUTRAL"] (py "hello 你好") Hnames Hbody).
Defined.




End LanguageFacts.

(* ================================================================== *)
(** * More facts about notifier.py *)
(* ================================================================== *)

Module DialogsFacts.
Import PyStr Dialogs.

Lemma replace_char_cons old new c s :
  replace_char old new (c :: s)
  = (if (c =? old)%N then new else [c]) ++ replace_char old new s.
Proof. reflexivity. Qed.

Lemma replace_char_same (c : N) (s : pystr) : replace_char c [c] s = s.
Proof.
  induction s as [|d s IH]; [reflexivity|].
  rewrite replace_char_cons, IH. destruct (N.eqb_spec d c) as [->|_]; reflexivity.
Qed.

Lemma safe_name_escape (filename : pystr) : safe_name filename = escape_quotes filename.
Proof. unfold safe_name. apply replace_char_same. Qed.

(** A quote of the escaped text has a backslash before it. *)
Lemma escape_quotes_guarded (s : pystr) : forall pre post,
  escape_quotes s = pre ++ 34%N :: post -> exists pre', pre = pre' ++ [92%N].
Proof.
  unfold escape_quotes.
  induction s as [|c s IH]; intros pre post.
  - destruct pre; discriminate.
  - rewrite replace_char_cons. destruct (N.eqb_spec c 34) as [->|Hc].
    + destruct pre as [|p [|q pre]]; cbn [app].
      * discriminate.
      * intros [= <- _]. exists []. reflexivity.
      * intros [= <- <- H]. destruct (IH _ _ H) as [pre' ->].
        exists (92%N :: 34%N :: pre'). reflexivity.
    + destruct pre as [|p pre]; cbn [app].
      * intros [= Heq _]. congruence.
      * intros [= <- H]. destruct (IH _ _ H) as [pre' ->].
        exists (c :: pre'). reflexivity.
Qed.

Lemma escape_quotes_inj (a : pystr) : forall b,
  escape_quotes a = escape_quotes b -> a = b.
Proof.
  assert (Hhead : forall s rest, escape_quotes s <> 34%N :: rest).
  { intros s rest H. destruct (escape_quotes_guarded s [] rest H) as [pre' Hpre].
    destruct pre'; discriminate Hpre. }
  unfold escape_quotes in *.
  induction a as [|c a IH]; intros [|d b].
  - reflexivity.
  - rewrite replace_char_cons. destruct (d =? 34)%N; discriminate.
  - rewrite replace_char_cons. destruct (c =? 34)%N; discriminate.
  - rewrite !replace_char_cons.
    destruct (N.eqb_spec c 34) as [->|Hc], (N.eqb_spec d 34) as [->|Hd]; cbn [app].
    + intros [= H]. f_equal. apply IH, H.
    + intros [= <- H]. destruct (Hhead b _ (eq_sym H)).
    + intros [= -> H]. destruct (Hhead a _ H).
    + intros [= -> H]. f_equal. apply IH, H.
Qed.

Lemma escape_quotes_length (s : pystr) :
  length (escape_quotes s)
  = (length s + length (filter (fun c => c = 34%N) s))%nat.
Proof.
  unfold escape_quotes. induction s as [|c s IH]; [reflexivity|].
  rewrite replace_char_cons, length_app, IH.
  destruct (N.eqb_spec c 34) as [->|Hc].
  - rewrite filter_cons_True by reflexivity. cbn [length]. lia.
  - rewrite filter_cons_False by exact Hc. cbn [length]. lia.
Qed.

(** X23. The escaping of [notify], [ask_confirm] and [show_result_dialog] puts
    a backslash before every double quote and changes nothing else: in
    the result every quote follows a backslash, the text grows by one
    character for each quote, a text without quotes is unchanged, and two
    texts that differ stay different.  The second [replace] of
    [ask_confirm], of the single quote by itself, changes nothing. *)
Theorem escape_quotes_spec (s : pystr) :
  (forall pre post, escape_quotes s = pre ++ 34%N :: post ->
                    exists pre', pre = pre' ++ [92%N])
  /\ length (escape_quotes s)
     = (length s + length (filter (fun c => c = 34%N) s))%nat
  /\ (34%N ∉ s -> escape_quotes s = s)
  /\ (forall s', escape_quotes s = escape_quotes s' -> s = s')
  /\ safe_name s = escape_quotes s.
Proof.
  split; [apply escape_quotes_guarded|]. split; [apply escape_quotes_length|].
  split; [|split; [apply escape_quotes_inj | apply safe_name_escape]].
  unfold escape_quotes. induction s as [|c s IH]; intros Hno; [reflexivity|].
  rewrite replace_char_cons, IH by (intros H; apply Hno; right; exact H).
  destruct (N.eqb_spec c 34) as [->|_]; [|reflexivity].
  exfalso. apply Hno. left.
Qed.

Lemma escape_quotes_spec_witness : escape_quotes (py "talk.mp4") = py "talk.mp4".
Proof.
  assert (Hno : 34%N ∉ py "talk.mp4") by (apply (bool_decide_unpack _); vm_compute; exact I).
  exact (proj1 (proj2 (proj2 (escape_quotes_spec (py "talk.mp4")))) Hno).
Defined.

Lemma short_error_length (n : nat) (error : pystr) :
  (length (short_error n error) <= n + 3)%nat.
Proof.
  unfold short_error. destruct (Nat.ltb_spec n (length error)) as [Hlt|Hge].
  - rewrite length_app, length_take. change (length (py "...")) with 3%nat. lia.
  - lia.
Qed.

(** X24. The error is cut before it is escaped.  What the dialog of a failure
    shows is the error itself when it has at most 120 characters, and
    else its first 120 characters and three dots, with a backslash before
    every double quote: at most 243 characters, and no quote without its
    backslash, also at the place of the cut.  [notify_fail] cuts at 80
    in the same way: its message is the name of the file, the two
    characters that stand for a line break, and the error itself when it
    has at most 80 characters, else its first 80 characters and three
    dots; [notify] then escapes the name and the cut error. *)
Theorem dialog_error_cut_then_escaped (error : pystr) :
  dialog_error error
  = escape_quotes (if (120 <? length error)%nat then take 120 error ++ py "..."
                   else error)
  /\ (length (dialog_error error) <= 243)%nat
  /\ (forall pre post, dialog_error error = pre ++ 34%N :: post ->
                       exists pre', pre = pre' ++ [92%N])
  /\ (forall filename,
        let cut := if (80 <? length error)%nat then take 80 error ++ py "..."
                   else error in
        notify_fail_message filename error = filename ++ [92; 110]%N ++ cut
        /\ escape_quotes (notify_fail_message filename error)
           = escape_quotes filename ++ [92; 110]%N ++ escape_quotes cut
        /\ (length cut = if (80 <? length error)%nat then 83%nat else length error)
        /\ (length (notify_fail_message filename error) <= length filename + 85)%nat).
Proof.
  unfold dialog_error. rewrite safe_name_escape.
  split; [reflexivity|]. split; [|split].
  - rewrite escape_quotes_length. unfold short_error.
    destruct (Nat.ltb_spec 120 (length error)) as [Hlt|Hge].
    + rewrite filter_app, !length_app, length_take.
      change (filter (fun c => c = 34%N) (py "...")) with (@nil N).
      change (length (py "...")) with 3%nat. cbn [length].
      pose proof (length_filter (fun c => c = 34%N) (take 120 error)) as Hf.
      rewrite length_take in Hf. lia.
    + pose proof (length_filter (fun c => c = 34%N) error). lia.
  - apply escape_quotes_guarded.
  - intros filename. cbv zeta. unfold notify_fail_message, short_error.
    change (py "\n") with [92; 110]%N.
    split; [reflexivity|]. split; [|split].
    + unfold escape_quotes, replace_char. rewrite !flat_map_app. reflexivity.
    + destruct (Nat.ltb_spec 80 (length error)) as [Hlt|Hge]; [|reflexivity].
      rewrite length_app, length_take. change (length (py "...")) with 3%nat. lia.
    + rewrite !length_app. cbn [length].
      destruct (Nat.ltb_spec 80 (length error)) as [Hlt|Hge]; [|lia].
      rewrite length_app, length_take. change (length (py "...")) with 3%nat. lia.
Qed.

End DialogsFacts.

(* ================================================================== *)
(** * Facts about the Markdown transcript *)
(* ================================================================== *)

Module MarkdownFacts.
Import PyStr PyFloat FileManager Transcriber Markdown.
Import PyStrFacts FileManagerFacts TranscriberFacts NamingFacts.

(** ** Time stamps *)

Lemma format_02d_length (n : Z) : 0 <= n < 100 -> length (format_02d n) = 2%nat.
Proof.
  intros Hn.
  assert (Hall : forallb (fun k => Nat.eqb (length (format_02d (Z.of_nat k))) 2)
                   (seq 0 100) = true) by (vm_compute; reflexivity).
  rewrite List.forallb_forall in Hall.
  specialize (Hall (Z.to_nat n)). rewrite Z2Nat.id in Hall by lia.
  apply Nat.eqb_eq, Hall, List.in_seq. lia.
Qed.

(** [int] reads a number back from its two-digit form. *)
Lemma py_int_format_02d (n : Z) : py_int ascii_digit (format_02d n) = Some n.
Proof.
  unfold format_02d. destruct ((0 <=? n) && (n <? 10)) eqn:Hpad;
    [|apply py_int_str_of_int].
  apply andb_prop in Hpad as [H0 H10]. apply Z.leb_le in H0. apply Z.ltb_lt in H10.
  rewrite <- (Z2Nat.id n H0).
  assert (Hall : forallb (fun k => bool_decide
                            (py_int ascii_digit (48%N :: str_of_int (Z.of_nat k))
                             = Some (Z.of_nat k)))
                   (seq 0 10) = true) by (vm_compute; reflexivity).
  rewrite List.forallb_forall in Hall.
  specialize (Hall (Z.to_nat n)).
  apply bool_decide_eq_true in Hall; [exact Hall|]. apply List.in_seq. lia.
Qed.

Lemma format_02d_inj (a b : Z) : format_02d a = format_02d b -> a = b.
Proof.
  intros H. pose proof (py_int_format_02d a) as Ha. rewrite H, py_int_format_02d in Ha.
  congruence.
Qed.

Lemma clock_fields_inj (h m s h' m' s' : Z) :
  0 <= m < 60 -> 0 <= s < 60 -> 0 <= m' < 60 -> 0 <= s' < 60 ->
  format_02d h ++ py ":" ++ format_02d m ++ py ":" ++ format_02d s
  = format_02d h' ++ py ":" ++ format_02d m' ++ py ":" ++ format_02d s' ->
  h = h' /\ m = m' /\ s = s'.
Proof.
  intros Hm Hs Hm' Hs' Heq.
  pose proof (format_02d_length m ltac:(lia)) as Lm.
  pose proof (format_02d_length s ltac:(lia)) as Ls.
  pose proof (format_02d_length m' ltac:(lia)) as Lm'.
  pose proof (format_02d_length s' ltac:(lia)) as Ls'.
  apply app_inj_2 in Heq as [Hh Heq].
  2: { rewrite !length_app, Lm, Ls, Lm', Ls'. reflexivity. }
  apply app_inj_1 in Heq as [_ Heq]; [|reflexivity].
  apply app_inj_1 in Heq as [Hmm Heq]; [|congruence].
  apply app_inj_1 in Heq as [_ Hss]; [|reflexivity].
  split; [exact (format_02d_inj _ _ Hh)|].
  split; [exact (format_02d_inj _ _ Hmm) | exact (format_02d_inj _ _ Hss)].
Qed.

(** X10. A time stamp shows the whole seconds of its argument and nothing
    else: two arguments get the same stamp exactly when they lie in the
    same second.  The minutes and the seconds have two digits below 60;
    below 100 hours the stamp is 8 characters long. *)
Theorem format_timestamp_seconds (a b : Z) :
  (format_timestamp a = format_timestamp b <-> a / 1000 = b / 1000)
  /\ (0 <= a < 360000000 -> length (format_timestamp a) = 8%nat)
  /\ (forall n, 0 <= n < 1000 -> format_timestamp (1000 * (a / 1000) + n)
                                 = format_timestamp a).
Proof.
  unfold format_timestamp. cbv zeta. split; [|split].
  - split; [|intros ->; reflexivity].
    intros Heq. apply clock_fields_inj in Heq as (Hh & Hm & Hs);
      try (apply Z.mod_pos_bound; lia);
      try (split; [apply Z.div_pos; [apply Z.mod_pos_bound|]; lia
                  | apply Z.div_lt_upper_bound; [lia | apply Z.mod_pos_bound; lia]]).
    rewrite (Z.div_mod (a / 1000) 3600), (Z.div_mod (b / 1000) 3600) by lia.
    rewrite Hh. f_equal.
    rewrite (Z.div_mod ((a / 1000) mod 3600) 60), (Z.div_mod ((b / 1000) mod 3600) 60)
      by lia.
    rewrite Hm. f_equal.
    replace (((a / 1000) mod 3600) mod 60) with ((a / 1000) mod 60)
      by (symmetry; apply Z.mod_mod_divide; exists 60; lia).
    replace (((b / 1000) mod 3600) mod 60) with ((b / 1000) mod 60)
      by (symmetry; apply Z.mod_mod_divide; exists 60; lia).
    exact Hs.
  - intros Ha. rewrite !length_app.
    assert (Hh : 0 <= a / 1000 / 3600 < 100).
    { split; [apply Z.div_pos; [apply Z.div_pos|]; lia|].
      apply Z.div_lt_upper_bound; [lia|]. apply Z.div_lt_upper_bound; lia. }
    assert (Hm : 0 <= (a / 1000) mod 3600 / 60 < 100).
    { pose proof (Z.mod_pos_bound (a / 1000) 3600 ltac:(lia)).
      split; [apply Z.div_pos; lia | apply Z.div_lt_upper_bound; lia]. }
    assert (Hs : 0 <= (a / 1000) mod 60 < 100).
    { pose proof (Z.mod_pos_bound (a / 1000) 60 ltac:(lia)). lia. }
    rewrite (format_02d_length _ Hh), (format_02d_length _ Hm), (format_02d_length _ Hs).
    reflexivity.
  - intros n Hn.
    replace ((1000 * (a / 1000) + n) / 1000) with (a / 1000); [reflexivity|].
    symmetry. rewrite Z.mul_comm, Z.div_add_l by lia.
    rewrite (Z.div_small n 1000) by lia. lia.
Qed.

Lemma format_timestamp_seconds_witness :
  length (format_timestamp 3723456) = 8%nat
  /\ format_timestamp 3723000 = format_timestamp 3723456.
Proof.
  split.
  - apply (format_timestamp_seconds 3723456 0). lia.
  - apply (format_timestamp_seconds 3723000 3723456). reflexivity.
Defined.

(** ** The labels of the speakers *)

(** What holds of [speaker_map] and [speaker_counter] at every turn. *)
Lemma note_speaker_inv (speaker_map : list (pystr * pystr)) (spk : option pystr) :
  let state := (speaker_map, Z.of_nat (length speaker_map) + 1) in
  let speaker_map' := (note_speaker state spk).1 in
  (note_speaker state spk).2 = Z.of_nat (length speaker_map') + 1
  /\ speaker_map `prefix_of` speaker_map'
  /\ (NoDup speaker_map.*1 -> NoDup speaker_map'.*1)
  /\ (forall k, k ∈ speaker_map'.*1 <-> k ∈ speaker_map.*1 \/ spk = Some k)
  /\ ((forall i k label, speaker_map !! i = Some (k, label) ->
         label = py "说话人" ++ str_of_int (Z.of_nat i + 1)) ->
      forall i k label, speaker_map' !! i = Some (k, label) ->
         label = py "说话人" ++ str_of_int (Z.of_nat i + 1)).
Proof.
  cbv zeta. unfold note_speaker. destruct spk as [spk|].
  2: { cbn [fst snd]. split; [reflexivity|]. split; [reflexivity|]. split; [auto|].
       split; [|auto]. intros k. split; [auto | intros [H|H]; [exact H | discriminate H]]. }
  case_bool_decide as Hin; cbn [fst snd].
  - split; [reflexivity|]. split; [reflexivity|]. split; [auto|]. split; [|auto].
    intros k. split; [auto|]. intros [H|[= ->]]; [exact H | exact Hin].
  - split; [rewrite length_app; cbn [length]; lia|].
    split; [apply prefix_app_r; reflexivity|]. split; [|split].
    + intros Hnd. rewrite fmap_app. apply NoDup_app. split; [exact Hnd|]. split.
      * intros x Hx Hx'. cbn in Hx'. apply elem_of_cons in Hx' as [->|Hx'];
          [exact (Hin Hx) | inversion Hx'].
      * cbn. apply NoDup_singleton.
    + intros k. rewrite fmap_app, elem_of_app. cbn. rewrite elem_of_cons. split.
      * intros [H|[->|H]]; [left; exact H | right; reflexivity | inversion H].
      * intros [H|[= ->]]; [left; exact H | right; left; reflexivity].
    + intros Hlab i k label Hi.
      destruct (decide (i < length speaker_map)%nat) as [Hlt|Hge].
      * rewrite lookup_app_l in Hi by exact Hlt. exact (Hlab _ _ _ Hi).
      * rewrite lookup_app_r in Hi by lia.
        destruct (i - length speaker_map)%nat as [|j] eqn:Hj; [|discriminate Hi].
        injection Hi as <- <-. replace i with (length speaker_map) by lia. reflexivity.
Qed.

Lemma fold_note_speaker (speakers : list (option pystr)) :
  forall speaker_map : list (pystr * pystr),
  let state := (speaker_map, Z.of_nat (length speaker_map) + 1) in
  let speaker_map' := (fold_left note_speaker speakers state).1 in
  speaker_map `prefix_of` speaker_map'
  /\ (NoDup speaker_map.*1 -> NoDup speaker_map'.*1)
  /\ (forall k, k ∈ speaker_map'.*1 <-> k ∈ speaker_map.*1 \/ Some k ∈ speakers)
  /\ ((forall i k label, speaker_map !! i = Some (k, label) ->
         label = py "说话人" ++ str_of_int (Z.of_nat i + 1)) ->
      forall i k label, speaker_map' !! i = Some (k, label) ->
         label = py "说话人" ++ str_of_int (Z.of_nat i + 1)).
Proof.
  induction speakers as [|spk speakers IH]; intros speaker_map; cbv zeta;
    cbn [fold_left fst].
  - split; [reflexivity|]. split; [auto|]. split; [|auto].
    intros k. split; [auto | intros [H|H]; [exact H | inversion H]].
  - destruct (note_speaker_inv speaker_map spk) as (Hc & Hpre & Hnd & Hkeys & Hlab).
    cbv zeta in Hc, Hpre, Hnd, Hkeys, Hlab.
    destruct (note_speaker (speaker_map, Z.of_nat (length speaker_map) + 1) spk)
      as [speaker_map1 counter1] eqn:Hstep. cbn [fst snd] in *. subst counter1.
    destruct (IH speaker_map1) as (Hpre' & Hnd' & Hkeys' & Hlab'). cbv zeta in *.
    split; [etrans; [exact Hpre | exact Hpre']|].
    split; [intros H; apply Hnd', Hnd, H|].
    split; [|intros H; apply Hlab', Hlab, H].
    intros k. rewrite Hkeys', Hkeys, elem_of_cons. split.
    + intros [[H|H]|H]; [left; exact H | right; left; congruence | right; right; exact H].
    + intros [H|[H|H]]; [left; left; exact H | left; right; congruence | right; exact H].
Qed.

Lemma label_of_lookup (speaker_map : list (pystr * pystr)) (spk label : pystr) :
  label_of speaker_map spk = Some label ->
  exists i, speaker_map !! i = Some (spk, label).
Proof.
  induction speaker_map as [|[k l] rest IH]; cbn [label_of]; [discriminate|].
  case_bool_decide as Hk.
  - intros [= ->]. subst k. exists 0%nat. reflexivity.
  - intros H. destruct (IH H) as [i Hi]. exists (S i). exact Hi.
Qed.

Lemma label_of_key (speaker_map : list (pystr * pystr)) (spk : pystr) :
  spk ∈ speaker_map.*1 -> is_Some (label_of speaker_map spk).
Proof.
  induction speaker_map as [|[k l] rest IH]; cbn [label_of]; [intros H; inversion H|].
  cbn. rewrite elem_of_cons. case_bool_decide as Hk; [eauto|].
  intros [->|H]; [congruence | exact (IH H)].
Qed.

(** X11. The speakers are numbered from 1 in the order in which they first
    speak: the label of the [i]-th entry of the map is [说话人] followed
    by [i+1]; every speaker of a segment has exactly one entry, and so a
    label; two speakers never share a label; and the segments that come
    later add entries at the end without changing those that are there. *)
Theorem speaker_labels (speakers : list (option pystr)) :
  let speaker_map := speaker_map_of speakers in
  NoDup speaker_map.*1
  /\ (forall spk, spk ∈ speaker_map.*1 <-> Some spk ∈ speakers)
  /\ (forall i spk label, speaker_map !! i = Some (spk, label) ->
        label = py "说话人" ++ str_of_int (Z.of_nat i + 1))
  /\ (forall spk, Some spk ∈ speakers -> is_Some (label_of speaker_map spk))
  /\ (forall spk1 spk2 label,
        label_of speaker_map spk1 = Some label ->
        label_of speaker_map spk2 = Some label -> spk1 = spk2)
  /\ (forall more, speaker_map `prefix_of` speaker_map_of (speakers ++ more)).
Proof.
  cbv zeta. unfold speaker_map_of.
  destruct (fold_note_speaker speakers []) as (_ & Hnd & Hkeys & Hlab).
  cbv zeta in Hnd, Hkeys, Hlab. change (Z.of_nat (length (@nil (pystr * pystr))) + 1) with 1
    in Hnd, Hkeys, Hlab.
  specialize (Hnd (NoDup_nil_2 : NoDup (@nil pystr))).
  assert (Hlab' := Hlab ltac:(intros i k label H; discriminate H)). clear Hlab.
  assert (Hkeys' : forall spk, spk ∈ (fold_left note_speaker speakers ([], 1)).1.*1
                               <-> Some spk ∈ speakers).
  { intros spk. rewrite Hkeys. split; [intros [H|H]; [inversion H | exact H] | auto]. }
  split; [exact Hnd|]. split; [exact Hkeys'|]. split; [exact Hlab'|].
  split; [|split].
  - intros spk Hspk. apply label_of_key, Hkeys', Hspk.
  - intros spk1 spk2 label H1 H2.
    apply label_of_lookup in H1 as [i Hi]. apply label_of_lookup in H2 as [j Hj].
    pose proof (Hlab' _ _ _ Hi) as Li. pose proof (Hlab' _ _ _ Hj) as Lj.
    rewrite Li in Lj. apply app_inv_head, str_of_int_inj in Lj.
    assert (i = j) by lia. subst j. congruence.
  - intros more. rewrite fold_left_app.
    destruct (fold_left note_speaker speakers ([], 1)) as [m c] eqn:Hfold.
    assert (Hc : c = Z.of_nat (length m) + 1).
    { clear -Hfold. revert m c Hfold.
      assert (Hgen : forall l m0 m c,
                fold_left note_speaker l (m0, Z.of_nat (length m0) + 1) = (m, c) ->
                c = Z.of_nat (length m) + 1).
      { induction l as [|spk l IH]; intros m0 m c; cbn [fold_left].
        - intros [= <- <-]. reflexivity.
        - destruct (note_speaker_inv m0 spk) as (Hc & _). cbv zeta in Hc.
          destruct (note_speaker (m0, Z.of_nat (length m0) + 1) spk) as [m1 c1].
          cbn [fst snd] in Hc. subst c1. apply IH. }
      intros m c. apply (Hgen speakers []). }
    subst c. cbn [fst]. apply (fold_note_speaker more m).
Qed.

Lemma speaker_labels_witness :
  is_Some (label_of (speaker_map_of [Some (py "spk1"); None; Some (py "spk0");
                                     Some (py "spk1")])
             (py "spk0")).
Proof.
  apply (speaker_labels [Some (py "spk1"); None; Some (py "spk0"); Some (py "spk1")]).
  right. right. left.
Defined.

(** ** The lines *)

Lemma segment_lines_length speaker_map seg lines :
  segment_lines speaker_map seg = Some lines -> length lines = 3%nat.
Proof.
  unfold segment_lines.
  destruct (as_int (seg_start seg)); [|discriminate].
  destruct (as_int (seg_end seg)); [|discriminate].
  destruct (seg_text seg); try discriminate.
  destruct (speaker_key seg); [|discriminate].
  intros [= <-]. reflexivity.
Qed.

Lemma body_length speaker_map (segments : list Segment) : forall body,
  mapM (segment_lines speaker_map) segments = Some body ->
  length (concat body) = (3 * length segments)%nat.
Proof.
  intros body Hbody. apply mapM_Some in Hbody.
  induction Hbody as [|seg lines segments body Hseg _ IH]; [reflexivity|].
  cbn [concat length]. rewrite length_app, IH, (segment_lines_length _ _ _ Hseg). lia.
Qed.

Lemma speaker_key_segment_of (u : UniformSegment) :
  speaker_key (segment_of u)
  = Some (match speakerId u with [] => None | spk => Some spk end).
Proof. unfold speaker_key, segment_of. cbn. destruct (speakerId u); reflexivity. Qed.

Lemma segment_lines_segment_of speaker_map (u : UniformSegment) :
  is_Some (segment_lines speaker_map (segment_of u)).
Proof.
  unfold segment_lines. rewrite speaker_key_segment_of. cbn. eauto.
Qed.

Lemma mapM_is_Some {A B} (f : A -> option B) (l : list A) :
  Forall (fun x => is_Some (f x)) l -> is_Some (mapM f l).
Proof.
  induction 1 as [|x l [y Hy] _ [k Hk]]; [eexists; reflexivity|].
  cbn. rewrite Hy. cbn. rewrite Hk. cbn. eauto.
Qed.

Lemma omap_cons {A B} (f : A -> option B) (x : A) (l : list A) :
  omap f (x :: l) = match f x with Some y => y :: omap f l | None => omap f l end.
Proof. reflexivity. Qed.

Lemma omap_id_nil {A} (l : list (option A)) :
  Forall (fun x => x = None) l -> omap id l = [].
Proof.
  induction 1 as [|x l Hx _ IH]; [reflexivity|]. rewrite omap_cons, Hx. exact IH.
Qed.

(** The speakers the two counts see are the same. *)
Lemma speakers_of_keys (segments : list Segment) : forall speakers,
  mapM speaker_key segments = Some speakers ->
  omap id speakers
  = omap (fun seg => match seg_speaker seg with
                     | PStr (c :: s) => Some (c :: s)
                     | _ => None
                     end) segments.
Proof.
  intros speakers H. apply mapM_Some in H.
  induction H as [|seg spk segments speakers Hseg _ IH]; [reflexivity|].
  rewrite !omap_cons, IH. unfold speaker_key in Hseg.
  destruct (seg_speaker seg) as [|b|n|[|c s]|l|l|d|truthy i]; cbn [truth] in Hseg.
  - injection Hseg as <-. reflexivity.
  - destruct b; [discriminate Hseg | injection Hseg as <-; reflexivity].
  - destruct (negb (n =? 0)); [discriminate Hseg | injection Hseg as <-; reflexivity].
  - injection Hseg as <-. reflexivity.
  - injection Hseg as <-. reflexivity.
  - destruct (negb _); [discriminate Hseg | injection Hseg as <-; reflexivity].
  - destruct (negb _); [discriminate Hseg | injection Hseg as <-; reflexivity].
  - destruct (negb _); [discriminate Hseg | injection Hseg as <-; reflexivity].
  - destruct truthy; [discriminate Hseg | injection Hseg as <-; reflexivity].
Qed.

(** X12. The transcript has the eleven lines of its head and three lines for
    each segment.  It is written for everything the parser makes of a
    result of the three shapes: no statement raises.  The head shows the
    number of speakers that the final dialog shows, except when no segment
    has a speaker: then the head shows [未知] and the dialog 1.  The label
    of the language is that of the dialog, except for [en_cn], which the
    head shows as it is. *)
Theorem save_transcript_md_lines (standard_name lang : pystr) (duration_sec : Q) :
  (forall segments lines,
     save_transcript_md standard_name lang duration_sec segments = Some lines ->
     length lines = (11 + 3 * length segments)%nat
     /\ lines !! 0%nat = Some (py "# 转录: " ++ standard_name))
  /\ (forall repr shapes segments,
        Forall well_shaped shapes ->
        _parse_funasr_result repr (PList (List.map encode shapes)) = Some segments ->
        is_Some (save_transcript_md standard_name lang duration_sec segments))
  /\ (forall segments speakers,
        mapM speaker_key segments = Some speakers ->
        num_speakers speakers
        = if bool_decide (Forall (fun spk => spk = None) speakers) then py "未知"
          else str_of_int (Main.count_speakers segments))
  /\ (md_lang_label lang = Main.lang_label lang <-> (lang = py "en_cn" -> False)).
Proof.
  split; [|split; [|split]].
  - intros segments lines. unfold save_transcript_md.
    destruct (mapM speaker_key segments) as [speakers|]; [|discriminate]. cbv zeta.
    destruct (mapM (segment_lines (speaker_map_of speakers)) segments) as [body|] eqn:Hbody;
      [|discriminate]. intros Heq. apply (inj Some) in Heq. rewrite <- Heq.
    split; [|reflexivity]. rewrite length_app, (body_length _ _ _ Hbody).
    unfold head_lines. cbn [length]. lia.
  - intros repr shapes segments Hwf Hparse.
    assert (Hseg : exists us, segments = List.map segment_of us).
    { unfold _parse_funasr_result in Hparse.
      destruct shapes as [|sh shapes]; [injection Hparse as <-; exists []; reflexivity|].
      change (truth (PList (List.map encode (sh :: shapes)))) with true in Hparse.
      cbn [negb iterate] in Hparse. rewrite (for_each_items repr _ _ Hwf) in Hparse.
      injection Hparse as <-. eexists. reflexivity. }
    destruct Hseg as [us ->]. clear Hparse. unfold save_transcript_md.
    assert (H1 : is_Some (mapM speaker_key (List.map segment_of us))).
    { apply mapM_is_Some. induction us as [|u us IH]; cbn [List.map]; constructor;
        [|exact IH]. rewrite speaker_key_segment_of. eauto. }
    destruct H1 as [speakers ->]. cbv zeta.
    assert (H2 : is_Some (mapM (segment_lines (speaker_map_of speakers))
                            (List.map segment_of us))).
    { apply mapM_is_Some. induction us as [|u us IH]; cbn [List.map]; constructor;
        [|exact IH]. apply segment_lines_segment_of. }
    destruct H2 as [body ->]. eauto.
  - intros segments speakers Hkeys. unfold num_speakers, Main.count_speakers.
    rewrite <- (speakers_of_keys _ _ Hkeys).
    set (S := list_to_set (omap id speakers) : gset pystr).
    assert (Hnone : Forall (fun spk => spk = None) speakers <-> S = ∅).
    { split.
      - intros Hall. unfold S. rewrite (omap_id_nil _ Hall). reflexivity.
      - intros Hempty. apply Forall_forall. intros [spk|] Hin; [|reflexivity].
        exfalso. assert (Hspk : spk ∈ S).
        { unfold S. apply elem_of_list_to_set, list_elem_of_omap.
          exists (Some spk). split; [exact Hin | reflexivity]. }
        rewrite Hempty in Hspk. exact (not_elem_of_empty _ Hspk). }
    destruct (decide (S = ∅)) as [Hempty|Hne].
    + rewrite (bool_decide_eq_true_2 _ Hempty).
      rewrite bool_decide_eq_true_2 by (apply Hnone; exact Hempty). reflexivity.
    + rewrite (bool_decide_eq_false_2 _ Hne).
      rewrite bool_decide_eq_false_2 by (rewrite Hnone; exact Hne).
      f_equal. assert (size S <> 0%nat)
        by (apply size_non_empty_iff; intros He; apply Hne, leibniz_equiv, He).
      lia.
  - unfold md_lang_label, Main.lang_label.
    destruct (decide (lang = py "zh")) as [->|Hzh].
    { split; [intros _ Hmix; discriminate Hmix | reflexivity]. }
    rewrite !(bool_decide_eq_false_2 (lang = py "zh")) by exact Hzh.
    destruct (decide (lang = py "en")) as [->|Hen].
    { split; [intros _ Hmix; discriminate Hmix | reflexivity]. }
    rewrite !(bool_decide_eq_false_2 (lang = py "en")) by exact Hen.
    destruct (decide (lang = py "en_cn")) as [->|Hmix].
    { split; [intros Heq; discriminate Heq | intros Hno; destruct (Hno eq_refl)]. }
    rewrite (bool_decide_eq_false_2 (lang = py "en_cn")) by exact Hmix.
    split; [intros _; exact Hmix | reflexivity].
Qed.

Lemma save_transcript_md_lines_witness :
  is_Some (save_transcript_md (py "2026_1_1_zh_1") (py "zh") 75
             (List.map segment_of (concat (List.map normalize Examples.three_shapes)))).
Proof.
  apply (proj1 (proj2 (save_transcript_md_lines (py "2026_1_1_zh_1") (py "zh") 75))
           (fun _ => []) Examples.three_shapes).
  - unfold Examples.three_shapes.
    repeat (apply List.Forall_cons;
            [vm_compute; try split; intros H; discriminate H|]).
    apply List.Forall_nil.
  - reflexivity.
Defined.

End MarkdownFacts.

(* ================================================================== *)
(** * More facts about main.py *)
(* ================================================================== *)

Module PipelineFacts.
Import PyStr Progress FileManager Transcriber Main Trace Pipeline.
Import ProgressFacts FileManagerFacts MainFacts TraceFacts.
Local Open Scope m_scope.





(** What [process_video] does to the record of processed paths when the
    record can be written. *)
Lemma process_video_started_processed run video_path filesize_mb w :
  r_mark run = Saved ->
  w_processed (process_video_started run video_path filesize_mb w).2
  = {[ str_of_path video_path ]} ∪ w_processed w.
Proof.
  intros Hmark. unfold process_video_started.
  rewrite bind_progress, bind_mark_processed, Hmark, bind_emit, bind_attempt.
  set (w1 := add_event _ _).
  assert (H1 : w_processed (try_until_name run video_path w1).2
               = {[ str_of_path video_path ]} ∪ w_processed w).
  { rewrite (keeps_try_until_name w_processed); reflexivity. }
  destruct (try_until_name run video_path w1) as [[t|e] w2]; cbn [fst snd] in *.
  - rewrite bind_attempt.
    assert (H2 : w_processed (try_after_name run video_path t w2).2
                 = {[ str_of_path video_path ]} ∪ w_processed w).
    { rewrite (keeps_try_after_name w_processed); [exact H1 | reflexivity ..]. }
    destruct (try_after_name run video_path t w2) as [[[]|e] w3]; cbn [fst snd] in *.
    + exact H2.
    + destruct (except_eq run video_path (Some (tr_standard_name t)) e w3)
        as (w' & -> & _ & Hproc). cbn [snd]. rewrite Hproc. exact H2.
  - destruct (except_eq run video_path None e w2) as (w' & -> & _ & Hproc).
    cbn [snd]. rewrite Hproc. exact H1.
Qed.




(** ** The managed directory *)

Lemma bind_run {A B} (m : M A) (k : A -> M B) w :
  bind m k w = match (m w).1 with
               | Ret a => k a (m w).2
               | Raise e => (Raise e, (m w).2)
               end.
Proof. unfold bind. destruct (m w) as [[a|e] w']; reflexivity. Qed.

Lemma moves_app (a b : list Event) : moves (a ++ b) = moves a ++ moves b.
Proof. unfold moves. apply omap_app. Qed.

Lemma managed_event e w :
  (forall src dest, e <> VideoMoved src dest) -> managed (add_event e w) = managed w.
Proof.
  intros Hne. unfold managed. world_simpl. rewrite moves_app.
  destruct e; cbn [moves omap]; rewrite ?app_nil_r; try reflexivity.
  exfalso. eapply Hne. reflexivity.
Qed.

Lemma keeps_managed_emit e :
  (forall src dest, e <> VideoMoved src dest) -> keeps managed (emit e).
Proof. intros Hne w. apply managed_event, Hne. Qed.

Lemma keeps_managed_run_transcribe run : keeps managed (_run_transcribe_with_progress run).
Proof.
  unfold _run_transcribe_with_progress.
  induction (r_ticks run) as [|tick ticks IH]; cbn [fold_right].
  - apply keeps_call.
  - apply keeps_bind; [apply keeps_progress; reflexivity | intros _; exact IH].
Qed.

Lemma keeps_managed_try_until_name run video_path :
  keeps managed (try_until_name run video_path).
Proof.
  unfold try_until_name.
  repeat first
    [ apply keeps_ret | apply keeps_call
    | apply keeps_managed_emit; discriminate
    | apply keeps_managed_run_transcribe | apply keeps_generate_standard_name
    | apply keeps_progress; reflexivity
    | apply keeps_bind; [|intros ?] ].
Qed.

Lemma exists_mono (dir dir' : list pystr) (dang dang' : gset pystr) (dest : pystr) :
  (forall x, x ∈ dir -> x ∈ dir') -> dang' ⊆ dang ->
  exists_ dir dang dest = true -> exists_ dir' dang' dest = true.
Proof.
  unfold exists_. intros Hdir Hdang H.
  apply andb_prop in H as [Hin Hnot].
  apply bool_decide_eq_true_1 in Hin. apply negb_true_iff, bool_decide_eq_false_1 in Hnot.
  apply andb_true_intro. split.
  - apply bool_decide_eq_true_2, Hdir, Hin.
  - apply negb_true_iff, bool_decide_eq_false_2. intros H. apply Hnot, Hdang, H.
Qed.

Lemma stores_same n m w w' : managed w' = managed w -> stores n m w w'.
Proof.
  unfold managed. intros [= Hdir Hdang Hmoves].
  exists [], []. rewrite Hdir, Hdang, Hmoves, !app_nil_r.
  repeat split; try reflexivity; try (cbn [length]; lia).
  - apply NoDup_nil_2.
  - intros dest Hin. inversion Hin.
  - inversion H.
  - inversion H.
Qed.

Lemma stores_weaken n m n' m' w w' :
  (n <= n')%nat -> (m <= m')%nat -> stores n m w w' -> stores n' m' w w'.
Proof.
  intros Hn Hm (new & moved & Hdir & Hnd & Hnew & Hlen & Hmoves & Hlenm & Hmoved & Hdang).
  exists new, moved. repeat split; try assumption; try lia; apply Hmoved; assumption.
Qed.

Lemma stores_from n m w w1 w2 :
  managed w1 = managed w -> stores n m w1 w2 -> stores n m w w2.
Proof.
  unfold managed, stores. intros [= Hdir Hdang Hmoves]. rewrite Hdir, Hdang, Hmoves.
  auto.
Qed.

Lemma stores_trans n1 m1 n2 m2 w w1 w2 :
  stores n1 m1 w w1 -> stores n2 m2 w1 w2 -> stores (n1 + n2) (m1 + m2) w w2.
Proof.
  intros (new1 & moved1 & Hdir1 & Hnd1 & Hnew1 & Hlen1 & Hmoves1 & Hlenm1 & Hmoved1 & Hdang1)
         (new2 & moved2 & Hdir2 & Hnd2 & Hnew2 & Hlen2 & Hmoves2 & Hlenm2 & Hmoved2 & Hdang2).
  exists (new1 ++ new2), (moved1 ++ moved2).
  assert (Hsub1 : forall x, x ∈ w_video_dir w -> x ∈ w_video_dir w1).
  { intros x Hx. rewrite Hdir1. apply elem_of_app. left. exact Hx. }
  assert (Hsub2 : forall x, x ∈ w_video_dir w1 -> x ∈ w_video_dir w2).
  { intros x Hx. rewrite Hdir2. apply elem_of_app. left. exact Hx. }
  split; [rewrite Hdir2, Hdir1, app_assoc; reflexivity|].
  split.
  { apply NoDup_app. split; [exact Hnd1|]. split; [|exact Hnd2].
    intros x Hx1 Hx2. apply (Hnew2 x Hx2). rewrite Hdir1. apply elem_of_app. right.
    exact Hx1. }
  split.
  { intros dest Hin. apply elem_of_app in Hin as [Hin|Hin]; [apply Hnew1, Hin|].
    intros Hd. exact (Hnew2 dest Hin (Hsub1 _ Hd)). }
  split; [rewrite length_app; lia|].
  split; [rewrite Hmoves2, Hmoves1, app_assoc; reflexivity|].
  split; [rewrite length_app; lia|].
  split; [|intros x Hx; apply Hdang1, Hdang2, Hx].
  intros dest Hin. apply elem_of_app in Hin as [Hin|Hin].
  - destruct (Hmoved1 dest Hin) as [Hbefore Hafter]. split; [exact Hbefore|].
    exact (exists_mono _ _ _ _ dest Hsub2 Hdang2 Hafter).
  - destruct (Hmoved2 dest Hin) as [Hbefore Hafter]. split; [|exact Hafter].
    apply exists_false_iff. apply exists_false_iff in Hbefore as [Hnot|Hd].
    + left. intros Hd. exact (Hnot (Hsub1 _ Hd)).
    + right. apply Hdang1, Hd.
Qed.

Lemma stores_NoDup n m w w' :
  stores n m w w' -> NoDup (w_video_dir w) -> NoDup (w_video_dir w').
Proof.
  intros (new & moved & Hdir & Hnd & Hnew & _) Hbefore. rewrite Hdir.
  apply NoDup_app. split; [exact Hbefore|]. split; [|exact Hnd].
  intros x Hx Hin. exact (Hnew x Hin Hx).
Qed.

(** A file put at a name of which [exists] is false. *)
Lemma stored_stores (dest : pystr) (w : World) :
  exists_ (w_video_dir w) (w_dangling w) dest = false ->
  exists new,
    w_video_dir (stored dest w) = w_video_dir w ++ new
    /\ NoDup new /\ (forall x, x ∈ new -> x ∉ w_video_dir w) /\ (length new <= 1)%nat
    /\ exists_ (w_video_dir (stored dest w)) (w_dangling (stored dest w)) dest = true
    /\ w_dangling (stored dest w) ⊆ w_dangling w.
Proof.
  intros Hfree. world_simpl. unfold put.
  assert (Hgone : negb (bool_decide (dest ∈ w_dangling w ∖ {[ dest ]})) = true).
  { apply negb_true_iff, bool_decide_eq_false_2. intros H.
    apply elem_of_difference in H as [_ H]. apply H, elem_of_singleton_2. reflexivity. }
  assert (Hsub : w_dangling w ∖ {[ dest ]} ⊆ w_dangling w).
  { intros x Hx. apply elem_of_difference in Hx as [Hx _]. exact Hx. }
  destruct (decide (dest ∈ w_video_dir w)) as [Hin|Hin].
  - rewrite (bool_decide_eq_true_2 _ Hin).
    exists []. rewrite app_nil_r.
    split; [reflexivity|]. split; [apply NoDup_nil_2|].
    split; [intros x Hx; inversion Hx|]. split; [cbn [length]; lia|].
    split; [|exact Hsub].
    unfold exists_. rewrite Hgone, (bool_decide_eq_true_2 _ Hin). reflexivity.
  - rewrite (bool_decide_eq_false_2 _ Hin).
    exists [dest].
    split; [reflexivity|]. split; [apply NoDup_singleton|].
    split; [intros x Hx; apply list_elem_of_singleton in Hx as ->; exact Hin|].
    split; [cbn [length]; lia|].
    split; [|exact Hsub].
    unfold exists_. rewrite Hgone, bool_decide_eq_true_2; [reflexivity|].
    apply elem_of_app. right. left.
Qed.

Lemma move_video_stores moved src standard_name success w :
  let w' := (move_video_ moved src standard_name success w).2 in
  match moved with
  | Moved => stores 1 1 w w'
  | MoveRaises _ true => stores 1 0 w w'
  | MoveRaises _ false => w' = w
  end.
Proof.
  cbv zeta. unfold move_video_.
  set (dest := move_video_dest src standard_name success (w_video_dir w) (w_dangling w)).
  pose proof (move_video_dest_fresh src standard_name success (w_video_dir w)
                (w_dangling w)) as Hfree. fold dest in Hfree.
  destruct (stored_stores dest w Hfree) as (new & Hdir & Hnd & Hnew & Hlen & Hthere & Hdang).
  destruct moved as [|e [|]]; cbn [snd].
  - exists new, [dest]. change (w_video_dir (add_event _ ?v)) with (w_video_dir v).
    change (w_dangling (add_event _ ?v)) with (w_dangling v).
    change (w_events (add_event ?ev ?v)) with (w_events v ++ [ev]).
    rewrite moves_app.
    change (w_events (stored dest w)) with (w_events w).
    repeat split; try assumption; try (cbn [length]; lia);
      apply list_elem_of_singleton in H as ->; assumption.
  - exists new, []. change (w_events (stored dest w)) with (w_events w).
    rewrite app_nil_r.
    repeat split; try assumption; try (cbn [length]; lia); inversion H.
  - reflexivity.
Qed.

(** The [except] block stores at most one file. *)
Lemma except_stores run video_path standard_name error_msg w :
  stores 1 1 w (except_ run video_path standard_name error_msg w).2.
Proof.
  unfold except_. rewrite !bind_progress, bind_attempt, bind_emit. unfold progress_.
  cbn [snd].
  set (w1 := upd_progress _ (upd_progress _ w)).
  apply (stores_from _ _ w w1); [reflexivity|].
  match goal with |- stores _ _ _ (upd_progress _ (add_event _ ?w2)) =>
    apply (stores_weaken (1 + 0) (1 + 0)); [lia | lia |];
    apply (stores_trans _ _ _ _ w1 w2);
      [|apply stores_same; unfold managed; world_simpl; rewrite moves_app, app_nil_r;
        reflexivity]
  end.
  rewrite bind_run.
  destruct standard_name as [n|].
  - cbn [ret fst snd].
    pose proof (move_video_stores (r_move_failed run) video_path n false w1) as H.
    cbv zeta in H.
    destruct (r_move_failed run) as [|e [|]].
    + cbn [move_video_ fst snd] in *. exact H.
    + cbn [move_video_ fst snd] in *. apply (stores_weaken 1 0); [lia | lia | exact H].
    + cbn [move_video_ fst snd] in *. apply stores_same. reflexivity.
  - cbn [generate_standard_name_ fst snd].
    set (n := generate_standard_name _ _ _ _).
    pose proof (move_video_stores (r_move_failed run) video_path n false w1) as H.
    cbv zeta in H.
    destruct (r_move_failed run) as [|e [|]].
    + cbn [move_video_ fst snd] in *. exact H.
    + cbn [move_video_ fst snd] in *. apply (stores_weaken 1 0); [lia | lia | exact H].
    + cbn [move_video_ fst snd] in *. apply stores_same. reflexivity.
Qed.

(** The rest of the [try] block: when it ends well it has completed its
    move; when it raises it has completed none, and has left a new entry
    only if [shutil.move] raised with something at the destination. *)
Lemma try_after_name_stores run video_path t w :
  let w' := (try_after_name run video_path t w).2 in
  match (try_after_name run video_path t w).1 with
  | Ret _ => stores 1 1 w w'
  | Raise _ =>
    stores 1 0 w w'
    /\ ((forall e, r_move run <> MoveRaises e true) -> managed w' = managed w)
  end.
Proof.
  cbv zeta. unfold try_after_name. rewrite bind_call.
  destruct (r_save_md run) as [[]|e].
  2: { cbn [fst snd]. split; [apply stores_same|]; reflexivity. }
  rewrite bind_emit, bind_run.
  set (w1 := add_event _ w).
  assert (Hw1 : managed w1 = managed w) by (apply managed_event; discriminate).
  pose proof (move_video_stores (r_move run) video_path (tr_standard_name t) true w1) as H.
  cbv zeta in H. unfold move_video_ in *.
  destruct (r_move run) as [|e [|]]; cbn [fst snd] in *.
  - rewrite bind_progress, bind_emit. unfold progress_. cbn [fst snd].
    apply (stores_from _ _ w w1 _ Hw1).
    match goal with |- stores _ _ _ (upd_progress _ (add_event _ (upd_progress _ ?w2))) =>
      apply (stores_weaken (1 + 0) (1 + 0)); [lia | lia |];
      apply (stores_trans _ _ _ _ w1 w2); [exact H|];
      apply stores_same; unfold managed; world_simpl; rewrite moves_app, app_nil_r;
      reflexivity
    end.
  - split; [exact (stores_from _ _ w w1 _ Hw1 H)|].
    intros Hno. exfalso. exact (Hno e eq_refl).
  - split; [apply stores_same; exact Hw1 | intros _; exact Hw1].
Qed.

(** X26. A run of [process_video] completes at most one move into the
    managed directory, to a name of which [exists] was false before the
    run: a name no entry had, or the name of a link to nothing.  The
    entries that were there stay, the names stay distinct, and at most
    two names are new; two only when [shutil.move] raised in the success
    branch with something left at the destination and the failure branch
    then stored the source under its own name.  This holds whichever
    collaborators fail. *)
Theorem process_video_stores_once run video_path w :
  let w' := (process_video run video_path w).2 in
  stores 2 1 w w'
  /\ ((forall e, r_move run <> MoveRaises e true) -> stores 1 1 w w')
  /\ (NoDup (w_video_dir w) -> NoDup (w_video_dir w')).
Proof.
  cbv zeta.
  assert (Hboth : stores 2 1 w (process_video run video_path w).2
                  /\ ((forall e, r_move run <> MoveRaises e true) ->
                      stores 1 1 w (process_video run video_path w).2)).
  { assert (Hsame : forall w', managed w' = managed w ->
              stores 2 1 w w'
              /\ ((forall e, r_move run <> MoveRaises e true) -> stores 1 1 w w')).
    { intros w' Heq. split; [|intros _]; apply stores_same, Heq. }
    destruct (r_stat run) as [filesize_mb|e] eqn:Hstat.
    2: { rewrite (process_video_stat_error _ _ _ _ Hstat). apply Hsame. reflexivity. }
    rewrite (process_video_unfold _ _ _ _ Hstat). cbv zeta.
    destruct (is_processed _ _); [apply Hsame; reflexivity|].
    unfold process_video_started. rewrite bind_progress, bind_mark_processed.
    destruct (r_mark run) as [|e opened]; [|apply Hsame; reflexivity].
    rewrite bind_emit, bind_attempt.
    set (w1 := add_event _ _).
    assert (Hw1 : managed w1 = managed w)
      by (unfold w1; rewrite managed_event by discriminate; reflexivity).
    pose proof (keeps_managed_try_until_name run video_path w1) as H1.
    destruct (try_until_name run video_path w1) as [[t|e] w2]; cbn [fst snd] in *.
    - assert (Hw2 : managed w2 = managed w) by (rewrite H1; exact Hw1).
      rewrite bind_attempt.
      pose proof (try_after_name_stores run video_path t w2) as H2. cbv zeta in H2.
      destruct (try_after_name run video_path t w2) as [[[]|e] w3]; cbn [fst snd] in *.
      + split; [|intros _]; apply (stores_from _ _ w w2 _ Hw2).
        * apply (stores_weaken 1 1); [lia | lia | exact H2].
        * exact H2.
      + destruct H2 as [H2 Hclean].
        pose proof (except_stores run video_path (Some (tr_standard_name t)) e w3) as H3.
        split.
        * apply (stores_from _ _ w w2 _ Hw2).
          exact (stores_trans 1 0 1 1 _ _ _ H2 H3).
        * intros Hno. apply (stores_from _ _ w w3); [|exact H3].
          rewrite (Hclean Hno). exact Hw2.
    - assert (Hw2 : managed w2 = managed w) by (rewrite H1; exact Hw1).
      pose proof (except_stores run video_path None e w2) as H3.
      split; [|intros _]; apply (stores_from _ _ w w2 _ Hw2).
      + apply (stores_weaken 1 1); [lia | lia | exact H3].
      + exact H3. }
  destruct Hboth as [H2 H1]. split; [exact H2|]. split; [exact H1|].
  exact (stores_NoDup _ _ _ _ H2).
Qed.

Lemma process_video_stores_once_witness :
  let w' := (process_video Examples.run_copy_breaks Examples.desktop_talk
               Examples.empty_world).2 in
  NoDup (w_video_dir w')
  /\ w_video_dir w' = [py "2026_1_1_zh_1.mp4"; py "fail_2026_1_1_zh_1.mp4"]
  /\ moves (w_events w') = [py "fail_2026_1_1_zh_1.mp4"].
Proof.
  cbv zeta. split; [|split; vm_compute; reflexivity].
  apply (process_video_stores_once Examples.run_copy_breaks Examples.desktop_talk
           Examples.empty_world).
  apply NoDup_nil_2.
Defined.

(** ** The sub-percent while the recogniser runs *)

Lemma tick_doc now percent detail st :
  let st' := update_transcribe_progress now percent detail st in
  status_writes st' = status_writes st ++ [status_doc now (pm st')]
  /\ _current_stage (pm st') = _current_stage (pm st)
  /\ _transcribe_percent (pm st') = Z.min percent 100.
Proof. repeat split. Qed.

Lemma run_transcribe_window : forall ticks (r : res pyval) w,
  _current_stage (pm (w_progress w)) = py "transcribe" ->
  let w' := (fold_right
               (fun tick rest =>
                  let display_pct := t_curve tick in
                  let display_pct := Z.max 1 (Z.min display_pct 95) in
                  progress_ (update_transcribe_progress (t_clock tick) display_pct
                               (t_detail tick)) ;;
                  rest)%m
               (call r) ticks w).2 in
  exists docs,
    status_writes (w_progress w') = status_writes (w_progress w) ++ docs
    /\ length docs = length ticks
    /\ Forall (fun doc => s_state doc = py "transcribe"
                          /\ 1 <= s_transcribe_percent doc <= 95
                          /\ 40 <= s_progress doc <= 87) docs
    /\ _current_stage (pm (w_progress w')) = py "transcribe".
Proof.
  induction ticks as [|tick ticks IH]; intros r w Hst; cbn [fold_right]; cbv zeta.
  - exists []. rewrite app_nil_r. repeat split; [constructor | exact Hst].
  - rewrite bind_progress.
    set (pct := Z.max 1 (Z.min (t_curve tick) 95)).
    destruct (tick_doc (t_clock tick) pct (t_detail tick) (w_progress w))
      as (Hwrite & Hstage & Hpct). cbv zeta in Hwrite, Hstage, Hpct.
    set (w1 := upd_progress _ w).
    assert (Hst1 : _current_stage (pm (w_progress w1)) = py "transcribe")
      by (unfold w1; world_simpl; rewrite Hstage; exact Hst).
    destruct (IH r w1 Hst1) as (docs & Hw & Hlen & Hall & Hend). cbv zeta in *.
    eexists (_ :: docs). split; [|split; [|split]].
    + rewrite Hw. unfold w1. world_simpl. rewrite Hwrite, <- app_assoc. reflexivity.
    + cbn [length]. rewrite Hlen. reflexivity.
    + constructor; [|exact Hall]. cbn [status_doc s_state s_transcribe_percent s_progress].
      rewrite Hstage, Hpct. split; [exact Hst|].
      assert (Hrange : 1 <= pct <= 95) by (unfold pct; lia).
      clearbody pct.
      assert (Hmin : Z.min pct 100 = pct) by lia.
      rewrite Hmin. split; [lia|].
      rewrite compute_progress_transcribe; [| rewrite Hstage; exact Hst | rewrite Hpct; lia].
      rewrite Hpct, Hmin.
      assert (0 <= pct / 2 <= 47).
      { split; [apply Z.div_pos; lia|].
        assert (pct / 2 < 48) by (apply Z.div_lt_upper_bound; lia). lia. }
      lia.
    + exact Hend.
Qed.

(** X27. Started in the stage [transcribe], as [process_video] starts it,
    [_run_transcribe_with_progress] writes one status for each update, and
    every one of them shows the stage [transcribe], a sub-percent between
    1 and 95 and an overall percent between 40 and 87, however the curve
    of the estimate behaves: the bar stays below the 90 of the stage
    [save] until the recogniser is done. *)
Theorem run_transcribe_percent_window (run : Run) (w : World) :
  _current_stage (pm (w_progress w)) = py "transcribe" ->
  let w' := (_run_transcribe_with_progress run w).2 in
  exists docs,
    status_writes (w_progress w') = status_writes (w_progress w) ++ docs
    /\ length docs = length (r_ticks run)
    /\ Forall (fun doc => s_state doc = py "transcribe"
                          /\ 1 <= s_transcribe_percent doc <= 95
                          /\ 40 <= s_progress doc <= 87) docs
    /\ _current_stage (pm (w_progress w')) = py "transcribe".
Proof.
  intros Hst. exact (run_transcribe_window (r_ticks run) (r_generate run) w Hst).
Qed.

Lemma run_transcribe_percent_window_witness :
  let run := {| r_stat := Ret 12%Q; r_clock := fun _ => Examples.noon; r_mark := Saved;
                r_extract := Ret tt; r_duration := 0; r_duration_min := [];
                r_detect := Ret (py "zh"); r_load_model := Ret tt;
                r_ticks := [ {| t_clock := Examples.noon; t_curve := 0; t_detail := [] |};
                             {| t_clock := Examples.noon; t_curve := 200; t_detail := [] |} ];
                r_generate := Ret (PList []); r_repr := fun _ => [];
                r_parse_error := []; r_decimal := ascii_digit;
                r_today := {| year := 2026; month := 1; day := 1 |};
                r_save_md := Ret tt; r_move := Moved; r_move_failed := Moved |} in
  let w := upd_progress (fun _ => Examples.transcribing) Examples.empty_world in
  exists docs,
    status_writes (w_progress (_run_transcribe_with_progress run w).2)
    = status_writes (w_progress w) ++ docs
    /\ length docs = 2%nat.
Proof.
  cbv zeta.
  destruct (run_transcribe_percent_window
              {| r_stat := Ret 12%Q; r_clock := fun _ => Examples.noon; r_mark := Saved;
                 r_extract := Ret tt; r_duration := 0; r_duration_min := [];
                 r_detect := Ret (py "zh"); r_load_model := Ret tt;
                 r_ticks := [ {| t_clock := Examples.noon; t_curve := 0; t_detail := [] |};
                              {| t_clock := Examples.noon; t_curve := 200;
                                 t_detail := [] |} ];
                 r_generate := Ret (PList []); r_repr := fun _ => [];
                 r_parse_error := []; r_decimal := ascii_digit;
                 r_today := {| year := 2026; month := 1; day := 1 |};
                 r_save_md := Ret tt; r_move := Moved; r_move_failed := Moved |}
              (upd_progress (fun _ => Examples.transcribing) Examples.empty_world))
    as (docs & Hw & Hlen & _).
  - reflexivity.
  - exists docs. split; [exact Hw | exact Hlen].
Defined.

End PipelineFacts.

(* ================================================================== *)
(** * Facts about the way from an event to a task *)
(* ================================================================== *)

Module QueueFacts.
Import PyStr Progress FileManager Transcriber Main Trace Handler Pipeline.
Import ProgressFacts FileManagerFacts MainFacts TraceFacts HandlerFacts PipelineFacts.
Local Open Scope m_scope.

Lemma on_new_video_stat_error now run stat_task saved video_path w e :
  on_new_video (Raise e) now run stat_task saved video_path w = (Raise e, w).
Proof. reflexivity. Qed.






(** ** The worker *)

(** What a run of [process_video] does to the record: nothing, or the
    path is added, or the writing fails on the open file and the record
    is lost. *)
Lemma process_video_record run video_path w :
  let w' := (process_video run video_path w).2 in
  w_processed w' = w_processed w
  \/ (r_mark run = Saved
      /\ w_processed w' = {[ str_of_path video_path ]} ∪ w_processed w)
  \/ (exists e, r_mark run = SaveRaises e true /\ w_processed w' = ∅).
Proof.
  cbv zeta. destruct (r_stat run) as [filesize_mb|e] eqn:Hstat.
  2: { rewrite (process_video_stat_error _ _ _ _ Hstat). left. reflexivity. }
  rewrite (process_video_unfold _ _ _ _ Hstat). cbv zeta.
  destruct (is_processed _ _); [left; reflexivity|].
  destruct (r_mark run) as [|e [|]] eqn:Hmark.
  - right. left. split; [reflexivity|].
    rewrite process_video_started_processed by exact Hmark. reflexivity.
  - right. right. exists e. split; [reflexivity|].
    rewrite (process_video_started_mark_raises _ _ _ _ _ _ Hmark). reflexivity.
  - left. rewrite (process_video_started_mark_raises _ _ _ _ _ _ Hmark). reflexivity.
Qed.

Lemma worker_turn_cons run video_path rest w :
  w_q w = video_path :: rest ->
  worker_turn run w
  = (Ret tt, (process_video run video_path (upd_q (fun _ => rest) w)).2).
Proof.
  intros Hq. unfold worker_turn. rewrite Hq, bind_attempt. reflexivity.
Qed.

(** X29. A turn of the worker takes the oldest task of the queue and leaves the
    others waiting in their order; it does not raise, also when
    [process_video] does.  It takes nothing out of the record of
    processed paths, unless the writing of the record fails on the open
    file, which leaves the record empty.  A task that is added goes
    behind those waiting. *)
Theorem worker_turn_takes_oldest run w :
  let w' := (worker_turn run w).2 in
  (worker_turn run w).1 = Ret tt
  /\ w_q w' = drop 1 (w_q w)
  /\ (w_processed w ⊆ w_processed w'
      \/ exists e, r_mark run = SaveRaises e true /\ w_processed w' = ∅)
  /\ match w_q w with
     | [] => w' = w
     | video_path :: rest =>
       w' = (process_video run video_path (upd_q (fun _ => rest) w)).2
     end
  /\ (forall filesize_mb now video_path,
        w_q (add_task (Ret filesize_mb) now video_path w).2 = w_q w ++ [video_path]).
Proof.
  cbv zeta. split; [|split; [|split; [|split]]].
  - unfold worker_turn. destruct (w_q w); [reflexivity|].
    rewrite bind_attempt. reflexivity.
  - destruct (w_q w) as [|video_path rest] eqn:Hq.
    + unfold worker_turn. rewrite Hq. cbn [snd]. rewrite Hq. reflexivity.
    + rewrite (worker_turn_cons _ _ _ _ Hq). cbn [snd drop].
      rewrite process_video_q. reflexivity.
  - destruct (w_q w) as [|video_path rest] eqn:Hq.
    + unfold worker_turn. rewrite Hq. left. reflexivity.
    + rewrite (worker_turn_cons _ _ _ _ Hq). cbn [snd].
      destruct (process_video_record run video_path (upd_q (fun _ => rest) w))
        as [Heq | [[_ Heq] | (e & Hmark & Heq)]].
      * left. rewrite Heq. reflexivity.
      * left. rewrite Heq. world_simpl. intros x Hx. apply elem_of_union_r. exact Hx.
      * right. exists e. split; [exact Hmark | exact Heq].
  - destruct (w_q w) as [|video_path rest] eqn:Hq.
    + unfold worker_turn. rewrite Hq. reflexivity.
    + rewrite (worker_turn_cons _ _ _ _ Hq). reflexivity.
  - intros filesize_mb now video_path. reflexivity.
Qed.



End QueueFacts.
